(** * RES4LYF dynamic widgets: a shallow embedding of
      web/js/RES4LYF_dynamicWidgets.js and its visibility properties.

    JavaScript numbers are integers of [Z]; a JS object used as a
    dictionary is a [gmap]; an array that is updated in place is a list
    with stdpp's lookup and insert; a widget reference is the index of
    the widget in [node.widgets]; closures are first-order data (the
    hook types, [Callback]) together with the function that runs them.
    Widget names are assumed not to be members of [Object.prototype]
    (the store [origProps] is a plain object literal). *)

From Stdlib Require Import ZArith Ascii.
From stdpp Require Import base option list strings gmap fin_maps pretty.

Local Open Scope Z_scope.

(** ** Data model *)

(** Widget values as the host hands them out. *)
Inductive JsValue :=
| VUndefined
| VBool (b : bool)
| VNum (z : Z)
| VStr (s : string).

#[global] Instance JsValue_eq_dec : EqDecision JsValue.
Proof. solve_decision. Defined.

(** [widget.computeSize(width)] returns the pair [[w, h]]. *)
Definition SizeFn : Type := Z → Z * Z.

(** One group of [dependentWidgets.groups] (lines 31-61). *)
Record DependentGroup := {
  inputWidgetNames : list string;
  independentValues : list JsValue;
  widgetsToShow : list string
}.

(** One group of [optionalInputWidgets.groups] (lines 97-104). *)
Record OptionalGroup := {
  inputs : list string;
  widgets : list string
}.

(** A node configuration, an entry of [nodeConfigs]; a missing
    property is [None]. *)
Record NodeConfig := {
  optionalInputWidgets : option (list OptionalGroup);
  dependentWidgets : option (list DependentGroup)
}.

#[global] Instance DependentGroup_eq_dec : EqDecision DependentGroup.
Proof. solve_decision. Defined.
#[global] Instance OptionalGroup_eq_dec : EqDecision OptionalGroup.
Proof. solve_decision. Defined.
#[global] Instance NodeConfig_eq_dec : EqDecision NodeConfig.
Proof. solve_decision. Defined.

(** The closure stored in [widget.callback]: either whatever the host
    installed, or the handler returned by [createGenericHandler]. *)
Inductive Callback :=
| HostCallback (tag : nat)
| OnNodeChange (cfg : option (list DependentGroup)).

Record Widget := {
  wName : string;                  (* widget.name *)
  wValue : JsValue;                (* widget.value *)
  wType : string;                  (* widget.type *)
  wComputeSize : option SizeFn;    (* widget.computeSize, None = undefined *)
  wComputedHeight : option Z;      (* widget.computedHeight, None = absent *)
  wHidden : option bool;           (* widget._RES4LYF_hidden, None = undefined *)
  wCallback : option Callback      (* widget.callback *)
}.

(** An input socket; [iLink = None] is [link === null]. *)
Record Input := {
  iName : string;
  iLink : option Z
}.

(** The hook slots of a node. Each holds nothing ([undefined]), a
    handler installed by the host or by another extension, or a closure
    created by this file, which remembers the handler it replaced. *)
Inductive ConnectionsHook :=
| ConnNone
| ConnHost (tag : nat)
| ConnWrap (orig : ConnectionsHook) (cfg : option (list DependentGroup)). (* 300-306 *)

Inductive MenuHook :=
| MenuNone
| MenuHost (tag : nat)
| MenuWrap (orig : MenuHook) (cfg : option (list DependentGroup)).        (* 311-339 *)

Inductive ConfigureHook :=
| ConfigureNone
| ConfigureHost (tag : nat)
| ConfigureWrap (orig : ConfigureHook) (cfg : option (list DependentGroup)). (* 496-500 *)

Inductive GraphConfiguredHook :=
| GraphConfiguredNone
| GraphConfiguredHost (tag : nat)
| GraphConfiguredSet (cfg : option (list DependentGroup)).                (* 503-510 *)

(** A node of the host. [node.computeSize()] is the host's: it returns
    the natural size of the node for the widgets and inputs it has at
    the time of the call. *)
Record Node := {
  nId : Z;                                          (* node.id *)
  comfyClass : string;                              (* node.comfyClass *)
  nWidgets : list Widget;                           (* node.widgets *)
  nInputs : list Input;                             (* node.inputs *)
  nSize : Z * Z;                                    (* node.size *)
  nComputeSize : list Widget → list Input → Z * Z;  (* node.computeSize() *)
  onConnectionsChange : ConnectionsHook;
  getExtraMenuOptions : MenuHook;
  menuWrapped : bool;                               (* node._RES4LYF_menuWrapped *)
  onConfigure : ConfigureHook;
  onAfterGraphConfigured : GraphConfiguredHook;
  nGraph : bool                                     (* node.graph is set *)
}.

(** An entry of [origProps] (lines 180-183). *)
Record OrigProps := {
  origType : string;
  origComputeSize : option SizeFn
}.

(** What the program does that leaves no mark on a node: the calls of
    [resDebugLog] (lines 177, 214, 240), the runs of handlers that were
    installed before, [handleConnectionChange] passing its guards, and
    [app.graph.setDirtyCanvas]. *)
Inductive Event :=
| EvToggle (name cls : string) (shouldShow hiding : bool)
| EvNodeChange (cls : string)
| EvSetup (cls : string)
| EvConnection (inputName : string)
| EvHost (tag : nat)
| EvDirtyCanvas.

#[global] Instance Event_eq_dec : EqDecision Event.
Proof. solve_decision. Defined.

(** The module-level variables (lines 3-18) and the event trace. *)
Record Globals := {
  ENABLE_WIDGET_HIDING : bool;
  DEFAULT_WIDGET_STATES : gmap string bool;
  widgetToggleStates : gmap string bool;
  origProps : gmap string OrigProps;
  trace : list Event
}.

Definition HIDDEN_TAG : string := "RES4LYF_hidden".

(** ** Field updates *)

Definition set_origProps (o : gmap string OrigProps) (g : Globals) : Globals :=
  {| ENABLE_WIDGET_HIDING := ENABLE_WIDGET_HIDING g;
     DEFAULT_WIDGET_STATES := DEFAULT_WIDGET_STATES g;
     widgetToggleStates := widgetToggleStates g;
     origProps := o;
     trace := trace g |}.

Definition set_hiding (b : bool) (g : Globals) : Globals :=
  {| ENABLE_WIDGET_HIDING := b;
     DEFAULT_WIDGET_STATES := DEFAULT_WIDGET_STATES g;
     widgetToggleStates := widgetToggleStates g;
     origProps := origProps g;
     trace := trace g |}.

Definition set_defaults (d : gmap string bool) (g : Globals) : Globals :=
  {| ENABLE_WIDGET_HIDING := ENABLE_WIDGET_HIDING g;
     DEFAULT_WIDGET_STATES := d;
     widgetToggleStates := widgetToggleStates g;
     origProps := origProps g;
     trace := trace g |}.

Definition set_toggleStates (t : gmap string bool) (g : Globals) : Globals :=
  {| ENABLE_WIDGET_HIDING := ENABLE_WIDGET_HIDING g;
     DEFAULT_WIDGET_STATES := DEFAULT_WIDGET_STATES g;
     widgetToggleStates := t;
     origProps := origProps g;
     trace := trace g |}.

(** Events are appended in the order in which they happen. *)
Definition emit (e : Event) (g : Globals) : Globals :=
  {| ENABLE_WIDGET_HIDING := ENABLE_WIDGET_HIDING g;
     DEFAULT_WIDGET_STATES := DEFAULT_WIDGET_STATES g;
     widgetToggleStates := widgetToggleStates g;
     origProps := origProps g;
     trace := trace g ++ [e] |}.

Definition set_widgets (ws : list Widget) (n : Node) : Node :=
  {| nId := nId n; comfyClass := comfyClass n; nWidgets := ws;
     nInputs := nInputs n; nSize := nSize n; nComputeSize := nComputeSize n;
     onConnectionsChange := onConnectionsChange n;
     getExtraMenuOptions := getExtraMenuOptions n;
     menuWrapped := menuWrapped n; onConfigure := onConfigure n;
     onAfterGraphConfigured := onAfterGraphConfigured n; nGraph := nGraph n |}.

(** Modelled from the spec: the host's [node.setSize(size)] mutator,
    which is not part of this file; it stores the size it is given. *)
Definition setSize (sz : Z * Z) (n : Node) : Node :=
  {| nId := nId n; comfyClass := comfyClass n; nWidgets := nWidgets n;
     nInputs := nInputs n; nSize := sz; nComputeSize := nComputeSize n;
     onConnectionsChange := onConnectionsChange n;
     getExtraMenuOptions := getExtraMenuOptions n;
     menuWrapped := menuWrapped n; onConfigure := onConfigure n;
     onAfterGraphConfigured := onAfterGraphConfigured n; nGraph := nGraph n |}.

(** [node.widgets.find(w => w.name === name)]: the first match. *)
Definition findWidget (ws : list Widget) (name : string) : option nat :=
  fst <$> list_find (λ w, wName w = name) ws.

(** [node.inputs.find(input => input.name === name)]. *)
Definition findInput (ins : list Input) (name : string) : option Input :=
  snd <$> list_find (λ i, iName i = name) ins.

(** ** The toggle engine (lines 174-204) *)

(** Lines 179-184: an entry is written only when the name has none;
    the result is the store and the entry read back from it. *)
Definition captureOrig (o : gmap string OrigProps) (w : Widget)
  : gmap string OrigProps * OrigProps :=
  match o !! wName w with
  | Some p => (o, p)
  | None =>
      let p := {| origType := wType w;
                  origComputeSize := wComputeSize w |} in          (* 180-183 *)
      (<[wName w := p]> o, p)
  end.

(** Lines 188-197: the widget after the assignments. [visible] is
    [shouldShow || !ENABLE_WIDGET_HIDING]. *)
Definition toggled (p : OrigProps) (shouldShow visible : bool) (w : Widget) : Widget :=
  {| wName := wName w;
     wValue := wValue w;
     wType := if visible then origType p else HIDDEN_TAG;
     wComputeSize := if visible then origComputeSize p else Some (λ _, (0, -4));
     wComputedHeight := if visible then None else Some 0;
     wHidden := Some (negb shouldShow);
     wCallback := wCallback w |}.

(** [widget] is what [find] returned: a position in [node.widgets], or
    [undefined]. Every caller looks the widget up on the node it
    passes, so the position is in range. *)
Definition toggleWidget (node : Node) (widget : option nat) (shouldShow : bool)
    (g : Globals) : Globals * Node :=
  match widget with
  | None => (g, node)                                              (* 175 *)
  | Some i =>
      match nWidgets node !! i with
      | None => (g, node)
      | Some w =>
          let g := emit (EvToggle (wName w) (comfyClass node) shouldShow
                           (ENABLE_WIDGET_HIDING g)) g in          (* 177 *)
          let '(o, p) := captureOrig (origProps g) w in            (* 179-184 *)
          let origSize := nSize node in                            (* 186 *)
          let visible := shouldShow || negb (ENABLE_WIDGET_HIDING g) in
          let ws := <[i := toggled p shouldShow visible w]> (nWidgets node) in
          let newSize := nComputeSize node ws (nInputs node) in    (* 199 *)
          let height := if visible
                        then Z.max (snd newSize) (snd origSize)
                        else snd newSize in                        (* 200-202 *)
          (set_origProps o g,
           setSize (fst (nSize node), height) (set_widgets ws node)) (* 203 *)
      end
  end.

(** ** The rule registry (lines 28-166) *)

Definition commonDependentWidgets : list DependentGroup :=
  [ {| inputWidgetNames := ["noise_type"; "noise_sampler_type"];
       independentValues := [VStr "fractal"];
       widgetsToShow := ["alpha"; "k"] |};
    {| inputWidgetNames := ["rk_type"; "sampler_name"];
       independentValues :=
         VStr <$> [ "dormand-prince_6s"; "dormand-prince_7s"; "dormand-prince_13s";
                    "bogacki-shampine_7s"; "rk_exp_5s"; "rk4_4s"; "rk38_4s";
                    "ralston_4s"; "dpmpp_3s"; "heun_3s"; "houwen-wray_3s";
                    "kutta_3s"; "ralston_3s"; "res_3s"; "ssprk3_3s"; "dpmpp_2s";
                    "dpmpp_sde_2s"; "heun_2s"; "ralston_2s"; "res_2s" ];
       widgetsToShow := ["multistep"] |} ].

Definition nodesWithCommonConfig : list string :=
  [ "AdvancedNoise"; "Legacy_ClownSampler"; "ClownSampler"; "ClownsharKSampler";
    "KSamplerSelectAdvanced"; "LatentNoised"; "SamplerCorona"; "SamplerDEIS_SDE";
    "SamplerDPMPP_2M_SDE_Advanced"; "SamplerDPMPP_2S_Ancestral_Advanced";
    "SamplerDPMPP_3M_SDE_Advanced"; "SamplerDPMPP_DualSDE_Advanced";
    "SamplerDPMPP_SDE_Advanced"; "SamplerDPMPP_SDE_CFG++_Advanced";
    "SamplerEulerAncestral_Advanced"; "SamplerNoiseInversion";
    "SamplerRES_Implicit"; "SamplerRES3_Implicit_Automation"; "SamplerRK";
    "SamplerRK_Test"; "SharkSampler"; "UltraSharkSampler";
    "UltraSharkSampler Tiled" ].

(** Lines 151-159; [uniqueConfig] defaults to the empty object. *)
Definition createNodeConfig (nodeName : string) (uniqueConfig : NodeConfig) : NodeConfig :=
  if bool_decide (nodeName ∈ nodesWithCommonConfig)
  then {| optionalInputWidgets := optionalInputWidgets uniqueConfig;
          dependentWidgets := Some commonDependentWidgets |}
  else uniqueConfig.

Definition emptyConfig : NodeConfig :=
  {| optionalInputWidgets := None; dependentWidgets := None |}.

Definition guideGroup : OptionalGroup :=
  {| inputs := ["latent_guide"; "latent_guide_inv"];
     widgets := ["latent_guide_weight"; "guide_mode"] |}.

Definition maskGroup : OptionalGroup :=
  {| inputs := ["latent_guide_mask"]; widgets := ["rescale_floor"] |}.

Definition withOptional (groups : list OptionalGroup) : NodeConfig :=
  {| optionalInputWidgets := Some groups; dependentWidgets := None |}.

(** The property names that every plain object inherits from
    [Object.prototype]. *)
Definition objectPrototypeNames : list string :=
  [ "constructor"; "__defineGetter__"; "__defineSetter__"; "hasOwnProperty";
    "__lookupGetter__"; "__lookupSetter__"; "isPrototypeOf";
    "propertyIsEnumerable"; "toString"; "valueOf"; "__proto__";
    "toLocaleString" ].

(** [configs[name]] on the plain object that [nodeConfigs] is (line
    18), whose own entries are [configs]. Besides these the lookup
    finds what the object inherits from [Object.prototype]: under such
    a name the value is a function (for [__proto__], the prototype
    object), which is truthy and has neither [dependentWidgets] nor
    [optionalInputWidgets]. The code reads no other property of a
    configuration, so such a value reads as [emptyConfig]. Any other
    name gives [undefined]. *)
Definition objectLookup (configs : gmap string NodeConfig) (name : string)
  : option NodeConfig :=
  match configs !! name with
  | Some config => Some config
  | None =>
      if bool_decide (name ∈ objectPrototypeNames) then Some emptyConfig else None
  end.

(** The own entries of [nodeConfigs]: lines 93-134, then the loop of
    lines 162-166; the object is built once, when the script loads. *)
Definition nodeConfigs : gmap string NodeConfig := Eval vm_compute in
  fold_left
    (λ m nodeName,
       match objectLookup m nodeName with                          (* 163 *)
       | Some _ => m
       | None => <[nodeName := createNodeConfig nodeName emptyConfig]> m
       end)
    nodesWithCommonConfig
    (<["SamplerRK" :=
         createNodeConfig "SamplerRK" (withOptional [guideGroup])]>
     (<["Legacy_ClownSampler" :=
          createNodeConfig "Legacy_ClownSampler" (withOptional [guideGroup; maskGroup])]>
      (<["ClownSampler" :=
           createNodeConfig "ClownSampler" (withOptional [guideGroup; maskGroup])]> ∅))).

(** [nodeConfigs[cls]] as the code reads it (lines 271, 345, 383, 414
    and 483). *)
Definition configOf (cls : string) : option NodeConfig :=
  objectLookup nodeConfigs cls.

(** An entry of [TOGGLEABLE_WIDGETS] (lines 137-148). *)
Record ToggleableWidget := {
  settingId : string;
  settingName : string;
  defaultValue : bool
}.

Definition TOGGLEABLE_WIDGETS : list (string * ToggleableWidget) :=
  [ ("extra_options",
     {| settingId := "RES4LYF.defaultHideExtraOptions";
        settingName := "RES4LYF: Hide extra_options widget by default";
        defaultValue := false |});
    ("truncate_conditioning",
     {| settingId := "RES4LYF.defaultHideTruncateConditioning";
        settingName := "RES4LYF: Hide truncate_conditioning widget by default";
        defaultValue := false |}) ].

(** The key [`${node.id}_${widgetName}`] of the override store. *)
Definition stateKey (node : Node) (widgetName : string) : string :=
  pretty (nId node) +:+ "_" +:+ widgetName.

(** ** The value rules (lines 212-232) *)

Definition St : Type := Globals * Node.

(** [arr.forEach(f)] over state. *)
Definition forEach {A S : Type} (f : A → S → S) (l : list A) (s : S) : S :=
  fold_left (λ s a, f a s) l s.

(** Lines 220-223. *)
Definition showWidgets (ws : list Widget) (group : DependentGroup) : bool :=
  existsb
    (λ widgetName,
       match list_find (λ w, wName w = widgetName) ws with
       | Some (_, widget) => bool_decide (wValue widget ∈ independentValues group)
       | None => false
       end)
    (inputWidgetNames group).

(** Lines 226-227: the widget may be [undefined]. *)
Definition toggleNamed (show : bool) (widgetName : string) (s : St) : St :=
  toggleWidget s.2 (findWidget (nWidgets s.2) widgetName) show s.1.

(** Lines 217-229, for one group. *)
Definition applyGroup (group : DependentGroup) (s : St) : St :=
  let show := showWidgets (nWidgets s.2) group in
  forEach (toggleNamed show) (widgetsToShow group) s.

(** The handler that [createGenericHandler(node, dependentWidgetsConfig)]
    returns, run on the current state of the node it closes over. *)
Definition createGenericHandler (cfg : option (list DependentGroup)) (s : St) : St :=
  let s := (emit (EvNodeChange (comfyClass s.2)) s.1, s.2) in     (* 214 *)
  match cfg with
  | Some groups => forEach applyGroup groups s
  | None => s
  end.

(** ** The connection rules (lines 270-296 and 344-361) *)

(** Lines 282-285 and 348-351. *)
Definition isAnyConnected (ins : list Input) (group : OptionalGroup) : bool :=
  existsb
    (λ inputName,
       match findInput ins inputName with
       | Some input => bool_decide (iLink input ≠ None)
       | None => false
       end)
    (inputs group).

(** Lines 282-293 and 348-359, for one group. *)
Definition applyOptionalGroup (group : OptionalGroup) (s : St) : St :=
  let connected := isAnyConnected (nInputs s.2) group in
  forEach
    (λ widgetName s,
       match findWidget (nWidgets s.2) widgetName with
       | Some i => toggleWidget s.2 (Some i) connected s.1
       | None => s
       end)
    (widgets group) s.

Definition handleConnectionChange (index : nat) (s : St) : St :=
  match configOf (comfyClass s.2) ≫= optionalInputWidgets with
  | None => s                                                    (* 272 *)
  | Some groups =>
      match nInputs s.2 !! index with
      | None => s                                                (* 275-276 *)
      | Some input =>
          let inputName := iName input in
          if bool_decide (inputName = "") then s                 (* 276 *)
          else
            forEach
              (λ group s,
                 if bool_decide (inputName ∈ inputs group)
                 then applyOptionalGroup group s
                 else s)
              groups (emit (EvConnection inputName) s.1, s.2)
      end
  end.

(** ** Setting up a node (lines 239-362) *)

Definition set_callback (c : option Callback) (w : Widget) : Widget :=
  {| wName := wName w; wValue := wValue w; wType := wType w;
     wComputeSize := wComputeSize w; wComputedHeight := wComputedHeight w;
     wHidden := wHidden w; wCallback := c |}.

Definition set_onConnectionsChange (h : ConnectionsHook) (n : Node) : Node :=
  {| nId := nId n; comfyClass := comfyClass n; nWidgets := nWidgets n;
     nInputs := nInputs n; nSize := nSize n; nComputeSize := nComputeSize n;
     onConnectionsChange := h;
     getExtraMenuOptions := getExtraMenuOptions n;
     menuWrapped := menuWrapped n; onConfigure := onConfigure n;
     onAfterGraphConfigured := onAfterGraphConfigured n; nGraph := nGraph n |}.

(** Lines 311 and 340 together. *)
Definition set_getExtraMenuOptions (h : MenuHook) (n : Node) : Node :=
  {| nId := nId n; comfyClass := comfyClass n; nWidgets := nWidgets n;
     nInputs := nInputs n; nSize := nSize n; nComputeSize := nComputeSize n;
     onConnectionsChange := onConnectionsChange n;
     getExtraMenuOptions := h;
     menuWrapped := true; onConfigure := onConfigure n;
     onAfterGraphConfigured := onAfterGraphConfigured n; nGraph := nGraph n |}.

Definition set_onConfigure (h : ConfigureHook) (n : Node) : Node :=
  {| nId := nId n; comfyClass := comfyClass n; nWidgets := nWidgets n;
     nInputs := nInputs n; nSize := nSize n; nComputeSize := nComputeSize n;
     onConnectionsChange := onConnectionsChange n;
     getExtraMenuOptions := getExtraMenuOptions n;
     menuWrapped := menuWrapped n; onConfigure := h;
     onAfterGraphConfigured := onAfterGraphConfigured n; nGraph := nGraph n |}.

Definition set_onAfterGraphConfigured (h : GraphConfiguredHook) (n : Node) : Node :=
  {| nId := nId n; comfyClass := comfyClass n; nWidgets := nWidgets n;
     nInputs := nInputs n; nSize := nSize n; nComputeSize := nComputeSize n;
     onConnectionsChange := onConnectionsChange n;
     getExtraMenuOptions := getExtraMenuOptions n;
     menuWrapped := menuWrapped n; onConfigure := onConfigure n;
     onAfterGraphConfigured := h; nGraph := nGraph n |}.

(** Lines 244-252, for one name of [Object.keys(TOGGLEABLE_WIDGETS)];
    [!undefined] is [true]. *)
Definition applyDefault (widgetName : string) (s : St) : St :=
  match findWidget (nWidgets s.2) widgetName with
  | Some i =>
      match widgetToggleStates s.1 !! stateKey s.2 widgetName with
      | Some _ => s
      | None =>
          let defaultHidden := default false (DEFAULT_WIDGET_STATES s.1 !! widgetName) in
          toggleWidget s.2 (Some i) (negb defaultHidden) s.1
      end
  | None => s
  end.

(** Lines 261-264. *)
Definition setCallback (cfg : option (list DependentGroup)) (widgetName : string)
    (n : Node) : Node :=
  match list_find (λ w, wName w = widgetName) (nWidgets n) with
  | Some (i, widget) =>
      set_widgets (<[i := set_callback (Some (OnNodeChange cfg)) widget]> (nWidgets n)) n
  | None => n
  end.

Definition setupDynamicWidgets (cfg : option (list DependentGroup)) (s : St) : St :=
  let s := (emit (EvSetup (comfyClass s.2)) s.1, s.2) in          (* 240 *)
  let s := forEach applyDefault TOGGLEABLE_WIDGETS.*1 s in        (* 243-253 *)
  let s := createGenericHandler cfg s in                          (* 255-256 *)
  let node :=
    match cfg with
    | Some groups =>
        forEach (λ group, forEach (setCallback cfg) (inputWidgetNames group))
          groups s.2                                              (* 258-267 *)
    | None => s.2
    end in
  let node :=
    set_onConnectionsChange (ConnWrap (onConnectionsChange node) cfg) node in (* 299-306 *)
  let node :=
    if menuWrapped node then node                                 (* 309 *)
    else set_getExtraMenuOptions (MenuWrap (getExtraMenuOptions node) cfg) node in
  match configOf (comfyClass node) ≫= optionalInputWidgets with
  | Some groups => forEach applyOptionalGroup groups (s.1, node)  (* 344-361 *)
  | None => (s.1, node)
  end.

(** ** Running the hooks *)

(** The function assigned at lines 300-306. *)
Fixpoint run_onConnectionsChange (h : ConnectionsHook) (index : nat) (s : St) : St :=
  match h with
  | ConnNone => s
  | ConnHost tag => (emit (EvHost tag) s.1, s.2)
  | ConnWrap orig cfg =>
      let s := run_onConnectionsChange orig index s in            (* 301-303 *)
      let s := handleConnectionChange index s in                  (* 304 *)
      createGenericHandler cfg s                                  (* 305 *)
  end.

(** The callbacks of the menu entries (lines 318 and 330-335). *)
Inductive MenuCallback :=
| CbRefresh (cfg : option (list DependentGroup))
| CbToggle (key : string) (widget : nat) (isHidden : bool).

Record MenuOption := {
  content : string;
  callback : MenuCallback
}.

(** Lines 323-337, for one toggleable name; [??] falls back to the
    default, and an [undefined] default counts as false. *)
Definition toggleOption (node : Node) (g : Globals) (widgetName : string)
    (options : list MenuOption) : list MenuOption :=
  match findWidget (nWidgets node) widgetName with
  | Some i =>
      let key := stateKey node widgetName in
      let isHidden :=
        match widgetToggleStates g !! key with
        | Some b => b
        | None => default false (DEFAULT_WIDGET_STATES g !! widgetName)
        end in
      options ++
        [ {| content := (if isHidden then "Show" else "Hide") +:+ " " +:+ widgetName;
             callback := CbToggle key i isHidden |} ]
  | None => options
  end.

(** The function assigned at lines 311-339. *)
Fixpoint run_getExtraMenuOptions (h : MenuHook) (options : list MenuOption) (s : St)
  : St * list MenuOption :=
  match h with
  | MenuNone => (s, options)
  | MenuHost tag => ((emit (EvHost tag) s.1, s.2), options)
  | MenuWrap orig cfg =>
      let '(s, options) := run_getExtraMenuOptions orig options s in (* 312-314 *)
      let options :=
        options ++ [ {| content := "Refresh RES4LYF widgets";
                        callback := CbRefresh cfg |} ] in            (* 316-319 *)
      (s, forEach (toggleOption s.2 s.1) TOGGLEABLE_WIDGETS.*1 options)
  end.

Definition run_menuCallback (cb : MenuCallback) (s : St) : St :=
  match cb with
  | CbRefresh cfg => createGenericHandler cfg s
  | CbToggle key widget isHidden =>
      let newState := negb isHidden in                             (* 331 *)
      let g := set_toggleStates (<[key := newState]> (widgetToggleStates s.1)) s.1 in
      let s := toggleWidget s.2 (Some widget) (negb newState) g in (* 333 *)
      (emit EvDirtyCanvas s.1, s.2)                                (* 334 *)
  end.

(** The function assigned at lines 496-500. *)
Fixpoint run_onConfigure (h : ConfigureHook) (s : St) : St :=
  match h with
  | ConfigureNone => s
  | ConfigureHost tag => (emit (EvHost tag) s.1, s.2)
  | ConfigureWrap orig cfg => setupDynamicWidgets cfg (run_onConfigure orig s)
  end.

(** The function assigned at lines 503-510, with the frame callback
    it requests run at once. *)
Definition run_onAfterGraphConfigured (h : GraphConfiguredHook) (s : St) : St :=
  match h with
  | GraphConfiguredNone => s
  | GraphConfiguredHost tag => (emit (EvHost tag) s.1, s.2)
  | GraphConfiguredSet cfg => if nGraph s.2 then createGenericHandler cfg s else s
  end.

(** ** The extension (lines 364-513) *)

Definition nodeCreated (s : St) : St :=
  match configOf (comfyClass s.2) with
  | Some config =>
      let cfg := dependentWidgets config in
      let s := setupDynamicWidgets cfg s in                        (* 488 *)
      let s := createGenericHandler cfg s in                       (* 491-492 *)
      let node := set_onConfigure (ConfigureWrap (onConfigure s.2) cfg) s.2 in
      (s.1, set_onAfterGraphConfigured (GraphConfiguredSet cfg) node)
  | None => s
  end.

(** [for (const node of app.graph._nodes)] with the globals threaded
    from one node to the next. *)
Fixpoint forNodes (f : St → St) (nodes : list Node) (g : Globals)
  : Globals * list Node :=
  match nodes with
  | [] => (g, [])
  | node :: rest =>
      let s := f (g, node) in
      let r := forNodes f rest s.1 in
      (r.1, s.2 :: r.2)
  end.

(** Lines 383-392, the body of the loop. *)
Definition applyNewDefault (widgetName : string) (value : bool) (s : St) : St :=
  match configOf (comfyClass s.2) with
  | Some _ =>
      match findWidget (nWidgets s.2) widgetName with
      | Some i =>
          match widgetToggleStates s.1 !! stateKey s.2 widgetName with
          | Some _ => s
          | None => toggleWidget s.2 (Some i) (negb value) s.1
          end
      | None => s
      end
  | None => s
  end.

(** The [onChange] of the setting of a toggleable widget (lines 377-394). *)
Definition onChangeDefault (widgetName : string) (value : bool)
    (g : Globals) (nodes : list Node) : Globals * list Node :=
  let g := set_defaults (<[widgetName := value]> (DEFAULT_WIDGET_STATES g)) g in
  forNodes (applyNewDefault widgetName value) nodes g.

(** Lines 422-424, for the widget at one position of [node.widgets]. *)
Definition reapply (i : nat) (s : St) : St :=
  match nWidgets s.2 !! i with
  | Some widget =>
      match wHidden widget with
      | Some hidden => toggleWidget s.2 (Some i) (negb hidden) s.1
      | None => s
      end
  | None => s
  end.

(** Lines 415-425, the body of the loop. *)
Definition reapplyNode (s : St) : St :=
  match configOf (comfyClass s.2) with
  | Some _ => forEach reapply (seq 0 (length (nWidgets s.2))) s
  | None => s
  end.

(** The [onChange] of "Enable dynamic widget hiding" (lines 410-427). *)
Definition onChangeHiding (value : bool) (g : Globals) (nodes : list Node)
  : Globals * list Node :=
  forNodes reapplyNode nodes (set_hiding value g).

(** The module-level variables when the script has loaded, and after
    [setup] has initialised the defaults (line 398). *)
Definition loaded : Globals :=
  {| ENABLE_WIDGET_HIDING := false; DEFAULT_WIDGET_STATES := ∅;
     widgetToggleStates := ∅; origProps := ∅; trace := [] |}.

Definition setup (g : Globals) : Globals :=
  forEach
    (λ entry g,
       set_defaults (<[entry.1 := defaultValue entry.2]> (DEFAULT_WIDGET_STATES g)) g)
    TOGGLEABLE_WIDGETS g.

(** ** The events the editor delivers *)

(** The module-level variables and the nodes of the graph. *)
Definition World : Type := Globals * list Node.

(** Run [f] on the node at position [k] of the graph. *)
Definition onNode (k : nat) (f : St → St) (world : World) : World :=
  match world.2 !! k with
  | Some node => let s := f (world.1, node) in (s.1, <[k := s.2]> world.2)
  | None => world
  end.

(** [widget.callback()], as the host calls it after a value edit. *)
Definition run_callback (i : nat) (s : St) : St :=
  match nWidgets s.2 !! i ≫= wCallback with
  | Some (OnNodeChange cfg) => createGenericHandler cfg s
  | Some (HostCallback tag) => (emit (EvHost tag) s.1, s.2)
  | None => s
  end.

(** The user opens the menu of a node and picks its [n]-th entry. *)
Definition run_menuChoice (n : nat) (s : St) : St :=
  let '(s, options) := run_getExtraMenuOptions (getExtraMenuOptions s.2) [] s in
  match options !! n with
  | Some option => run_menuCallback (callback option) s
  | None => s
  end.

(** Every way in which the host enters this file once it has loaded. *)
Inductive Action :=
| NodeCreated (k : nat)
| Configure (k : nat)
| GraphConfigured (k : nat)
| ConnectionsChange (k index : nat)
| ValueEdited (k i : nat)
| MenuChoice (k n : nat)
| DefaultChanged (widgetName : string) (value : bool)
| HidingChanged (value : bool).

Definition perform (a : Action) (world : World) : World :=
  match a with
  | NodeCreated k => onNode k nodeCreated world
  | Configure k => onNode k (λ s, run_onConfigure (onConfigure s.2) s) world
  | GraphConfigured k =>
      onNode k (λ s, run_onAfterGraphConfigured (onAfterGraphConfigured s.2) s) world
  | ConnectionsChange k index =>
      onNode k (λ s, run_onConnectionsChange (onConnectionsChange s.2) index s) world
  | ValueEdited k i => onNode k (run_callback i) world
  | MenuChoice k n => onNode k (run_menuChoice n) world
  | DefaultChanged widgetName value => onChangeDefault widgetName value world.1 world.2
  | HidingChanged value => onChangeHiding value world.1 world.2
  end.

Definition run (actions : list Action) (world : World) : World :=
  forEach perform actions world.

(** ** Sample nodes *)

(** A size function in the style of the host's default one: a row per
    input, and for every widget its own height, or 20, plus a margin
    of 4. *)
Definition sampleComputeSize (ws : list Widget) (ins : list Input) : Z * Z :=
  let width := 210 in
  let rows := Z.max (Z.of_nat (length ins)) 1 in
  let widgets_height :=
    foldr (λ w acc,
             match wComputeSize w with
             | Some f => (f width).2 + 4 + acc
             | None => 20 + 4 + acc
             end) 8 ws in
  (width, rows * 20 + widgets_height + 6).

Definition sampleWidget (name : string) (v : JsValue) (ty : string) : Widget :=
  {| wName := name; wValue := v; wType := ty; wComputeSize := None;
     wComputedHeight := None; wHidden := None; wCallback := None |}.

Definition sampleNode (id : Z) (cls : string) (ws : list Widget) (ins : list Input)
    (sz : Z * Z) : Node :=
  {| nId := id; comfyClass := cls; nWidgets := ws; nInputs := ins; nSize := sz;
     nComputeSize := sampleComputeSize;
     onConnectionsChange := ConnNone; getExtraMenuOptions := MenuNone;
     menuWrapped := false; onConfigure := ConfigureNone;
     onAfterGraphConfigured := GraphConfiguredNone; nGraph := true |}.

(** A [ClownSampler] with the widgets and inputs the rules mention. *)
Definition clownSampler (noise : string) (guide guide_inv : option Z) : Node :=
  sampleNode 7 "ClownSampler"
    [ sampleWidget "noise_type" (VStr noise) "combo";
      sampleWidget "alpha" (VNum 1) "number";
      sampleWidget "k" (VNum 1) "number";
      sampleWidget "latent_guide_weight" (VNum 0) "number";
      sampleWidget "guide_mode" (VStr "hard_light") "combo";
      sampleWidget "extra_options" (VStr "") "customtext" ]
    [ {| iName := "latent_guide"; iLink := guide |};
      {| iName := "latent_guide_inv"; iLink := guide_inv |} ]
    (210, 300).

Definition hidingOn : Globals := set_hiding true (setup loaded).

(** The user has chosen, from the menu of node 7, to hide its
    [extra_options]. *)
Definition withOverride : Globals :=
  set_toggleStates (<["7_extra_options" := true]> ∅) hidingOn.

(** Two nodes of different types whose widgets share the name [alpha]
    and differ in kind. *)
Definition noiseNode : Node :=
  sampleNode 1 "AdvancedNoise" [sampleWidget "alpha" (VNum 1) "number"] [] (210, 100).

Definition sharkNode : Node :=
  sampleNode 2 "SharkSampler" [sampleWidget "alpha" (VNum 1) "slider"] [] (210, 100).

(** A [ClownSampler] on which the host, or another extension, has
    installed a handler in every hook slot before this file sees it. *)
Definition hostedSampler : Node :=
  let n := clownSampler "gaussian" (Some 5) None in
  {| nId := nId n; comfyClass := comfyClass n; nWidgets := nWidgets n;
     nInputs := nInputs n; nSize := nSize n; nComputeSize := nComputeSize n;
     onConnectionsChange := ConnHost 1;
     getExtraMenuOptions := MenuHost 2;
     menuWrapped := false; onConfigure := ConfigureHost 3;
     onAfterGraphConfigured := GraphConfiguredHost 4; nGraph := true |}.

(** The same state with an empty trace, to observe one event alone. *)
Definition quiet (s : St) : St :=
  ({| ENABLE_WIDGET_HIDING := ENABLE_WIDGET_HIDING s.1;
      DEFAULT_WIDGET_STATES := DEFAULT_WIDGET_STATES s.1;
      widgetToggleStates := widgetToggleStates s.1;
      origProps := origProps s.1;
      trace := [] |}, s.2).

(** How often an event occurs in a trace. *)
Definition occurrences (e : Event) (t : list Event) : nat :=
  length (filter (λ e', e' = e) t).

(** The originals a widget would contribute to the store. *)
Definition ownProps (w : Widget) : OrigProps :=
  {| origType := wType w; origComputeSize := wComputeSize w |}.

(** * Properties *)

(** ** What a toggle leaves alone *)

(** The part of a widget that no toggle writes to. *)
Definition core (w : Widget) : string * JsValue * option Callback :=
  (wName w, wValue w, wCallback w).

(** How the widget looks after a toggle that shows it with the
    originals [p], and after one that hides it. *)
Definition shownAs (p : OrigProps) (w : Widget) : Prop :=
  wType w = origType p ∧ wComputeSize w = origComputeSize p ∧
  wComputedHeight w = None.

Definition hiddenAs (w : Widget) : Prop :=
  wType w = HIDDEN_TAG ∧ wComputeSize w = Some (λ _, (0, -4)) ∧
  wComputedHeight w = Some 0.

(** [s'] comes from [s] by toggles only: the globals other than the
    store of originals and the trace are the same, the store has only
    grown, and the node differs at most in the toggled fields of its
    widgets and in its height. *)
Record stable (s s' : St) : Prop := {
  st_hiding : ENABLE_WIDGET_HIDING s'.1 = ENABLE_WIDGET_HIDING s.1;
  st_defaults : DEFAULT_WIDGET_STATES s'.1 = DEFAULT_WIDGET_STATES s.1;
  st_states : widgetToggleStates s'.1 = widgetToggleStates s.1;
  st_orig : origProps s.1 ⊆ origProps s'.1;
  st_core : core <$> nWidgets s'.2 = core <$> nWidgets s.2;
  st_inputs : nInputs s'.2 = nInputs s.2;
  st_class : comfyClass s'.2 = comfyClass s.2;
  st_id : nId s'.2 = nId s.2;
  st_width : (nSize s'.2).1 = (nSize s.2).1;
  st_computeSize : nComputeSize s'.2 = nComputeSize s.2;
  st_conn : onConnectionsChange s'.2 = onConnectionsChange s.2;
  st_menu : getExtraMenuOptions s'.2 = getExtraMenuOptions s.2;
  st_wrapped : menuWrapped s'.2 = menuWrapped s.2;
  st_configure : onConfigure s'.2 = onConfigure s.2;
  st_after : onAfterGraphConfigured s'.2 = onAfterGraphConfigured s.2;
  st_graph : nGraph s'.2 = nGraph s.2
}.

(** In [s'] the widget at position [i] is what a toggle with decision
    [show] makes of the widget that [s] has there, with the originals
    that the store of [s'] holds under [name]. *)
Definition toggledAt (s s' : St) (i : nat) (name : string) (show : bool) : Prop :=
  ∃ w p,
    nWidgets s.2 !! i = Some w ∧ origProps s'.1 !! name = Some p ∧
    nWidgets s'.2 !! i =
      Some (toggled p show (show || negb (ENABLE_WIDGET_HIDING s.1)) w).

(** The condition of a value rule in the words of the specification:
    some controlling widget exists on the node and holds a trigger
    value. *)
Definition triggered (ws : list Widget) (group : DependentGroup) : Prop :=
  ∃ name j w,
    name ∈ inputWidgetNames group ∧ findWidget ws name = Some j ∧
    ws !! j = Some w ∧ wValue w ∈ independentValues group.

(** The condition of a connection rule in the words of the
    specification: some input named in the group has a connection. It
    is stated over the positions of [node.inputs] and not through the
    lookup the code makes: some input of the node whose name is in the
    group's [inputs] has a link that is not null. Should the node
    carry several inputs of one name, the first of that name is the
    one that counts. *)
Definition anyConnected (ins : list Input) (group : OptionalGroup) : Prop :=
  ∃ (k : nat) input,
    ins !! k = Some input ∧ iName input ∈ inputs group ∧ iLink input ≠ None ∧
    ∀ (k' : nat) input',
      ins !! k' = Some input' → iName input' = iName input → (k ≤ k')%nat.

(** The globals [g'] come from [g] by toggles only. *)
Record grown (g g' : Globals) : Prop := {
  gr_hiding : ENABLE_WIDGET_HIDING g' = ENABLE_WIDGET_HIDING g;
  gr_defaults : DEFAULT_WIDGET_STATES g' = DEFAULT_WIDGET_STATES g;
  gr_states : widgetToggleStates g' = widgetToggleStates g;
  gr_orig : origProps g ⊆ origProps g'
}.

(** The body of the loop of lines 279-295 for an input of the given
    name, and the widgets it may toggle. *)
Definition connectionStep (inputName : string) (group : OptionalGroup) (s : St) : St :=
  if bool_decide (inputName ∈ inputs group) then applyOptionalGroup group s else s.

Definition connectionTargets (inputName : string) (group : OptionalGroup) : list string :=
  if bool_decide (inputName ∈ inputs group) then widgets group else [].

(** [f] never removes or changes an entry of [origProps]. *)
Definition Keeps (f : St → St) : Prop :=
  ∀ s, origProps s.1 ⊆ origProps (f s).1.

(** ** Further sample data *)

(** Two value rules that name the same widget and disagree when
    [noise_type] is ["fractal"] and [mode] is ["off"]. *)
Definition conflictingRules : list DependentGroup :=
  [ {| inputWidgetNames := ["noise_type"];
       independentValues := [VStr "fractal"];
       widgetsToShow := ["alpha"] |};
    {| inputWidgetNames := ["mode"];
       independentValues := [VStr "on"];
       widgetsToShow := ["alpha"; "k"] |} ].

(** A configured node with none of the widgets the rules name. *)
Definition seedNode : Node :=
  sampleNode 3 "LatentNoised" [sampleWidget "seed" (VNum 42) "number"] [] (210, 60).

(** A node on which the two rules of [conflictingRules] disagree. *)
Definition conflictNode : Node :=
  sampleNode 4 "AdvancedNoise"
    [ sampleWidget "noise_type" (VStr "fractal") "combo";
      sampleWidget "mode" (VStr "off") "combo";
      sampleWidget "alpha" (VNum 1) "number" ] [] (210, 120).

(** A sampler whose first input, [model], is named by no connection
    group; it has a link, and so has [latent_guide]. *)
Definition wiredSampler : Node :=
  sampleNode 8 "ClownSampler"
    [ sampleWidget "noise_type" (VStr "gaussian") "combo";
      sampleWidget "alpha" (VNum 1) "number";
      sampleWidget "latent_guide_weight" (VNum 0) "number" ]
    [ {| iName := "model"; iLink := Some 1 |};
      {| iName := "latent_guide"; iLink := Some 2 |} ]
    (210, 200).

(** A node of a type for which the registry has no entry. *)
Definition plainNode : Node :=
  sampleNode 9 "KSampler"
    [ sampleWidget "extra_options" (VStr "") "text";
      sampleWidget "alpha" (VNum 1) "number" ] [] (210, 80).

(** ** Further vocabulary *)

(** Everything of a widget but its callback. *)
Definition look (w : Widget)
  : string * JsValue * string * option SizeFn * option Z * option bool :=
  (wName w, wValue w, wType w, wComputeSize w, wComputedHeight w, wHidden w).

(** [n'] differs from [n] at most in the callbacks of its widgets. *)
Record recalled (n n' : Node) : Prop := {
  rc_look : look <$> nWidgets n' = look <$> nWidgets n;
  rc_id : nId n' = nId n;
  rc_class : comfyClass n' = comfyClass n;
  rc_inputs : nInputs n' = nInputs n;
  rc_size : nSize n' = nSize n;
  rc_computeSize : nComputeSize n' = nComputeSize n;
  rc_conn : onConnectionsChange n' = onConnectionsChange n;
  rc_menu : getExtraMenuOptions n' = getExtraMenuOptions n;
  rc_wrapped : menuWrapped n' = menuWrapped n;
  rc_configure : onConfigure n' = onConfigure n;
  rc_after : onAfterGraphConfigured n' = onAfterGraphConfigured n;
  rc_graph : nGraph n' = nGraph n
}.

(** What belongs to the host and to the user: the identity of the
    node, its inputs, its width, and the names and values of its
    widgets. *)
Record sameData (n n' : Node) : Prop := {
  sd_id : nId n' = nId n;
  sd_class : comfyClass n' = comfyClass n;
  sd_inputs : nInputs n' = nInputs n;
  sd_values : (λ w, (wName w, wValue w)) <$> nWidgets n' =
              (λ w, (wName w, wValue w)) <$> nWidgets n;
  sd_width : (nSize n').1 = (nSize n).1;
  sd_computeSize : nComputeSize n' = nComputeSize n;
  sd_graph : nGraph n' = nGraph n
}.

(** The number of wrappers of this file around a connection hook. *)
Fixpoint layers (h : ConnectionsHook) : nat :=
  match h with
  | ConnWrap orig _ => S (layers orig)
  | _ => 0
  end.

(** [world'] has the nodes of [world], in the same order, each with
    the data it had. *)
Definition sameGraph (world world' : World) : Prop :=
  length world'.2 = length world.2 ∧
  ∀ k node, world.2 !! k = Some node →
    ∃ node', world'.2 !! k = Some node' ∧ sameData node node'.

(** No entry of the store holds the hidden tag as an original type. *)
Definition storeClean (g : Globals) : Prop :=
  ∀ name p, origProps g !! name = Some p → origType p ≠ HIDDEN_TAG.

(** Every widget of the node that carries the hidden tag has an entry
    in the store under its name. *)
Definition restorable (g : Globals) (n : Node) : Prop :=
  ∀ i w, nWidgets n !! i = Some w → wType w = HIDDEN_TAG →
         is_Some (origProps g !! wName w).

Definition sound (s : St) : Prop := storeClean s.1 ∧ restorable s.1 s.2.

Definition soundWorld (world : World) : Prop :=
  storeClean world.1 ∧
  ∀ k node, world.2 !! k = Some node → restorable world.1 node.

(** With hiding off in [s], it is off in [s'] and the node is no
    shorter there. *)
Definition noShrink (s s' : St) : Prop :=
  ENABLE_WIDGET_HIDING s.1 = false →
  ENABLE_WIDGET_HIDING s'.1 = false ∧ (nSize s.2).2 ≤ (nSize s'.2).2.

(** Whether the widget counts as hidden for the menu: the override of
    this node if there is one, otherwise the default (line 326). *)
Definition effectiveHidden (g : Globals) (node : Node) (widgetName : string) : bool :=
  match widgetToggleStates g !! stateKey node widgetName with
  | Some b => b
  | None => default false (DEFAULT_WIDGET_STATES g !! widgetName)
  end.

(** The menu entry for a toggleable widget at position [i] that
    counts as hidden or not. *)
Definition toggleEntry (node : Node) (widgetName : string) (i : nat) (hidden : bool)
  : MenuOption :=
  {| content := (if hidden then "Show" else "Hide") +:+ " " +:+ widgetName;
     callback := CbToggle (stateKey node widgetName) i hidden |}.

(** The string has no underscore. *)
Fixpoint plain (s : string) : Prop :=
  match s with
  | EmptyString => True
  | String c s => c ≠ "_"%char ∧ plain s
  end.

(** ** Basic facts *)

(** An own entry of [nodeConfigs] is what the lookup gives. *)
Lemma configOf_own cls config :
  nodeConfigs !! cls = Some config → configOf cls = Some config.
Proof. intros H. unfold configOf, objectLookup. rewrite H. reflexivity. Qed.

Lemma configOf_is_Some cls :
  is_Some (nodeConfigs !! cls) → is_Some (configOf cls).
Proof. intros [config H]. exists config. exact (configOf_own _ _ H). Qed.

(** Only the own entries carry connection groups. *)
Lemma configOf_optional cls :
  configOf cls ≫= optionalInputWidgets = nodeConfigs !! cls ≫= optionalInputWidgets.
Proof.
  unfold configOf, objectLookup.
  destruct (nodeConfigs !! cls) as [config|]; [reflexivity|].
  destruct (bool_decide _); reflexivity.
Qed.

Lemma configOf_None cls :
  nodeConfigs !! cls = None → cls ∉ objectPrototypeNames → configOf cls = None.
Proof.
  intros H Hnot. unfold configOf, objectLookup. rewrite H. clear H.
  rewrite bool_decide_eq_false_2; [reflexivity|exact Hnot].
Qed.

Lemma stable_refl s : stable s s.
Proof. by split. Qed.

Lemma stable_trans s1 s2 s3 : stable s1 s2 → stable s2 s3 → stable s1 s3.
Proof.
  intros [] []; split; try congruence.
  by etrans.
Qed.

Lemma forEach_nil {A S} (f : A → S → S) s : forEach f [] s = s.
Proof. done. Qed.

Lemma forEach_cons {A S} (f : A → S → S) a l s :
  forEach f (a :: l) s = forEach f l (f a s).
Proof. done. Qed.

Lemma forEach_app {A S} (f : A → S → S) l1 l2 s :
  forEach f (l1 ++ l2) s = forEach f l2 (forEach f l1 s).
Proof. apply fold_left_app. Qed.

(** A relation that every step respects is respected by the loop. *)
Lemma forEach_rel {A S} (R : S → S → Prop) (f : A → S → S) l :
  (∀ s, R s s) → (∀ s1 s2 s3, R s1 s2 → R s2 s3 → R s1 s3) →
  (∀ a s, a ∈ l → R s (f a s)) →
  ∀ s, R s (forEach f l s).
Proof.
  intros Hrefl Htrans. induction l as [|a l IH]; intros Hstep s; [done|].
  rewrite forEach_cons. eapply Htrans.
  - apply Hstep. by left.
  - apply IH. intros b s' Hb. apply Hstep. by right.
Qed.

Lemma captureOrig_lookup o w :
  (captureOrig o w).1 !! wName w = Some (captureOrig o w).2.
Proof.
  unfold captureOrig. destruct (o !! wName w) eqn:E; simpl; [done|].
  apply lookup_insert_eq.
Qed.

Lemma captureOrig_mono o w : o ⊆ (captureOrig o w).1.
Proof.
  unfold captureOrig. destruct (o !! wName w) eqn:E; simpl; [done|].
  by apply insert_subseteq.
Qed.

Lemma core_toggled p a b w : core (toggled p a b w) = core w.
Proof. done. Qed.

Lemma toggled_core p a b w w' : core w = core w' → toggled p a b w = toggled p a b w'.
Proof. unfold core, toggled. intros [= -> -> ->]. done. Qed.

(** The toggle of an existing widget, spelled out. *)
Lemma toggleWidget_Some node i w shouldShow g :
  nWidgets node !! i = Some w →
  let o := (captureOrig (origProps g) w).1 in
  let p := (captureOrig (origProps g) w).2 in
  let visible := shouldShow || negb (ENABLE_WIDGET_HIDING g) in
  let ws := <[i := toggled p shouldShow visible w]> (nWidgets node) in
  let newSize := nComputeSize node ws (nInputs node) in
  toggleWidget node (Some i) shouldShow g =
    (set_origProps o
       (emit (EvToggle (wName w) (comfyClass node) shouldShow (ENABLE_WIDGET_HIDING g)) g),
     setSize ((nSize node).1,
              if visible then Z.max newSize.2 (nSize node).2 else newSize.2)
       (set_widgets ws node)).
Proof.
  intros Hw. simpl. unfold toggleWidget. rewrite Hw. simpl.
  by destruct (captureOrig (origProps g) w).
Qed.

Lemma toggleWidget_stable node widget shouldShow g :
  stable (g, node) (toggleWidget node widget shouldShow g).
Proof.
  destruct widget as [i|]; [|apply stable_refl].
  destruct (nWidgets node !! i) as [w|] eqn:Hw.
  - rewrite (toggleWidget_Some _ _ _ _ _ Hw). split; simpl; try done.
    + apply captureOrig_mono.
    + rewrite list_fmap_insert, core_toggled.
      apply list_insert_id. by rewrite list_lookup_fmap, Hw.
  - unfold toggleWidget. rewrite Hw. apply stable_refl.
Qed.

(** ** Looking widgets up by name *)

Lemma list_find_core (ws ws' : list Widget) (name : string) :
  core <$> ws = core <$> ws' →
  prod_map id core <$> list_find (λ w, wName w = name) ws =
  prod_map id core <$> list_find (λ w, wName w = name) ws'.
Proof.
  revert ws'. induction ws as [|w ws IH]; intros [|w' ws'] Heq; try done.
  rewrite !fmap_cons in Heq.
  assert (core w = core w') as Hw by congruence.
  assert (core <$> ws = core <$> ws') as Hrest by congruence.
  specialize (IH ws' Hrest). simpl.
  assert (wName w = wName w') as Hn by (unfold core in Hw; congruence).
  destruct (decide (wName w = name)), (decide (wName w' = name));
    simpl; try congruence.
  destruct (list_find _ ws) as [[] |], (list_find _ ws') as [[] |];
    simpl in *; congruence.
Qed.

Lemma findWidget_core ws ws' name :
  core <$> ws = core <$> ws' → findWidget ws name = findWidget ws' name.
Proof.
  intros H. apply (list_find_core _ _ name) in H. unfold findWidget.
  destruct (list_find _ ws) as [[] |], (list_find _ ws') as [[] |];
    simpl in *; congruence.
Qed.

Lemma findWidget_Some ws name i :
  findWidget ws name = Some i → ∃ w, ws !! i = Some w ∧ wName w = name.
Proof.
  unfold findWidget. destruct (list_find _ ws) as [[j w] |] eqn:E; [|done].
  intros [= <-]. apply list_find_Some in E as (? & ? & _). eauto.
Qed.

Lemma findWidget_None ws name :
  findWidget ws name = None → ∀ w, w ∈ ws → wName w ≠ name.
Proof.
  unfold findWidget. destruct (list_find _ ws) as [[j w] |] eqn:E; [done|].
  intros _. apply list_find_None in E. by apply Forall_forall.
Qed.

Lemma showWidgets_core ws ws' group :
  core <$> ws = core <$> ws' → showWidgets ws group = showWidgets ws' group.
Proof.
  intros H. unfold showWidgets.
  induction (inputWidgetNames group) as [|name l IH]; [done|].
  simpl. rewrite IH. f_equal.
  apply (list_find_core _ _ name) in H.
  destruct (list_find _ ws) as [[? w] |], (list_find _ ws') as [[? w'] |];
    simpl in *; try congruence.
  assert (wValue w = wValue w') as -> by (unfold core in H; congruence).
  done.
Qed.

(** ** Toggling by name *)

Lemma stable_lookup s s' i w :
  stable s s' → nWidgets s.2 !! i = Some w →
  ∃ w', nWidgets s'.2 !! i = Some w' ∧ core w' = core w.
Proof.
  intros Hst Hw. pose proof (st_core _ _ Hst) as Hc.
  apply (f_equal (.!! i)) in Hc. rewrite !list_lookup_fmap, Hw in Hc.
  destruct (nWidgets s'.2 !! i) as [w'|]; simpl in Hc; [|done].
  exists w'. split; [done|congruence].
Qed.

Lemma stable_find s s' name :
  stable s s' → findWidget (nWidgets s'.2) name = findWidget (nWidgets s.2) name.
Proof. intros Hst. apply findWidget_core, Hst. Qed.

Lemma toggledAt_pre s0 s s' i name show :
  stable s0 s → toggledAt s s' i name show → toggledAt s0 s' i name show.
Proof.
  intros Hst (w & p & Hw & Hp & Hw').
  pose proof (st_core _ _ Hst) as Hc.
  apply (f_equal (.!! i)) in Hc. rewrite !list_lookup_fmap, Hw in Hc.
  destruct (nWidgets s0.2 !! i) as [w0|] eqn:Hw0; simpl in Hc; [|done].
  exists w0, p. split_and!; [done..|].
  rewrite Hw', (st_hiding _ _ Hst). f_equal. apply toggled_core. congruence.
Qed.

Lemma toggledAt_post s s1 s2 i name show :
  toggledAt s s1 i name show → stable s1 s2 →
  nWidgets s2.2 !! i = nWidgets s1.2 !! i → toggledAt s s2 i name show.
Proof.
  intros (w & p & Hw & Hp & Hw') Hst Heq. exists w, p. split_and!; [done| |congruence].
  eapply lookup_weaken; [done|]. apply Hst.
Qed.

Lemma toggleNamed_stable show name s : stable s (toggleNamed show name s).
Proof. destruct s. apply toggleWidget_stable. Qed.

Lemma toggleNamed_other show name s j w :
  nWidgets s.2 !! j = Some w → wName w ≠ name →
  nWidgets (toggleNamed show name s).2 !! j = Some w.
Proof.
  intros Hj Hne. unfold toggleNamed.
  destruct (findWidget (nWidgets s.2) name) as [i|] eqn:Hf; [|done].
  apply findWidget_Some in Hf as (wi & Hi & Hn).
  rewrite (toggleWidget_Some _ _ _ _ _ Hi). simpl.
  rewrite list_lookup_insert_ne; [done|]. intros ->. congruence.
Qed.

Lemma toggleNamed_target show name s i :
  findWidget (nWidgets s.2) name = Some i →
  toggledAt s (toggleNamed show name s) i name show.
Proof.
  intros Hf. unfold toggleNamed. rewrite Hf.
  apply findWidget_Some in Hf as (w & Hi & Hn).
  rewrite (toggleWidget_Some _ _ _ _ _ Hi).
  exists w, (captureOrig (origProps s.1) w).2. simpl. split_and!; [done| |].
  - rewrite <- Hn. apply captureOrig_lookup.
  - apply list_lookup_insert_eq. by eapply lookup_lt_Some.
Qed.

Lemma toggleAll_stable show l s : stable s (forEach (toggleNamed show) l s).
Proof.
  apply (forEach_rel stable); auto using stable_refl, toggleNamed_stable.
  apply stable_trans.
Qed.

(** A loop over names leaves a widget of another name as it is. *)
Lemma toggleAll_other show l : ∀ s j w,
  nWidgets s.2 !! j = Some w → wName w ∉ l →
  nWidgets (forEach (toggleNamed show) l s).2 !! j = Some w.
Proof.
  induction l as [|a l IH]; intros s j w Hj Hnot; [done|].
  rewrite forEach_cons. apply not_elem_of_cons in Hnot as [Hne Hnot].
  apply IH; [|done]. by apply toggleNamed_other.
Qed.

(** A loop over names leaves the first widget of each name toggled. *)
Lemma toggleAll_target show l : ∀ s t i,
  t ∈ l → findWidget (nWidgets s.2) t = Some i →
  toggledAt s (forEach (toggleNamed show) l s) i t show.
Proof.
  induction l as [|a l IH]; intros s t i Hin Hf; [by apply elem_of_nil in Hin|].
  rewrite forEach_cons.
  pose proof (toggleNamed_stable show a s) as Hst.
  destruct (decide (t ∈ l)) as [Hl|Hl].
  - eapply toggledAt_pre; [exact Hst|]. apply IH; [done|].
    by rewrite (stable_find _ _ _ Hst).
  - apply elem_of_cons in Hin as [->|]; [|done].
    pose proof (toggleNamed_target show a s i Hf) as Ht.
    eapply toggledAt_post; [exact Ht|apply toggleAll_stable|].
    destruct Ht as (w & p & Hw & _ & Hw'). rewrite Hw'.
    apply toggleAll_other; [done|]. simpl.
    apply findWidget_Some in Hf as (w0 & Hw0 & Hn).
    congruence.
Qed.

(** ** Rules applied in sequence *)

Section Rules.
Context {G : Type}.
Variable step : G → St → St.
Variable targets : G → list string.
Variable decision : G → St → bool.

Hypothesis step_stable : ∀ gr s, stable s (step gr s).
Hypothesis step_other : ∀ gr s j w,
  nWidgets s.2 !! j = Some w → wName w ∉ targets gr →
  nWidgets (step gr s).2 !! j = Some w.
Hypothesis step_target : ∀ gr s t i,
  t ∈ targets gr → findWidget (nWidgets s.2) t = Some i →
  toggledAt s (step gr s) i t (decision gr s).
Hypothesis decision_stable : ∀ gr s s',
  stable s s' → decision gr s' = decision gr s.

Lemma rules_stable l s : stable s (forEach step l s).
Proof.
  apply (forEach_rel stable); auto using stable_refl. apply stable_trans.
Qed.

Lemma rules_other l : ∀ s j w,
  nWidgets s.2 !! j = Some w → (∀ gr, gr ∈ l → wName w ∉ targets gr) →
  nWidgets (forEach step l s).2 !! j = Some w.
Proof.
  induction l as [|gr l IH]; intros s j w Hj Hnot; [done|].
  rewrite forEach_cons. apply IH.
  - apply step_other; [done|]. apply Hnot. by left.
  - intros gr' Hin. apply Hnot. by right.
Qed.

(** The last rule that names a widget decides how it is left. *)
Lemma rules_last pre gr post s t i :
  t ∈ targets gr → (∀ gr', gr' ∈ post → t ∉ targets gr') →
  findWidget (nWidgets s.2) t = Some i →
  toggledAt s (forEach step (pre ++ gr :: post) s) i t (decision gr s).
Proof.
  intros Hin Hpost Hf. rewrite forEach_app, forEach_cons.
  pose proof (rules_stable pre s) as Hpre.
  set (s1 := forEach step pre s) in *.
  eapply toggledAt_pre; [exact Hpre|].
  rewrite <- (decision_stable gr s s1 Hpre).
  assert (findWidget (nWidgets s1.2) t = Some i) as Hf1
    by by rewrite (stable_find _ _ _ Hpre).
  pose proof (step_target gr s1 t i Hin Hf1) as Ht.
  eapply toggledAt_post; [exact Ht|apply rules_stable|].
  destruct Ht as (w & p & Hw & _ & Hw'). rewrite Hw'.
  apply rules_other; [done|]. simpl.
  apply findWidget_Some in Hf1 as (w1 & Hw1 & Hn).
  intros gr' Hgr'. replace (wName w) with t by congruence. by apply Hpost.
Qed.
End Rules.

Lemma toggled_cases p show visible w :
  wHidden (toggled p show visible w) = Some (negb show) ∧
  if visible then shownAs p (toggled p show visible w)
  else hiddenAs (toggled p show visible w).
Proof. by destruct visible. Qed.

Lemma showWidgets_triggered ws group :
  showWidgets ws group = true ↔ triggered ws group.
Proof.
  unfold showWidgets, triggered. rewrite existsb_exists. split.
  - intros (name & Hin & H). apply list_elem_of_In in Hin.
    destruct (list_find _ ws) as [[j w] |] eqn:E; [|done].
    apply bool_decide_eq_true in H. exists name, j, w. split_and!; try done.
    + unfold findWidget. by rewrite E.
    + by apply list_find_Some in E as (? & _).
  - intros (name & j & w & Hin & Hf & Hw & Hv). exists name.
    split; [by apply list_elem_of_In|].
    unfold findWidget in Hf.
    destruct (list_find _ ws) as [[j' w'] |] eqn:E; [|done].
    injection Hf as ->. apply list_find_Some in E as (Hw' & _).
    apply bool_decide_eq_true. congruence.
Qed.

(** ** The value rules *)

Lemma applyGroup_stable group s : stable s (applyGroup group s).
Proof. apply toggleAll_stable. Qed.

Lemma applyGroup_other group s j w :
  nWidgets s.2 !! j = Some w → wName w ∉ widgetsToShow group →
  nWidgets (applyGroup group s).2 !! j = Some w.
Proof. apply toggleAll_other. Qed.

Lemma applyGroup_target group s t i :
  t ∈ widgetsToShow group → findWidget (nWidgets s.2) t = Some i →
  toggledAt s (applyGroup group s) i t (showWidgets (nWidgets s.2) group).
Proof. apply toggleAll_target. Qed.

Lemma createGenericHandler_stable cfg s : stable s (createGenericHandler cfg s).
Proof.
  unfold createGenericHandler.
  eapply (stable_trans _ (emit _ s.1, s.2)); [by split|].
  destruct cfg; [|apply stable_refl].
  apply rules_stable, applyGroup_stable.
Qed.

(** With several value rules, the last one that names a widget decides. *)
Lemma createGenericHandler_last pre group post s t i :
  t ∈ widgetsToShow group →
  (∀ gr', gr' ∈ post → t ∉ widgetsToShow gr') →
  findWidget (nWidgets s.2) t = Some i →
  toggledAt s (createGenericHandler (Some (pre ++ group :: post)) s) i t
    (showWidgets (nWidgets s.2) group).
Proof.
  intros Hin Hpost Hf. unfold createGenericHandler.
  eapply (toggledAt_pre _ (emit _ s.1, s.2)); [by split|].
  refine (rules_last applyGroup widgetsToShow
            (λ gr s, showWidgets (nWidgets s.2) gr)
            applyGroup_stable applyGroup_other applyGroup_target _
            pre group post (_, _) t i Hin Hpost Hf).
  intros gr s1 s2 Hst. apply showWidgets_core, Hst.
Qed.

(** Every configured node type carries the common value rules, and its
    connection rules are one of three. *)
Lemma nodeConfigs_entries :
  map_Forall
    (λ _ config,
       dependentWidgets config = Some commonDependentWidgets ∧
       (optionalInputWidgets config = None ∨
        optionalInputWidgets config = Some [guideGroup] ∨
        optionalInputWidgets config = Some [guideGroup; maskGroup]))
    nodeConfigs.
Proof. apply (bool_decide_unpack _). by vm_compute. Qed.

(** C1. On a node of a configured type, after the handler made by
    [createGenericHandler] has run, every existing widget named in a
    value rule's [widgetsToShow] carries the decision [show] of that
    rule, where [show] holds exactly when some name of
    [inputWidgetNames] resolves to a widget of the node whose value is
    among [independentValues]: the decision is recorded on the widget,
    and the widget is shown if the decision is to show (or hiding is
    switched off) and hidden otherwise. A controlling name that
    resolves to no widget adds nothing to the condition; the handler
    is a total function. *)
Theorem C1_value_rule_decides (g : Globals) (node : Node) (config : NodeConfig)
    (group : DependentGroup) (t : string) (i : nat) :
  nodeConfigs !! comfyClass node = Some config →
  group ∈ default [] (dependentWidgets config) →
  t ∈ widgetsToShow group →
  findWidget (nWidgets node) t = Some i →
  let s' := createGenericHandler (dependentWidgets config) (g, node) in
  ∃ w' p show,
    (show = true ↔ triggered (nWidgets node) group) ∧
    nWidgets s'.2 !! i = Some w' ∧ origProps s'.1 !! t = Some p ∧
    wHidden w' = Some (negb show) ∧
    (if show || negb (ENABLE_WIDGET_HIDING g)
     then shownAs p w' else hiddenAs w').
Proof.
  intros Hcfg Hgroup Ht Hf s'.
  destruct (nodeConfigs_entries _ _ Hcfg) as [Hdep _]. clear Hcfg.
  subst s'. rewrite Hdep in *. simpl in Hgroup.
  assert (toggledAt (g, node)
            (createGenericHandler (Some commonDependentWidgets) (g, node)) i t
            (showWidgets (nWidgets node) group)) as (w & p & Hw & Hp & Hw').
  { unfold commonDependentWidgets in *.
    apply elem_of_cons in Hgroup as [->|Hgroup].
    - apply (createGenericHandler_last [] _ [_] (g, node)); [done| |done].
      intros gr' ->%list_elem_of_singleton Hm%list_elem_of_singleton.
      simpl in Hm. subst t. by apply (bool_decide_pack _) in Ht.
    - apply list_elem_of_singleton in Hgroup as ->.
      apply (createGenericHandler_last [_] _ [] (g, node)); [done| |done].
      intros gr' []%elem_of_nil. }
  eexists _, p, (showWidgets (nWidgets node) group).
  split; [apply showWidgets_triggered|].
  split; [exact Hw'|]. split; [exact Hp|]. apply toggled_cases.
Qed.

Lemma C1_value_rule_decides_witness :
  let node := clownSampler "fractal" None None in
  let group := {| inputWidgetNames := ["noise_type"; "noise_sampler_type"];
                  independentValues := [VStr "fractal"];
                  widgetsToShow := ["alpha"; "k"] |} in
  let s' := createGenericHandler (Some commonDependentWidgets) (hidingOn, node) in
  ∃ w' p show,
    (show = true ↔ triggered (nWidgets node) group) ∧
    nWidgets s'.2 !! 1%nat = Some w' ∧ origProps s'.1 !! "alpha" = Some p ∧
    wHidden w' = Some (negb show) ∧
    (if show || negb (ENABLE_WIDGET_HIDING hidingOn)
     then shownAs p w' else hiddenAs w').
Proof.
  intros node group.
  apply (C1_value_rule_decides hidingOn node
           (createNodeConfig "ClownSampler" (withOptional [guideGroup; maskGroup]))
           group "alpha" 1%nat).
  - vm_compute; reflexivity.
  - by left.
  - by left.
  - vm_compute; reflexivity.
Defined.

(** ** The toggle engine *)

Lemma captureOrig_entry o w :
  (captureOrig o w).2 = default (ownProps w) (o !! wName w).
Proof. unfold captureOrig. by destruct (o !! wName w). Qed.

Lemma captureOrig_again o w w' :
  wName w' = wName w →
  captureOrig (captureOrig o w).1 w' = ((captureOrig o w).1, (captureOrig o w).2).
Proof.
  intros Hn. pose proof (captureOrig_lookup o w) as H.
  unfold captureOrig at 1. by rewrite Hn, H.
Qed.

(** C3, as amended. A toggle of an existing widget leaves it in one of
    two states. With [shouldShow] true, or with the hiding switch off,
    its type and [computeSize] are those stored in [origProps] under
    its name and it has no [computedHeight]; the stored originals are
    the entry that was there before the call, and the widget's own
    type and [computeSize] if there was none. Otherwise its type is
    the hidden tag, its [computeSize] returns [[0, -4]] and its
    [computedHeight] is 0. *)
Theorem C3_toggle_restores_or_hides (g : Globals) (node : Node) (i : nat)
    (w : Widget) (shouldShow : bool) :
  nWidgets node !! i = Some w →
  let s' := toggleWidget node (Some i) shouldShow g in
  ∃ w' p,
    nWidgets s'.2 !! i = Some w' ∧
    origProps s'.1 !! wName w = Some p ∧
    p = default (ownProps w) (origProps g !! wName w) ∧
    (if shouldShow || negb (ENABLE_WIDGET_HIDING g)
     then shownAs p w' else hiddenAs w').
Proof.
  intros Hw s'. subst s'. rewrite (toggleWidget_Some _ _ _ _ _ Hw). simpl.
  eexists _, _. split_and!.
  - apply list_lookup_insert_eq. by eapply lookup_lt_Some.
  - apply captureOrig_lookup.
  - apply captureOrig_entry.
  - apply toggled_cases.
Qed.

Lemma C3_toggle_restores_or_hides_witness :
  let s' := toggleWidget sharkNode (Some 0%nat) false hidingOn in
  ∃ w' p,
    nWidgets s'.2 !! 0%nat = Some w' ∧
    origProps s'.1 !! "alpha" = Some p ∧
    p = default (ownProps (sampleWidget "alpha" (VNum 1) "slider"))
          (origProps hidingOn !! "alpha") ∧
    (if false || negb (ENABLE_WIDGET_HIDING hidingOn)
     then shownAs p w' else hiddenAs w').
Proof.
  apply (C3_toggle_restores_or_hides hidingOn sharkNode 0
           (sampleWidget "alpha" (VNum 1) "slider") false).
  reflexivity.
Defined.

(** C3 as it was stated fails: the first toggle of the [alpha] of one
    node, after the [alpha] of another node has been toggled, shows it
    with the other widget's type, not with the type it had. *)
Lemma C3_first_toggle_restores_own_counterexample :
  let g := (toggleWidget noiseNode (Some 0%nat) true (setup loaded)).1 in
  ∃ w w',
    nWidgets sharkNode !! 0%nat = Some w ∧ wHidden w = None ∧
    nWidgets (toggleWidget sharkNode (Some 0%nat) true g).2 !! 0%nat = Some w' ∧
    wType w = "slider" ∧ wType w' = "number" ∧ wType w' ≠ wType w.
Proof. eexists _, _. by vm_compute. Qed.

(** C4. A toggle of an existing widget keeps the width of the node.
    The new height is the height that [node.computeSize()] returns for
    the widgets as the toggle left them, except that a toggle that
    shows (or runs with hiding off) takes the larger of that and the
    height before the call; so showing never makes the node shorter. *)
Theorem C4_node_size_after_toggle (g : Globals) (node : Node) (i : nat)
    (w : Widget) (shouldShow : bool) :
  nWidgets node !! i = Some w →
  let s' := toggleWidget node (Some i) shouldShow g in
  let natural := (nComputeSize node (nWidgets s'.2) (nInputs node)).2 in
  (nSize s'.2).1 = (nSize node).1 ∧
  (nSize s'.2).2 =
    (if shouldShow || negb (ENABLE_WIDGET_HIDING g)
     then Z.max natural (nSize node).2 else natural) ∧
  (shouldShow = true → (nSize node).2 ≤ (nSize s'.2).2).
Proof.
  intros Hw s'. subst s'. rewrite (toggleWidget_Some _ _ _ _ _ Hw). simpl.
  split_and!; [done..|]. intros ->. simpl. lia.
Qed.

Lemma C4_node_size_after_toggle_witness :
  let node := clownSampler "gaussian" None None in
  let s' := toggleWidget node (Some 1%nat) true hidingOn in
  let natural := (nComputeSize node (nWidgets s'.2) (nInputs node)).2 in
  (nSize s'.2).1 = (nSize node).1 ∧
  (nSize s'.2).2 =
    (if true || negb (ENABLE_WIDGET_HIDING hidingOn)
     then Z.max natural (nSize node).2 else natural) ∧
  (true = true → (nSize node).2 ≤ (nSize s'.2).2).
Proof.
  apply (C4_node_size_after_toggle hidingOn (clownSampler "gaussian" None None) 1
           (sampleWidget "alpha" (VNum 1) "number") true).
  reflexivity.
Defined.

(** C5. Calling [toggleWidget] a second time with the same widget and
    the same decision leaves the node with the size it had after the
    first call; indeed the whole node is the same. *)
Theorem C5_toggle_twice_same_size (g : Globals) (node : Node)
    (widget : option nat) (shouldShow : bool) :
  let s1 := toggleWidget node widget shouldShow g in
  let s2 := toggleWidget s1.2 widget shouldShow s1.1 in
  nSize s2.2 = nSize s1.2 ∧ s2.2 = s1.2.
Proof.
  intros s1 s2.
  assert (s2.2 = s1.2) as Heq; [|by rewrite Heq].
  subst s1 s2. destruct widget as [i|]; [|done].
  destruct (nWidgets node !! i) as [w|] eqn:Hw.
  - rewrite (toggleWidget_Some _ _ _ _ _ Hw). cbn [fst snd].
    set (p := (captureOrig (origProps g) w).2).
    set (visible := shouldShow || negb (ENABLE_WIDGET_HIDING g)).
    set (w1 := toggled p shouldShow visible w).
    assert (i < length (nWidgets node))%nat as Hlt by by eapply lookup_lt_Some.
    rewrite (toggleWidget_Some _ i w1)
      by (simpl; by apply list_lookup_insert_eq).
    simpl. rewrite (captureOrig_again _ w w1) by done. simpl. fold p visible.
    rewrite list_insert_insert_eq.
    replace (toggled p shouldShow visible w1) with w1 by done.
    unfold setSize, set_widgets. simpl. f_equal. f_equal.
    destruct visible; [lia|done].
  - unfold toggleWidget. rewrite Hw. simpl. by rewrite Hw.
Qed.

(** C6, as amended. Hiding an existing widget and then showing it
    leaves it with the type and [computeSize] stored in [origProps]
    under its name. When the store had no entry under that name before
    the hide (the hide is then the first toggle of that name and
    captures the widget's own values before it overwrites them), or
    had an entry equal to the widget's own values, these are the type
    and [computeSize] the widget had before the hide. *)
Theorem C6_hide_then_show (g : Globals) (node : Node) (i : nat) (w : Widget) :
  nWidgets node !! i = Some w →
  let s1 := toggleWidget node (Some i) false g in
  let s2 := toggleWidget s1.2 (Some i) true s1.1 in
  ∃ w2 p,
    nWidgets s2.2 !! i = Some w2 ∧
    origProps s2.1 !! wName w = Some p ∧
    p = default (ownProps w) (origProps g !! wName w) ∧
    wType w2 = origType p ∧ wComputeSize w2 = origComputeSize p ∧
    (default (ownProps w) (origProps g !! wName w) = ownProps w →
     wType w2 = wType w ∧ wComputeSize w2 = wComputeSize w).
Proof.
  intros Hw s1 s2. subst s1 s2.
  rewrite (toggleWidget_Some _ _ _ _ _ Hw). cbn [fst snd].
  set (p := (captureOrig (origProps g) w).2).
  set (w1 := toggled p false _ w).
  assert (i < length (nWidgets node))%nat as Hlt by by eapply lookup_lt_Some.
  rewrite (toggleWidget_Some _ i w1) by (simpl; by apply list_lookup_insert_eq).
  simpl. rewrite (captureOrig_again _ w w1) by done. simpl. fold p.
  assert (p = default (ownProps w) (origProps g !! wName w)) as Hp
    by apply captureOrig_entry.
  eexists _, p. split_and!.
  - apply list_lookup_insert_eq. by rewrite length_insert.
  - apply captureOrig_lookup.
  - done.
  - done.
  - done.
  - intros Hown. simpl. rewrite Hp, Hown. done.
Qed.

Lemma C6_hide_then_show_witness :
  let s1 := toggleWidget sharkNode (Some 0%nat) false hidingOn in
  let s2 := toggleWidget s1.2 (Some 0%nat) true s1.1 in
  ∃ w2 p,
    nWidgets s2.2 !! 0%nat = Some w2 ∧
    origProps s2.1 !! "alpha" = Some p ∧
    p = default (ownProps (sampleWidget "alpha" (VNum 1) "slider"))
          (origProps hidingOn !! "alpha") ∧
    wType w2 = origType p ∧ wComputeSize w2 = origComputeSize p ∧
    (default (ownProps (sampleWidget "alpha" (VNum 1) "slider"))
       (origProps hidingOn !! "alpha") =
     ownProps (sampleWidget "alpha" (VNum 1) "slider") →
     wType w2 = "slider" ∧ wComputeSize w2 = None).
Proof.
  apply (C6_hide_then_show hidingOn sharkNode 0
           (sampleWidget "alpha" (VNum 1) "slider")).
  reflexivity.
Defined.

(** C6 as it was stated fails: with hiding on, after the [alpha] of
    one node has been toggled, hiding the [alpha] of another node and
    showing it again leaves it with the first widget's type. *)
Lemma C6_round_trip_counterexample :
  let g := (toggleWidget noiseNode (Some 0%nat) true hidingOn).1 in
  let s1 := toggleWidget sharkNode (Some 0%nat) false g in
  let s2 := toggleWidget s1.2 (Some 0%nat) true s1.1 in
  ∃ w w1 w2,
    nWidgets sharkNode !! 0%nat = Some w ∧
    nWidgets s1.2 !! 0%nat = Some w1 ∧
    nWidgets s2.2 !! 0%nat = Some w2 ∧
    wType w = "slider" ∧ wType w1 = HIDDEN_TAG ∧ wType w2 = "number" ∧
    wType w2 ≠ wType w.
Proof. eexists _, _, _. by vm_compute. Qed.

(** ** The connection rules *)

Lemma forEach_ext {A S} (f f' : A → S → S) l s :
  (∀ a s, f a s = f' a s) → forEach f l s = forEach f' l s.
Proof.
  intros H. revert s. induction l as [|a l IH]; intros s; [done|].
  by rewrite !forEach_cons, H, IH.
Qed.

Lemma applyOptionalGroup_toggleAll group s :
  applyOptionalGroup group s =
  forEach (toggleNamed (isAnyConnected (nInputs s.2) group)) (widgets group) s.
Proof.
  unfold applyOptionalGroup. apply forEach_ext. intros name [g node].
  unfold toggleNamed. simpl. by destruct (findWidget (nWidgets node) name).
Qed.

Lemma applyOptionalGroup_stable group s : stable s (applyOptionalGroup group s).
Proof. rewrite applyOptionalGroup_toggleAll. apply toggleAll_stable. Qed.

Lemma applyOptionalGroup_other group s j w :
  nWidgets s.2 !! j = Some w → wName w ∉ widgets group →
  nWidgets (applyOptionalGroup group s).2 !! j = Some w.
Proof. rewrite applyOptionalGroup_toggleAll. apply toggleAll_other. Qed.

Lemma applyOptionalGroup_target group s t i :
  t ∈ widgets group → findWidget (nWidgets s.2) t = Some i →
  toggledAt s (applyOptionalGroup group s) i t (isAnyConnected (nInputs s.2) group).
Proof. rewrite applyOptionalGroup_toggleAll. apply toggleAll_target. Qed.

Lemma isAnyConnected_anyConnected ins group :
  isAnyConnected ins group = true ↔ anyConnected ins group.
Proof.
  unfold isAnyConnected, anyConnected, findInput. rewrite existsb_exists. split.
  - intros (name & Hin & H). apply list_elem_of_In in Hin.
    destruct (list_find (λ i, iName i = name) ins) as [[k input]|] eqn:E;
      [|discriminate H].
    cbn [fmap option_fmap option_map snd] in H. apply bool_decide_eq_true in H.
    apply list_find_Some in E as (Hk & Hname & Hfirst).
    exists k, input. split_and!; [exact Hk|by rewrite Hname|exact H|].
    intros k' input' Hk' Hn'. destruct (decide (k ≤ k')%nat) as [Hle|Hgt]; [exact Hle|].
    exfalso. apply (Hfirst k' input' Hk'); [lia|congruence].
  - intros (k & input & Hk & Hin & Hl & Hfirst). exists (iName input).
    split; [by apply list_elem_of_In|].
    assert (list_find (λ i, iName i = iName input) ins = Some (k, input)) as ->.
    { apply list_find_Some. split_and!; [exact Hk|reflexivity|].
      intros j y Hj Hlt Hy. specialize (Hfirst j y Hj Hy). lia. }
    cbn [fmap option_fmap option_map snd]. by apply bool_decide_eq_true.
Qed.

Lemma connectionStep_stable inputName group s :
  stable s (connectionStep inputName group s).
Proof.
  unfold connectionStep. case_bool_decide;
    [apply applyOptionalGroup_stable|apply stable_refl].
Qed.

Lemma connectionStep_other inputName group s j w :
  nWidgets s.2 !! j = Some w → wName w ∉ connectionTargets inputName group →
  nWidgets (connectionStep inputName group s).2 !! j = Some w.
Proof.
  unfold connectionStep, connectionTargets. case_bool_decide; [|done].
  apply applyOptionalGroup_other.
Qed.

Lemma connectionStep_target inputName group s t i :
  t ∈ connectionTargets inputName group → findWidget (nWidgets s.2) t = Some i →
  toggledAt s (connectionStep inputName group s) i t
    (isAnyConnected (nInputs s.2) group).
Proof.
  unfold connectionStep, connectionTargets. case_bool_decide.
  - apply applyOptionalGroup_target.
  - by intros ?%elem_of_nil.
Qed.

Lemma handleConnectionChange_stable index s :
  stable s (handleConnectionChange index s).
Proof.
  unfold handleConnectionChange. rewrite configOf_optional.
  destruct (_ ≫= optionalInputWidgets); [|apply stable_refl].
  destruct (nInputs s.2 !! index); [|apply stable_refl].
  case_bool_decide; [apply stable_refl|].
  eapply (stable_trans _ (emit _ s.1, s.2)); [by split|].
  apply (rules_stable (connectionStep _)), connectionStep_stable.
Qed.

(** Of the groups that name the changed input, the last one that names
    a widget decides how it is left. *)
Lemma handleConnectionChange_last pre group post index input s t i :
  nodeConfigs !! comfyClass s.2 ≫= optionalInputWidgets = Some (pre ++ group :: post) →
  nInputs s.2 !! index = Some input → iName input ≠ "" →
  iName input ∈ inputs group → t ∈ widgets group →
  (∀ gr', gr' ∈ post → iName input ∈ inputs gr' → t ∉ widgets gr') →
  findWidget (nWidgets s.2) t = Some i →
  toggledAt s (handleConnectionChange index s) i t
    (isAnyConnected (nInputs s.2) group).
Proof.
  intros Hcfg Hinput Hne Hin Ht Hpost Hf. unfold handleConnectionChange. rewrite configOf_optional.
  rewrite Hcfg, Hinput. rewrite bool_decide_eq_false_2 by done.
  eapply (toggledAt_pre _ (emit _ s.1, s.2)); [by split|].
  refine (rules_last (connectionStep (iName input))
            (connectionTargets (iName input))
            (λ gr s, isAnyConnected (nInputs s.2) gr)
            (connectionStep_stable _) (connectionStep_other _)
            (connectionStep_target _) _
            pre group post (_, _) t i _ _ Hf).
  - intros gr s1 s2 Hst. by rewrite (st_inputs _ _ Hst).
  - unfold connectionTargets. by rewrite bool_decide_eq_true_2.
  - intros gr' Hgr'. unfold connectionTargets. case_bool_decide.
    + by apply Hpost.
    + apply not_elem_of_nil.
Qed.

Lemma optional_groups_cases cls config groups group :
  nodeConfigs !! cls = Some config →
  optionalInputWidgets config = Some groups → group ∈ groups →
  (groups = [guideGroup] ∧ group = guideGroup) ∨
  (groups = [guideGroup; maskGroup] ∧ group = guideGroup) ∨
  (groups = [guideGroup; maskGroup] ∧ group = maskGroup).
Proof.
  intros Hcfg Hopt Hgroup.
  destruct (nodeConfigs_entries _ _ Hcfg) as [_ Hcases]. clear Hcfg.
  rewrite Hopt in Hcases. clear Hopt.
  destruct Hcases as [Hc|[Hc|Hc]]; [done| |]; injection Hc as ->.
  - apply list_elem_of_singleton in Hgroup. auto.
  - apply elem_of_cons in Hgroup as [->|Hgroup]; [auto|].
    apply list_elem_of_singleton in Hgroup. auto.
Qed.

Lemma guideGroup_input name :
  name ∈ inputs guideGroup → name = "latent_guide" ∨ name = "latent_guide_inv".
Proof.
  intros [->|H]%elem_of_cons; [auto|].
  apply list_elem_of_singleton in H. auto.
Qed.

Lemma guideGroup_widget name :
  name ∈ widgets guideGroup → name = "latent_guide_weight" ∨ name = "guide_mode".
Proof.
  intros [->|H]%elem_of_cons; [auto|].
  apply list_elem_of_singleton in H. auto.
Qed.

(** C2. On a node of a configured type, when the input at [index] is
    named in a connection group, [handleConnectionChange] leaves every
    existing widget of that group's [widgets] with the decision
    [show], which holds exactly when some input of the node that is
    named anywhere in the group's [inputs] has a link that is not
    null (the first input of its name, should a name occur twice),
    whichever input it was that changed. The condition is stated over
    the inputs of the node as they stand, not through the code's
    lookup. *)
Theorem C2_connection_rule_decides (g : Globals) (node : Node)
    (config : NodeConfig) (groups : list OptionalGroup) (group : OptionalGroup)
    (index : nat) (input : Input) (t : string) (i : nat) :
  nodeConfigs !! comfyClass node = Some config →
  optionalInputWidgets config = Some groups →
  group ∈ groups →
  nInputs node !! index = Some input →
  iName input ∈ inputs group →
  t ∈ widgets group →
  findWidget (nWidgets node) t = Some i →
  let s' := handleConnectionChange index (g, node) in
  ∃ w' p show,
    (show = true ↔ anyConnected (nInputs node) group) ∧
    nWidgets s'.2 !! i = Some w' ∧ origProps s'.1 !! t = Some p ∧
    wHidden w' = Some (negb show) ∧
    (if show || negb (ENABLE_WIDGET_HIDING g)
     then shownAs p w' else hiddenAs w').
Proof.
  intros Hcfg Hopt Hgroup Hinput Hin Ht Hf s'.
  assert (nodeConfigs !! comfyClass node ≫= optionalInputWidgets = Some groups)
    as Hgroups by (rewrite Hcfg; exact Hopt).
  pose proof (optional_groups_cases _ _ _ _ Hcfg Hopt Hgroup) as Hcases.
  clear Hcfg Hopt Hgroup.
  assert (iName input ≠ "") as Hne.
  { intros Hempty. rewrite Hempty in Hin. clear -Hin Hcases.
    destruct Hcases as [[_ ->]|[[_ ->]|[_ ->]]].
    - by apply guideGroup_input in Hin as [|].
    - by apply guideGroup_input in Hin as [|].
    - by apply list_elem_of_singleton in Hin. }
  assert (toggledAt (g, node) s' i t (isAnyConnected (nInputs node) group))
    as (w & p & Hw & Hp & Hw').
  { subst s'. destruct Hcases as [[-> ->]|[[-> ->]|[-> ->]]].
    - apply (handleConnectionChange_last [] guideGroup [] index input (g, node)
               t i Hgroups Hinput Hne Hin Ht); [|exact Hf].
      intros gr' []%elem_of_nil.
    - apply (handleConnectionChange_last [] guideGroup [maskGroup] index input
               (g, node) t i Hgroups Hinput Hne Hin Ht); [|exact Hf].
      clear Hgroups.
      intros gr' ->%list_elem_of_singleton _ Hm%list_elem_of_singleton.
      simpl in Hm. subst t. by apply guideGroup_widget in Ht as [|].
    - apply (handleConnectionChange_last [guideGroup] maskGroup [] index input
               (g, node) t i Hgroups Hinput Hne Hin Ht); [|exact Hf].
      intros gr' []%elem_of_nil. }
  eexists _, p, (isAnyConnected (nInputs node) group).
  split; [apply isAnyConnected_anyConnected|].
  split; [exact Hw'|]. split; [exact Hp|]. apply toggled_cases.
Qed.

Lemma C2_connection_rule_decides_witness :
  let node := clownSampler "gaussian" None (Some 3) in
  let s' := handleConnectionChange 1 (hidingOn, node) in
  anyConnected (nInputs node) guideGroup ∧
  ∃ w' p,
    nWidgets s'.2 !! 3%nat = Some w' ∧
    origProps s'.1 !! "latent_guide_weight" = Some p ∧
    wHidden w' = Some false ∧ shownAs p w'.
Proof.
  intros node s'.
  assert (anyConnected (nInputs node) guideGroup) as Hany.
  { exists 1%nat, {| iName := "latent_guide_inv"; iLink := Some 3 |}.
    split_and!; [reflexivity|by right; left|discriminate|].
    intros [|k'] input' Hk' Hname; [|lia].
    injection Hk' as <-. discriminate Hname. }
  split; [exact Hany|].
  destruct (C2_connection_rule_decides hidingOn node
              (createNodeConfig "ClownSampler" (withOptional [guideGroup; maskGroup]))
              [guideGroup; maskGroup] guideGroup 1
              {| iName := "latent_guide_inv"; iLink := Some 3 |}
              "latent_guide_weight" 3%nat)
    as (w' & p & show & Hshow & Hw' & Hp & Hflag & Hcase).
  - vm_compute; reflexivity.
  - vm_compute; reflexivity.
  - by left.
  - reflexivity.
  - by right; left.
  - by left.
  - vm_compute; reflexivity.
  - apply Hshow in Hany. subst show. exists w', p.
    split_and!; [exact Hw'|exact Hp|exact Hflag|exact Hcase].
Defined.

(** ** The loops over the nodes of the graph *)

Lemma grown_refl g : grown g g.
Proof. by split. Qed.

Lemma grown_trans g1 g2 g3 : grown g1 g2 → grown g2 g3 → grown g1 g3.
Proof. intros [] []; split; try congruence. by etrans. Qed.

Lemma stable_grown s s' : stable s s' → grown s.1 s'.1.
Proof. intros []; by split. Qed.

(** Every node is handed to the loop body with globals that earlier
    iterations have only grown, and later iterations only grow them
    further. *)
Lemma forNodes_lookup (f : St → St) :
  (∀ s, stable s (f s)) →
  ∀ nodes g,
    grown g (forNodes f nodes g).1 ∧
    ∀ k node, nodes !! k = Some node →
      ∃ gk, grown g gk ∧
            (forNodes f nodes g).2 !! k = Some (f (gk, node)).2 ∧
            grown (f (gk, node)).1 (forNodes f nodes g).1.
Proof.
  intros Hf. induction nodes as [|n nodes IH]; intros g.
  - split; [apply grown_refl|]. intros k node Hk. by rewrite lookup_nil in Hk.
  - simpl. destruct (IH (f (g, n)).1) as [Hg Hk].
    pose proof (stable_grown _ _ (Hf (g, n))) as Hn. simpl in Hn.
    split; [by eapply grown_trans|].
    intros [|k] node Hnode; simpl in *.
    + injection Hnode as ->. exists g. split; [apply grown_refl|]. done.
    + destruct (Hk k node Hnode) as (gk & Hgk & Hres & Hfin).
      exists gk. split; [by eapply grown_trans|]. done.
Qed.

Lemma toggled_at_result s s' i name show g' :
  toggledAt s s' i name show → grown s'.1 g' →
  ∃ w' p,
    nWidgets s'.2 !! i = Some w' ∧ origProps g' !! name = Some p ∧
    wHidden w' = Some (negb show) ∧
    (if show || negb (ENABLE_WIDGET_HIDING s.1)
     then shownAs p w' else hiddenAs w').
Proof.
  intros (w & p & Hw & Hp & Hw') Hg. eexists _, p.
  split; [exact Hw'|]. split; [|apply toggled_cases].
  eapply lookup_weaken; [exact Hp|apply Hg].
Qed.

(** ** Overrides and defaults *)

Lemma applyNewDefault_stable widgetName value s :
  stable s (applyNewDefault widgetName value s).
Proof.
  unfold applyNewDefault. destruct (configOf _); [|apply stable_refl].
  destruct (findWidget _ _); [|apply stable_refl].
  destruct (widgetToggleStates _ !! _); [apply stable_refl|].
  destruct s. apply toggleWidget_stable.
Qed.

(** C7. When the setting of a toggleable widget changes, the new
    default is stored. A configured node that has the widget and an
    entry in [widgetToggleStates] under its key is passed over: the
    loop body returns its state as it was, so no toggle is called, and
    the node comes out of the loop unchanged. A configured node that
    has the widget and no such entry has the widget toggled with the
    new default: the widget records hidden = [value] and is hidden or
    shown accordingly. *)
Theorem C7_override_beats_default (widgetName : string) (value : bool)
    (g : Globals) (nodes : list Node) (k : nat) (node : Node) (i : nat) :
  nodes !! k = Some node →
  is_Some (nodeConfigs !! comfyClass node) →
  findWidget (nWidgets node) widgetName = Some i →
  let r := onChangeDefault widgetName value g nodes in
  DEFAULT_WIDGET_STATES r.1 !! widgetName = Some value ∧
  (is_Some (widgetToggleStates g !! stateKey node widgetName) →
   r.2 !! k = Some node ∧
   ∀ g', widgetToggleStates g' = widgetToggleStates g →
         applyNewDefault widgetName value (g', node) = (g', node)) ∧
  (widgetToggleStates g !! stateKey node widgetName = None →
   ∃ node' w' p,
     r.2 !! k = Some node' ∧ nWidgets node' !! i = Some w' ∧
     origProps r.1 !! widgetName = Some p ∧
     wHidden w' = Some value ∧
     (if negb value || negb (ENABLE_WIDGET_HIDING g)
      then shownAs p w' else hiddenAs w')).
Proof.
  intros Hk [config Hcfg] Hf r. apply configOf_own in Hcfg.
  subst r. unfold onChangeDefault.
  set (g0 := set_defaults _ g).
  destruct (forNodes_lookup (applyNewDefault widgetName value)
              (applyNewDefault_stable widgetName value) nodes g0) as [Hg Hnodes].
  destruct (Hnodes k node Hk) as (gk & Hgk & Hres & Hfin). clear Hnodes.
  assert (∀ g', widgetToggleStates g' = widgetToggleStates g →
                is_Some (widgetToggleStates g !! stateKey node widgetName) →
                applyNewDefault widgetName value (g', node) = (g', node)) as Hskip.
  { intros g' Hg' [b Hb]. unfold applyNewDefault. simpl.
    rewrite Hcfg, Hf, Hg', Hb. done. }
  split_and!.
  - rewrite (gr_defaults _ _ Hg). apply lookup_insert_eq.
  - intros Hsome. split; [|by auto].
    rewrite Hres, Hskip; [done| |done]. by rewrite (gr_states _ _ Hgk).
  - intros Hnone.
    assert (applyNewDefault widgetName value (gk, node) =
            toggleNamed (negb value) widgetName (gk, node)) as Hbody.
    { unfold applyNewDefault, toggleNamed. simpl.
      rewrite Hcfg, Hf, (gr_states _ _ Hgk). simpl. by rewrite Hnone. }
    rewrite Hbody in Hres, Hfin.
    pose proof (toggleNamed_target (negb value) widgetName (gk, node) i Hf) as Ht.
    destruct (toggled_at_result _ _ _ _ _ _ Ht Hfin) as (w' & p & Hw' & Hp & Hh & Hcase).
    exists (toggleNamed (negb value) widgetName (gk, node)).2, w', p.
    split_and!; try done.
    + by rewrite Hh, negb_involutive.
    + simpl in Hcase. by rewrite (gr_hiding _ _ Hgk) in Hcase.
Qed.

Lemma C7_override_beats_default_witness :
  let node := clownSampler "gaussian" None None in
  let r := onChangeDefault "extra_options" true withOverride [node] in
  DEFAULT_WIDGET_STATES r.1 !! "extra_options" = Some true ∧
  (is_Some (widgetToggleStates withOverride !! stateKey node "extra_options") →
   r.2 !! 0%nat = Some node ∧
   ∀ g', widgetToggleStates g' = widgetToggleStates withOverride →
         applyNewDefault "extra_options" true (g', node) = (g', node)) ∧
  (widgetToggleStates withOverride !! stateKey node "extra_options" = None →
   ∃ node' w' p,
     r.2 !! 0%nat = Some node' ∧ nWidgets node' !! 5%nat = Some w' ∧
     origProps r.1 !! "extra_options" = Some p ∧
     wHidden w' = Some true ∧
     (if negb true || negb (ENABLE_WIDGET_HIDING withOverride)
      then shownAs p w' else hiddenAs w')).
Proof.
  intros node.
  apply (C7_override_beats_default "extra_options" true withOverride [node] 0 node 5).
  - reflexivity.
  - vm_compute. eexists. reflexivity.
  - vm_compute; reflexivity.
Defined.

(** ** Re-applying the recorded decisions *)

Lemma reapply_stable j s : stable s (reapply j s).
Proof.
  unfold reapply. destruct (nWidgets s.2 !! j) as [w|]; [|apply stable_refl].
  destruct (wHidden w); [|apply stable_refl].
  destruct s. apply toggleWidget_stable.
Qed.

Lemma reapply_other j s i :
  i ≠ j → nWidgets (reapply j s).2 !! i = nWidgets s.2 !! i.
Proof.
  intros Hne. unfold reapply.
  destruct (nWidgets s.2 !! j) as [w|] eqn:Hj; [|done].
  destruct (wHidden w); [|done].
  rewrite (toggleWidget_Some _ _ _ _ _ Hj). simpl.
  by apply list_lookup_insert_ne.
Qed.

Lemma reapply_at i s w hidden :
  nWidgets s.2 !! i = Some w → wHidden w = Some hidden →
  toggledAt s (reapply i s) i (wName w) (negb hidden).
Proof.
  intros Hw Hh. unfold reapply. rewrite Hw, Hh.
  rewrite (toggleWidget_Some _ _ _ _ _ Hw).
  exists w, (captureOrig (origProps s.1) w).2. simpl. split_and!; [done| |].
  - apply captureOrig_lookup.
  - apply list_lookup_insert_eq. by eapply lookup_lt_Some.
Qed.

Lemma reapply_all_stable l s : stable s (forEach reapply l s).
Proof.
  apply (forEach_rel stable); auto using stable_refl, reapply_stable.
  apply stable_trans.
Qed.

Lemma reapply_all_other l : ∀ s i,
  i ∉ l → nWidgets (forEach reapply l s).2 !! i = nWidgets s.2 !! i.
Proof.
  induction l as [|j l IH]; intros s i Hnot; [done|].
  apply not_elem_of_cons in Hnot as [Hne Hnot].
  rewrite forEach_cons, IH by done. by apply reapply_other.
Qed.

(** A pass over distinct positions toggles each flagged widget with
    the decision its own flag records. *)
Lemma reapply_all_at l : ∀ s i w hidden,
  NoDup l → i ∈ l →
  nWidgets s.2 !! i = Some w → wHidden w = Some hidden →
  toggledAt s (forEach reapply l s) i (wName w) (negb hidden).
Proof.
  induction l as [|j l IH]; intros s i w hidden Hnd Hin Hw Hh;
    [by apply elem_of_nil in Hin|].
  apply NoDup_cons in Hnd as [Hj Hnd]. rewrite forEach_cons.
  destruct (decide (i = j)) as [->|Hne].
  - eapply toggledAt_post;
      [by apply reapply_at|apply reapply_all_stable|by apply reapply_all_other].
  - apply elem_of_cons in Hin as [?|Hin]; [done|].
    eapply toggledAt_pre; [apply reapply_stable|].
    apply IH; try done. by rewrite reapply_other.
Qed.

Lemma reapplyNode_stable s : stable s (reapplyNode s).
Proof.
  unfold reapplyNode. destruct (configOf _); [|apply stable_refl].
  apply reapply_all_stable.
Qed.

(** C9. A toggle of an existing widget records the decision in the
    widget's flag as the negation of [shouldShow], whatever the hiding
    switch says, and with the switch off the widget is left shown.
    When the switch is changed, every widget that carries a flag on a
    node of a configured type is toggled again with the decision its
    flag records: it keeps the flag, and with the switch now on it is
    hidden exactly when the flag says hidden. *)
Theorem C9_decision_recorded_and_reapplied
    (g : Globals) (node : Node) (i : nat) (w : Widget) (shouldShow : bool)
    (value : bool) (g2 : Globals) (nodes : list Node) (k : nat) (node2 : Node)
    (j : nat) (w2 : Widget) (hidden : bool) :
  nWidgets node !! i = Some w →
  nodes !! k = Some node2 →
  is_Some (nodeConfigs !! comfyClass node2) →
  nWidgets node2 !! j = Some w2 →
  wHidden w2 = Some hidden →
  let s1 := toggleWidget node (Some i) shouldShow g in
  let r := onChangeHiding value g2 nodes in
  (∃ w1 p,
     nWidgets s1.2 !! i = Some w1 ∧ origProps s1.1 !! wName w = Some p ∧
     wHidden w1 = Some (negb shouldShow) ∧
     (ENABLE_WIDGET_HIDING g = false → shownAs p w1)) ∧
  ENABLE_WIDGET_HIDING r.1 = value ∧
  (∃ node' w' p,
     r.2 !! k = Some node' ∧ nWidgets node' !! j = Some w' ∧
     origProps r.1 !! wName w2 = Some p ∧
     wHidden w' = Some hidden ∧
     (if negb hidden || negb value then shownAs p w' else hiddenAs w')).
Proof.
  intros Hw Hk [config Hcfg] Hw2 Hh s1 r. apply configOf_own in Hcfg.
  split_and!.
  - subst s1. rewrite (toggleWidget_Some _ _ _ _ _ Hw). simpl.
    eexists _, _. split_and!.
    + apply list_lookup_insert_eq. by eapply lookup_lt_Some.
    + apply captureOrig_lookup.
    + done.
    + intros Hoff. rewrite Hoff, orb_true_r. done.
  - subst r. unfold onChangeHiding.
    destruct (forNodes_lookup reapplyNode reapplyNode_stable nodes
                (set_hiding value g2)) as [Hg _].
    by rewrite (gr_hiding _ _ Hg).
  - subst r. unfold onChangeHiding.
    destruct (forNodes_lookup reapplyNode reapplyNode_stable nodes
                (set_hiding value g2)) as [_ Hnodes].
    destruct (Hnodes k node2 Hk) as (gk & Hgk & Hres & Hfin). clear Hnodes.
    assert (toggledAt (gk, node2) (reapplyNode (gk, node2)) j (wName w2)
              (negb hidden)) as Ht.
    { unfold reapplyNode. simpl. rewrite Hcfg.
      apply reapply_all_at; try done.
      - apply NoDup_seq.
      - apply elem_of_seq. apply lookup_lt_Some in Hw2. lia. }
    destruct (toggled_at_result _ _ _ _ _ _ Ht Hfin)
      as (w' & p & Hw' & Hp & Hflag & Hcase).
    exists (reapplyNode (gk, node2)).2, w', p. split_and!; try done.
    + by rewrite Hflag, negb_involutive.
    + simpl in Hcase. by rewrite (gr_hiding _ _ Hgk) in Hcase.
Qed.

Lemma C9_decision_recorded_and_reapplied_witness :
  let node := clownSampler "gaussian" None None in
  let alpha := sampleWidget "alpha" (VNum 1) "number" in
  let s1 := toggleWidget node (Some 1%nat) false (setup loaded) in
  let r := onChangeHiding true s1.1 [s1.2] in
  (∃ w1 p,
     nWidgets s1.2 !! 1%nat = Some w1 ∧ origProps s1.1 !! "alpha" = Some p ∧
     wHidden w1 = Some (negb false) ∧
     (ENABLE_WIDGET_HIDING (setup loaded) = false → shownAs p w1)) ∧
  ENABLE_WIDGET_HIDING r.1 = true ∧
  (∃ node' w' p,
     r.2 !! 0%nat = Some node' ∧ nWidgets node' !! 1%nat = Some w' ∧
     origProps r.1 !! "alpha" = Some p ∧
     wHidden w' = Some true ∧
     (if negb true || negb true then shownAs p w' else hiddenAs w')).
Proof.
  intros node alpha s1.
  apply (C9_decision_recorded_and_reapplied (setup loaded) node 1 alpha false
           true s1.1 [s1.2] 0 s1.2 1 (toggled (ownProps alpha) false true alpha) true).
  - reflexivity.
  - reflexivity.
  - vm_compute. eexists. reflexivity.
  - vm_compute; reflexivity.
  - reflexivity.
Defined.

(** ** The store of originals only grows *)

Lemma stable_Keeps f : (∀ s, stable s (f s)) → Keeps f.
Proof. intros H s. apply H. Qed.

Lemma Keeps_compose f f' : Keeps f → Keeps f' → Keeps (λ s, f' (f s)).
Proof. intros H H' s. etrans; [apply H|apply H']. Qed.

Lemma Keeps_forEach {A} (f : A → St → St) l :
  (∀ a, Keeps (f a)) → Keeps (forEach f l).
Proof.
  intros H s.
  apply (forEach_rel (λ s s' : St, origProps s.1 ⊆ origProps s'.1)).
  - done.
  - intros s1 s2 s3 ??. by etrans.
  - intros a s' _. apply H.
Qed.

Lemma applyDefault_stable widgetName s : stable s (applyDefault widgetName s).
Proof.
  unfold applyDefault. destruct (findWidget _ _); [|apply stable_refl].
  destruct (widgetToggleStates _ !! _); [apply stable_refl|].
  destruct s. apply toggleWidget_stable.
Qed.

Lemma setupDynamicWidgets_Keeps cfg : Keeps (setupDynamicWidgets cfg).
Proof.
  intros s. unfold setupDynamicWidgets.
  set (s1 := forEach applyDefault _ _).
  set (s2 := createGenericHandler cfg s1).
  set (node := if menuWrapped _ then _ else _).
  assert (origProps s.1 ⊆ origProps s2.1) as H2.
  { etrans; [|apply createGenericHandler_stable].
    subst s1. etrans; [|apply (Keeps_forEach applyDefault)].
    - done.
    - intros a. apply stable_Keeps, applyDefault_stable. }
  destruct (_ ≫= optionalInputWidgets); [|done].
  etrans; [exact H2|].
  apply (Keeps_forEach applyOptionalGroup _
           (λ a, stable_Keeps _ (applyOptionalGroup_stable a)) (s2.1, node)).
Qed.

Lemma nodeCreated_Keeps : Keeps nodeCreated.
Proof.
  intros s. unfold nodeCreated. destruct (configOf _); [|done]. simpl.
  etrans; [apply setupDynamicWidgets_Keeps|apply createGenericHandler_stable].
Qed.

Lemma run_onConfigure_Keeps h : Keeps (run_onConfigure h).
Proof.
  induction h as [|tag|orig IH cfg]; intros s; simpl; [done..|].
  etrans; [apply IH|apply setupDynamicWidgets_Keeps].
Qed.

Lemma run_onConnectionsChange_Keeps h index :
  Keeps (run_onConnectionsChange h index).
Proof.
  induction h as [|tag|orig IH cfg]; intros s; simpl; [done..|].
  etrans; [apply IH|].
  etrans; [apply handleConnectionChange_stable|apply createGenericHandler_stable].
Qed.

Lemma run_onAfterGraphConfigured_Keeps h : Keeps (run_onAfterGraphConfigured h).
Proof.
  destruct h; intros s; simpl; [done..|].
  destruct (nGraph s.2); [apply createGenericHandler_stable|done].
Qed.

Lemma run_callback_Keeps i : Keeps (run_callback i).
Proof.
  intros s. unfold run_callback.
  destruct (_ ≫= wCallback) as [[]|]; [done| |done].
  apply createGenericHandler_stable.
Qed.

Lemma run_getExtraMenuOptions_origProps h options s :
  origProps (run_getExtraMenuOptions h options s).1.1 = origProps s.1.
Proof.
  revert options s. induction h as [|tag|orig IH cfg]; intros options s;
    simpl; [done..|].
  specialize (IH options s). by destruct (run_getExtraMenuOptions orig options s).
Qed.

Lemma run_menuCallback_Keeps cb : Keeps (run_menuCallback cb).
Proof.
  intros s. destruct cb; simpl; [apply createGenericHandler_stable|].
  apply (toggleWidget_stable s.2 (Some widget) _ (set_toggleStates _ s.1)).
Qed.

Lemma run_menuChoice_Keeps n : Keeps (run_menuChoice n).
Proof.
  intros s. unfold run_menuChoice.
  pose proof (run_getExtraMenuOptions_origProps (getExtraMenuOptions s.2) [] s) as H.
  destruct (run_getExtraMenuOptions _ _ _) as [s' options]. simpl in H.
  rewrite <- H. destruct (options !! n); [|done]. apply run_menuCallback_Keeps.
Qed.

Lemma onNode_keeps k f world :
  Keeps f → origProps world.1 ⊆ origProps (onNode k f world).1.
Proof.
  intros H. unfold onNode. destruct (world.2 !! k) as [node|]; [|done].
  apply (H (world.1, node)).
Qed.

Lemma perform_keeps a world : origProps world.1 ⊆ origProps (perform a world).1.
Proof.
  destruct a; simpl.
  - apply onNode_keeps, nodeCreated_Keeps.
  - apply onNode_keeps. intros s. apply run_onConfigure_Keeps.
  - apply onNode_keeps. intros s. apply run_onAfterGraphConfigured_Keeps.
  - apply onNode_keeps. intros s. apply run_onConnectionsChange_Keeps.
  - apply onNode_keeps, run_callback_Keeps.
  - apply onNode_keeps, run_menuChoice_Keeps.
  - unfold onChangeDefault.
    destruct (forNodes_lookup _ (applyNewDefault_stable widgetName value)
                world.2 (set_defaults (<[widgetName := value]>
                                         (DEFAULT_WIDGET_STATES world.1)) world.1))
      as [Hg _].
    apply (gr_orig _ _ Hg).
  - unfold onChangeHiding.
    destruct (forNodes_lookup _ reapplyNode_stable world.2
                (set_hiding value world.1)) as [Hg _].
    apply (gr_orig _ _ Hg).
Qed.

Lemma run_keeps actions world : origProps world.1 ⊆ origProps (run actions world).1.
Proof.
  unfold run.
  apply (forEach_rel (λ w w' : World, origProps w.1 ⊆ origProps w'.1)).
  - done.
  - intros w1 w2 w3 ??. by etrans.
  - intros a w _. apply perform_keeps.
Qed.

(** C10. The store is keyed by the widget's name alone and is shared
    by all nodes. The toggle of a widget whose name has no entry
    writes the widget's type and [computeSize] under that name; no
    sequence of later events, on whatever nodes, changes or removes
    the entry; and any later toggle of a widget of that name, on any
    node, shows it with the values then captured. *)
Theorem C10_first_capture_is_kept
    (g : Globals) (node : Node) (i : nat) (w : Widget) (shouldShow : bool)
    (actions : list Action) (nodes : list Node)
    (node2 : Node) (j : nat) (w2 : Widget) (shouldShow2 : bool) :
  nWidgets node !! i = Some w →
  origProps g !! wName w = None →
  nWidgets node2 !! j = Some w2 →
  wName w2 = wName w →
  let s1 := toggleWidget node (Some i) shouldShow g in
  let world := run actions (s1.1, nodes) in
  let s2 := toggleWidget node2 (Some j) shouldShow2 world.1 in
  origProps s1.1 !! wName w = Some (ownProps w) ∧
  origProps world.1 !! wName w = Some (ownProps w) ∧
  origProps s2.1 !! wName w = Some (ownProps w) ∧
  ∃ w2',
    nWidgets s2.2 !! j = Some w2' ∧
    (if shouldShow2 || negb (ENABLE_WIDGET_HIDING world.1)
     then shownAs (ownProps w) w2' else hiddenAs w2').
Proof.
  intros Hw Hnone Hw2 Hname s1 world s2.
  assert (origProps s1.1 !! wName w = Some (ownProps w)) as H1.
  { subst s1. rewrite (toggleWidget_Some _ _ _ _ _ Hw). simpl.
    unfold captureOrig. rewrite Hnone. simpl. apply lookup_insert_eq. }
  assert (origProps world.1 !! wName w = Some (ownProps w)) as Hworld.
  { eapply lookup_weaken; [exact H1|]. apply (run_keeps actions (s1.1, nodes)). }
  subst s2. rewrite (toggleWidget_Some _ _ _ _ _ Hw2). simpl.
  assert (captureOrig (origProps world.1) w2 = (origProps world.1, ownProps w))
    as Hcap by (unfold captureOrig; by rewrite Hname, Hworld).
  rewrite Hcap. simpl. split_and!; try done.
  eexists. split.
  - apply list_lookup_insert_eq. by eapply lookup_lt_Some.
  - apply toggled_cases.
Qed.

Lemma C10_first_capture_is_kept_witness :
  let w := sampleWidget "alpha" (VNum 1) "number" in
  let s1 := toggleWidget noiseNode (Some 0%nat) true hidingOn in
  let world := run [HidingChanged false; NodeCreated 0; HidingChanged true]
                 (s1.1, [s1.2; sharkNode]) in
  let s2 := toggleWidget sharkNode (Some 0%nat) true world.1 in
  origProps s1.1 !! "alpha" = Some (ownProps w) ∧
  origProps world.1 !! "alpha" = Some (ownProps w) ∧
  origProps s2.1 !! "alpha" = Some (ownProps w) ∧
  ∃ w2',
    nWidgets s2.2 !! 0%nat = Some w2' ∧
    (if true || negb (ENABLE_WIDGET_HIDING world.1)
     then shownAs (ownProps w) w2' else hiddenAs w2').
Proof.
  intros w.
  apply (C10_first_capture_is_kept hidingOn noiseNode 0 w true
           [HidingChanged false; NodeCreated 0; HidingChanged true]
           [(toggleWidget noiseNode (Some 0%nat) true hidingOn).2; sharkNode]
           sharkNode 0 (sampleWidget "alpha" (VNum 1) "slider") true).
  - reflexivity.
  - vm_compute; reflexivity.
  - reflexivity.
  - reflexivity.
Defined.

(** ** Wrapping the hooks *)

Lemma setCallback_hook cfg name n :
  onConnectionsChange (setCallback cfg name n) = onConnectionsChange n ∧
  menuWrapped (setCallback cfg name n) = menuWrapped n ∧
  comfyClass (setCallback cfg name n) = comfyClass n.
Proof. unfold setCallback. by destruct (list_find _ _) as [[]|]. Qed.

Lemma setCallbacks_hook cfg (groups : list DependentGroup) n :
  let n' := forEach (λ group, forEach (setCallback cfg) (inputWidgetNames group))
              groups n in
  onConnectionsChange n' = onConnectionsChange n ∧
  menuWrapped n' = menuWrapped n ∧ comfyClass n' = comfyClass n.
Proof.
  apply (forEach_rel (λ n n' : Node,
           onConnectionsChange n' = onConnectionsChange n ∧
           menuWrapped n' = menuWrapped n ∧ comfyClass n' = comfyClass n)).
  - done.
  - intros n1 n2 n3 (?&?&?) (?&?&?). split_and!; congruence.
  - intros group n1 _.
    apply (forEach_rel (λ n n' : Node,
             onConnectionsChange n' = onConnectionsChange n ∧
             menuWrapped n' = menuWrapped n ∧ comfyClass n' = comfyClass n)).
    + done.
    + intros m1 m2 m3 (?&?&?) (?&?&?). split_and!; congruence.
    + intros name m _. apply setCallback_hook.
Qed.

(** Every run of [setupDynamicWidgets] puts one more wrapper around
    whatever [onConnectionsChange] held, its own earlier wrapper
    included. *)
Lemma setupDynamicWidgets_wraps cfg s :
  onConnectionsChange (setupDynamicWidgets cfg s).2 =
  ConnWrap (onConnectionsChange s.2) cfg.
Proof.
  unfold setupDynamicWidgets.
  set (s1 := forEach applyDefault _ _).
  set (s2 := createGenericHandler cfg s1).
  set (n1 := match cfg with Some _ => _ | None => _ end).
  set (n2 := set_onConnectionsChange _ n1).
  set (n3 := if menuWrapped n2 then _ else _).
  assert (onConnectionsChange s2.2 = onConnectionsChange s.2) as H2.
  { etrans; [apply (st_conn _ _ (createGenericHandler_stable cfg s1))|].
    subst s1.
    apply (st_conn _ _ (rules_stable applyDefault applyDefault_stable _
                          (emit (EvSetup (comfyClass s.2)) s.1, s.2))). }
  assert (onConnectionsChange n1 = onConnectionsChange s.2) as H1.
  { subst n1. destruct cfg as [groups|]; [|done].
    by rewrite (proj1 (setCallbacks_hook (Some groups) groups s2.2)). }
  assert (onConnectionsChange n3 = ConnWrap (onConnectionsChange s.2) cfg) as H3.
  { subst n3 n2. destruct (menuWrapped _); simpl; by rewrite H1. }
  destruct (_ ≫= optionalInputWidgets) as [groups|]; [|done].
  rewrite <- H3.
  apply (st_conn _ _ (rules_stable applyOptionalGroup applyOptionalGroup_stable
                        groups (s2.1, n3))).
Qed.

(** C8, where the code departs from it. A [ClownSampler] with handlers
    of the host in all four hook slots is created and then configured,
    as happens whenever a saved graph is loaded; the setup has then run
    twice. One connection event still reaches the host's handler once,
    but runs [handleConnectionChange] and the value rules twice, since
    [onConnectionsChange] now holds a wrapper around a wrapper. The
    handler the host had in [onAfterGraphConfigured] is never called
    again: the slot was overwritten. The menu hook and [onConfigure]
    do as claimed: the host's handler runs once and the entries are
    added once. *)
Theorem C8_hooks_after_two_setups :
  let s1 := nodeCreated (setup loaded, hostedSampler) in
  let s2 := run_onConfigure (onConfigure s1.2) s1 in
  let connection :=
    trace (run_onConnectionsChange (onConnectionsChange s2.2) 0 (quiet s2)).1 in
  let graphConfigured :=
    trace (run_onAfterGraphConfigured (onAfterGraphConfigured s2.2) (quiet s2)).1 in
  let menu := run_getExtraMenuOptions (getExtraMenuOptions s2.2) [] (quiet s2) in
  onConnectionsChange s2.2 =
    ConnWrap (ConnWrap (ConnHost 1) (Some commonDependentWidgets))
      (Some commonDependentWidgets) ∧
  occurrences (EvHost 1) connection = 1%nat ∧
  occurrences (EvConnection "latent_guide") connection = 2%nat ∧
  occurrences (EvNodeChange "ClownSampler") connection = 2%nat ∧
  onAfterGraphConfigured s2.2 = GraphConfiguredSet (Some commonDependentWidgets) ∧
  occurrences (EvHost 4) graphConfigured = 0%nat ∧
  occurrences (EvNodeChange "ClownSampler") graphConfigured = 1%nat ∧
  occurrences (EvHost 3) (trace s2.1) = 1%nat ∧
  trace menu.1.1 = [EvHost 2] ∧
  content <$> menu.2 = ["Refresh RES4LYF widgets"; "Hide extra_options"].
Proof. by vm_compute. Qed.

(** ** The rules on sample nodes *)

(** With hiding on, [noise_type = "fractal"] shows [alpha] and [k],
    and any other value hides them. *)
Example fractal_shows_alpha_and_k :
  let s := createGenericHandler (Some commonDependentWidgets)
             (hidingOn, clownSampler "fractal" None None) in
  wType <$> nWidgets s.2 !! 1%nat = Some "number" ∧
  wType <$> nWidgets s.2 !! 2%nat = Some "number".
Proof. by vm_compute. Qed.

Example gaussian_hides_alpha_and_k :
  let s := createGenericHandler (Some commonDependentWidgets)
             (hidingOn, clownSampler "gaussian" None None) in
  wType <$> nWidgets s.2 !! 1%nat = Some HIDDEN_TAG ∧
  wType <$> nWidgets s.2 !! 2%nat = Some HIDDEN_TAG ∧
  nSize s.2 = (210, 150).
Proof. by vm_compute. Qed.

(** With hiding on, a link on [latent_guide_inv] alone shows the guide
    widgets when [latent_guide] changes; with no link they are hidden. *)
Example one_link_shows_guide_widgets :
  let s := handleConnectionChange 0 (hidingOn, clownSampler "fractal" None (Some 3)) in
  wType <$> nWidgets s.2 !! 3%nat = Some "number" ∧
  wType <$> nWidgets s.2 !! 4%nat = Some "combo".
Proof. by vm_compute. Qed.

Example no_link_hides_guide_widgets :
  let s := handleConnectionChange 0 (hidingOn, clownSampler "fractal" None None) in
  wType <$> nWidgets s.2 !! 3%nat = Some HIDDEN_TAG ∧
  wType <$> nWidgets s.2 !! 4%nat = Some HIDDEN_TAG.
Proof. by vm_compute. Qed.

(** A node whose type has no configuration is left alone by
    [nodeCreated] and by both settings handlers. *)
Example unmanaged_node_untouched :
  let node := sampleNode 9 "KSampler" [sampleWidget "extra_options" (VStr "") "text"]
                [] (210, 80) in
  nodeCreated (hidingOn, node) = (hidingOn, node) ∧
  (onChangeDefault "extra_options" true hidingOn [node]).2 = [node] ∧
  (onChangeHiding true hidingOn [node]).2 = [node].
Proof. by vm_compute. Qed.

(** * Further properties of the code *)

(** ** Nodes and widgets the rules do not name *)

(** X1. A node whose type is no key of [nodeConfigs], neither one of
    its own entries nor a property name it inherits from
    [Object.prototype], is not touched: [nodeCreated] returns the
    state as it was (no toggle, no hook, no callback), and both
    settings handlers hand the node back unchanged, wherever it sits
    in the graph. *)
Theorem X1_unconfigured_node_untouched (g : Globals) (nodes : list Node)
    (k : nat) (node : Node) (widgetName : string) (value : bool) :
  nodes !! k = Some node →
  nodeConfigs !! comfyClass node = None →
  comfyClass node ∉ objectPrototypeNames →
  nodeCreated (g, node) = (g, node) ∧
  (onChangeDefault widgetName value g nodes).2 !! k = Some node ∧
  (onChangeHiding value g nodes).2 !! k = Some node.
Proof.
  intros Hk Hown Hproto.
  pose proof (configOf_None _ Hown Hproto) as Hcfg. clear Hown Hproto.
  split_and!.
  - unfold nodeCreated. cbn [fst snd]. rewrite Hcfg. reflexivity.
  - unfold onChangeDefault.
    destruct (forNodes_lookup _ (applyNewDefault_stable widgetName value) nodes
                (set_defaults (<[widgetName := value]> (DEFAULT_WIDGET_STATES g)) g))
      as [_ Hnodes].
    destruct (Hnodes k node Hk) as (gk & _ & -> & _).
    unfold applyNewDefault. cbn [fst snd]. rewrite Hcfg. reflexivity.
  - unfold onChangeHiding.
    destruct (forNodes_lookup _ reapplyNode_stable nodes (set_hiding value g))
      as [_ Hnodes].
    destruct (Hnodes k node Hk) as (gk & _ & -> & _).
    unfold reapplyNode. cbn [fst snd]. rewrite Hcfg. reflexivity.
Qed.

Lemma X1_unconfigured_node_untouched_witness :
  let nodes := [clownSampler "gaussian" None None; plainNode] in
  nodeCreated (hidingOn, plainNode) = (hidingOn, plainNode) ∧
  (onChangeDefault "extra_options" true hidingOn nodes).2 !! 1%nat = Some plainNode ∧
  (onChangeHiding true hidingOn nodes).2 !! 1%nat = Some plainNode.
Proof.
  intros nodes.
  apply (X1_unconfigured_node_untouched hidingOn nodes 1 plainNode
           "extra_options" true).
  - reflexivity.
  - vm_compute; reflexivity.
  - apply (bool_decide_unpack _). vm_compute; reflexivity.
Defined.

(** X2. A toggle writes to one widget only. Whatever widget it is
    given, every other position of [node.widgets] keeps its widget,
    the list keeps its length, and the call is [stable]: names, values
    and callbacks of all widgets, the inputs, the hooks, the id, the
    type and the width of the node, the hiding switch, the defaults
    and the overrides are as before, and [origProps] has lost
    nothing. *)
Theorem X2_toggle_frame (g : Globals) (node : Node) (i : nat) (shouldShow : bool) :
  let s' := toggleWidget node (Some i) shouldShow g in
  stable (g, node) s' ∧
  length (nWidgets s'.2) = length (nWidgets node) ∧
  ∀ j, j ≠ i → nWidgets s'.2 !! j = nWidgets node !! j.
Proof.
  intros s'. subst s'. split; [apply toggleWidget_stable|].
  destruct (nWidgets node !! i) as [w|] eqn:Hw.
  - rewrite (toggleWidget_Some _ _ _ _ _ Hw). simpl.
    split; [apply length_insert|].
    intros j Hj. by apply list_lookup_insert_ne.
  - unfold toggleWidget. by rewrite Hw.
Qed.

Lemma createGenericHandler_spares cfg s j w :
  nWidgets s.2 !! j = Some w →
  (∀ group, group ∈ default [] cfg → wName w ∉ widgetsToShow group) →
  nWidgets (createGenericHandler cfg s).2 !! j = Some w.
Proof.
  intros Hj Hnot. unfold createGenericHandler.
  destruct cfg as [groups|]; [|done]. simpl in Hnot.
  by apply (rules_other applyGroup widgetsToShow applyGroup_other groups
              (emit _ s.1, s.2)).
Qed.

(** X3. The value-rule handler leaves alone every widget whose name no
    rule lists in [widgetsToShow]: such a widget is the same after the
    handler has run, for any rule set. *)
Theorem X3_handler_spares_unlisted (cfg : option (list DependentGroup)) (s : St)
    (j : nat) (w : Widget) :
  nWidgets s.2 !! j = Some w →
  (∀ group, group ∈ default [] cfg → wName w ∉ widgetsToShow group) →
  nWidgets (createGenericHandler cfg s).2 !! j = Some w.
Proof.
  intros Hj Hnot. unfold createGenericHandler.
  destruct cfg as [groups|]; [|done]. simpl in Hnot.
  by apply (rules_other applyGroup widgetsToShow applyGroup_other groups
              (emit _ s.1, s.2)).
Qed.

Lemma X3_handler_spares_unlisted_witness :
  let node := clownSampler "gaussian" None None in
  nWidgets (createGenericHandler (Some commonDependentWidgets) (hidingOn, node)).2
    !! 3%nat = Some (sampleWidget "latent_guide_weight" (VNum 0) "number").
Proof.
  apply (X3_handler_spares_unlisted (Some commonDependentWidgets)
           (hidingOn, clownSampler "gaussian" None None) 3).
  - reflexivity.
  - intros group Hin. apply (bool_decide_unpack _).
    repeat (apply elem_of_cons in Hin as [->|Hin]; [by vm_compute|]).
    by apply elem_of_nil in Hin.
Defined.

Lemma toggleNamed_absent show name s :
  findWidget (nWidgets s.2) name = None → toggleNamed show name s = s.
Proof. intros H. unfold toggleNamed. rewrite H. by destruct s. Qed.

Lemma toggleAll_absent show l : ∀ s,
  (∀ name, name ∈ l → findWidget (nWidgets s.2) name = None) →
  forEach (toggleNamed show) l s = s.
Proof.
  induction l as [|a l IH]; intros s H; [done|].
  rewrite forEach_cons, toggleNamed_absent by (apply H; by left).
  apply IH. intros name Hin. apply H. by right.
Qed.

(** X4. On a node that has none of the widgets the rules would show or
    hide, the value-rule handler changes nothing: the node, the store
    of originals and the settings are as before, and the only trace
    of the call is its log line. *)
Theorem X4_handler_without_targets (groups : list DependentGroup) (s : St) :
  (∀ group name, group ∈ groups → name ∈ widgetsToShow group →
                 findWidget (nWidgets s.2) name = None) →
  createGenericHandler (Some groups) s =
    (emit (EvNodeChange (comfyClass s.2)) s.1, s.2).
Proof.
  intros H. unfold createGenericHandler.
  generalize (emit (EvNodeChange (comfyClass s.2)) s.1). intros g.
  induction groups as [|group groups IH]; [done|].
  rewrite forEach_cons. unfold applyGroup at 2.
  rewrite toggleAll_absent.
  - apply IH. intros gr name Hgr. apply H. by right.
  - intros name Hin. apply (H group); [by left|done].
Qed.

Lemma X4_handler_without_targets_witness :
  createGenericHandler (Some commonDependentWidgets) (hidingOn, seedNode) =
    (emit (EvNodeChange (comfyClass seedNode)) hidingOn, seedNode).
Proof.
  apply (X4_handler_without_targets commonDependentWidgets (hidingOn, seedNode)).
  intros group name Hgroup Hname.
  repeat (apply elem_of_cons in Hgroup as [->|Hgroup];
          [repeat (apply elem_of_cons in Hname as [->|Hname]; [by vm_compute|]);
           by apply elem_of_nil in Hname|]).
  by apply elem_of_nil in Hgroup.
Defined.

(** X5. [handleConnectionChange] leaves alone every widget that is not
    listed in the [widgets] of a group naming the input that changed;
    this covers the calls that return at a guard. *)
Theorem X5_connection_spares_unlisted (index : nat) (s : St) (j : nat) (w : Widget) :
  nWidgets s.2 !! j = Some w →
  (∀ groups input group,
     nodeConfigs !! comfyClass s.2 ≫= optionalInputWidgets = Some groups →
     nInputs s.2 !! index = Some input →
     group ∈ groups → iName input ∈ inputs group → wName w ∉ widgets group) →
  nWidgets (handleConnectionChange index s).2 !! j = Some w.
Proof.
  intros Hj Hnot. unfold handleConnectionChange. rewrite configOf_optional.
  destruct (_ ≫= optionalInputWidgets) as [groups|] eqn:Hcfg; [|done].
  destruct (nInputs s.2 !! index) as [input|] eqn:Hinput; [|done].
  case_bool_decide; [done|].
  apply (rules_other (connectionStep (iName input))
           (connectionTargets (iName input)) (connectionStep_other _) groups
           (emit _ s.1, s.2)); [done|].
  intros group Hgroup. unfold connectionTargets. case_bool_decide.
  - by apply (Hnot groups input).
  - apply not_elem_of_nil.
Qed.

Lemma X5_connection_spares_unlisted_witness :
  let node := clownSampler "gaussian" None (Some 3) in
  nWidgets (handleConnectionChange 1 (hidingOn, node)).2 !! 1%nat =
    Some (sampleWidget "alpha" (VNum 1) "number").
Proof.
  apply (X5_connection_spares_unlisted 1
           (hidingOn, clownSampler "gaussian" None (Some 3)) 1).
  - reflexivity.
  - intros groups input group Hcfg Hinput Hgroup _.
    vm_compute in Hcfg. injection Hcfg as <-.
    apply (bool_decide_unpack _).
    repeat (apply elem_of_cons in Hgroup as [->|Hgroup]; [by vm_compute|]).
    by apply elem_of_nil in Hgroup.
Defined.

(** X6. [handleConnectionChange], the function that the hook of lines
    300-306 calls at line 304, when it is called for an input that no
    group of the node's type names (or for a position where the node
    has no input), changes neither the node nor any module-level
    variable other than the trace. This is the connection rules'
    share of a connection event only: the hook goes on to run the
    value-rule handler (line 305), which this statement does not
    cover. *)
Theorem X6_handleConnectionChange_unnamed_input (index : nat) (s : St) :
  (∀ groups input group,
     nodeConfigs !! comfyClass s.2 ≫= optionalInputWidgets = Some groups →
     nInputs s.2 !! index = Some input →
     group ∈ groups → iName input ∉ inputs group) →
  let s' := handleConnectionChange index s in
  s'.2 = s.2 ∧ origProps s'.1 = origProps s.1 ∧
  widgetToggleStates s'.1 = widgetToggleStates s.1 ∧
  DEFAULT_WIDGET_STATES s'.1 = DEFAULT_WIDGET_STATES s.1 ∧
  ENABLE_WIDGET_HIDING s'.1 = ENABLE_WIDGET_HIDING s.1.
Proof.
  intros Hnot s'. subst s'. unfold handleConnectionChange. rewrite configOf_optional.
  destruct (_ ≫= optionalInputWidgets) as [groups|] eqn:Hcfg; [|done].
  destruct (nInputs s.2 !! index) as [input|] eqn:Hinput; [|done].
  case_bool_decide; [done|].
  specialize (Hnot groups input).
  assert (∀ s0 : St, forEach (λ group s1,
            if bool_decide (iName input ∈ inputs group)
            then applyOptionalGroup group s1 else s1) groups s0 = s0) as Hid.
  { clear -Hnot. induction groups as [|group groups IH]; intros s0; [done|].
    rewrite forEach_cons, bool_decide_eq_false_2.
    - apply IH. intros gr ? ? Hgr. apply Hnot; [done..|]. by right.
    - apply Hnot; [done..|]. by left. }
  by rewrite Hid.
Qed.

Lemma X6_handleConnectionChange_unnamed_input_witness :
  let s := (hidingOn, wiredSampler) in
  let s' := handleConnectionChange 0 s in
  s'.2 = s.2 ∧ origProps s'.1 = origProps s.1 ∧
  widgetToggleStates s'.1 = widgetToggleStates s.1 ∧
  DEFAULT_WIDGET_STATES s'.1 = DEFAULT_WIDGET_STATES s.1 ∧
  ENABLE_WIDGET_HIDING s'.1 = ENABLE_WIDGET_HIDING s.1.
Proof.
  apply (X6_handleConnectionChange_unnamed_input 0 (hidingOn, wiredSampler)).
  intros groups input group Hgroups Hinput Hgroup.
  vm_compute in Hgroups. injection Hgroups as <-.
  vm_compute in Hinput. injection Hinput as <-.
  repeat (apply elem_of_cons in Hgroup as [->|Hgroup];
          [apply (bool_decide_unpack _); vm_compute; reflexivity|]).
  by apply elem_of_nil in Hgroup.
Defined.

(** X7. When several value rules list the same widget, the last of
    them decides: after the handler has run, the widget carries the
    decision of the last rule that lists it, whatever the earlier ones
    said. *)
Theorem X7_last_rule_wins (pre post : list DependentGroup) (group : DependentGroup)
    (s : St) (t : string) (i : nat) :
  t ∈ widgetsToShow group →
  (∀ later, later ∈ post → t ∉ widgetsToShow later) →
  findWidget (nWidgets s.2) t = Some i →
  let s' := createGenericHandler (Some (pre ++ group :: post)) s in
  let show := showWidgets (nWidgets s.2) group in
  ∃ w' p,
    nWidgets s'.2 !! i = Some w' ∧ origProps s'.1 !! t = Some p ∧
    wHidden w' = Some (negb show) ∧
    (if show || negb (ENABLE_WIDGET_HIDING s.1)
     then shownAs p w' else hiddenAs w').
Proof.
  intros Ht Hpost Hf s' show.
  pose proof (createGenericHandler_last pre group post s t i Ht Hpost Hf) as H.
  apply (toggled_at_result _ _ _ _ _ _ H), grown_refl.
Qed.

Lemma X7_last_rule_wins_witness :
  let s' := createGenericHandler (Some conflictingRules) (hidingOn, conflictNode) in
  ∃ w' p,
    nWidgets s'.2 !! 2%nat = Some w' ∧ origProps s'.1 !! "alpha" = Some p ∧
    wHidden w' = Some (negb false) ∧
    (if false || negb (ENABLE_WIDGET_HIDING hidingOn)
     then shownAs p w' else hiddenAs w').
Proof.
  apply (X7_last_rule_wins
           [ {| inputWidgetNames := ["noise_type"];
                independentValues := [VStr "fractal"];
                widgetsToShow := ["alpha"] |} ]
           []
           {| inputWidgetNames := ["mode"];
              independentValues := [VStr "on"];
              widgetsToShow := ["alpha"; "k"] |}
           (hidingOn, conflictNode) "alpha" 2).
  - by left.
  - intros later []%elem_of_nil.
  - vm_compute; reflexivity.
Defined.

(** ** The anatomy of a setup *)

Lemma recalled_refl n : recalled n n.
Proof. by split. Qed.

Lemma recalled_trans n1 n2 n3 : recalled n1 n2 → recalled n2 n3 → recalled n1 n3.
Proof. intros [] []; split; congruence. Qed.

Lemma setCallback_recalled cfg name n : recalled n (setCallback cfg name n).
Proof.
  unfold setCallback.
  destruct (list_find _ _) as [[i w]|] eqn:E; [|apply recalled_refl].
  apply list_find_Some in E as (Hw & _). split; try done. simpl.
  rewrite list_fmap_insert. apply list_insert_id.
  by rewrite list_lookup_fmap, Hw.
Qed.

Lemma setCallbacks_recalled cfg (groups : list DependentGroup) n :
  recalled n
    (forEach (λ group, forEach (setCallback cfg) (inputWidgetNames group)) groups n).
Proof.
  apply (forEach_rel recalled); [apply recalled_refl|apply recalled_trans|].
  intros group n1 _.
  apply (forEach_rel recalled); [apply recalled_refl|apply recalled_trans|].
  intros name n2 _. apply setCallback_recalled.
Qed.

(** A setup is a pass of toggles, then the callbacks and the two hook
    assignments, then a second pass of toggles. *)
Lemma setup_anatomy cfg s :
  ∃ s2 n1 n3,
    stable s s2 ∧ recalled s2.2 n1 ∧
    n3 = (let n2 := set_onConnectionsChange (ConnWrap (onConnectionsChange n1) cfg) n1 in
          if menuWrapped n2 then n2
          else set_getExtraMenuOptions (MenuWrap (getExtraMenuOptions n2) cfg) n2) ∧
    stable (s2.1, n3) (setupDynamicWidgets cfg s).
Proof.
  unfold setupDynamicWidgets.
  set (s1 := forEach applyDefault _ _).
  set (s2 := createGenericHandler cfg s1).
  set (n1 := match cfg with Some _ => _ | None => _ end).
  exists s2, n1. eexists. split_and!; [| |reflexivity|].
  - eapply stable_trans; [|apply createGenericHandler_stable].
    eapply (stable_trans _ (emit _ s.1, s.2)); [by split|].
    apply (rules_stable applyDefault applyDefault_stable).
  - subst n1. destruct cfg; [apply setCallbacks_recalled|apply recalled_refl].
  - simpl. destruct (_ ≫= optionalInputWidgets) as [groups|].
    + apply (rules_stable applyOptionalGroup applyOptionalGroup_stable).
    + apply stable_refl.
Qed.

Lemma setup_menu cfg s :
  menuWrapped (setupDynamicWidgets cfg s).2 = true ∧
  getExtraMenuOptions (setupDynamicWidgets cfg s).2 =
    (if menuWrapped s.2 then getExtraMenuOptions s.2
     else MenuWrap (getExtraMenuOptions s.2) cfg).
Proof.
  destruct (setup_anatomy cfg s) as (s2 & n1 & n3 & H2 & H1 & -> & H3).
  rewrite (st_wrapped _ _ H3), (st_menu _ _ H3). simpl.
  assert (menuWrapped n1 = menuWrapped s.2) as Hw
    by by rewrite (rc_wrapped _ _ H1), (st_wrapped _ _ H2).
  assert (getExtraMenuOptions n1 = getExtraMenuOptions s.2) as Hm
    by by rewrite (rc_menu _ _ H1), (st_menu _ _ H2).
  rewrite <- Hw, <- Hm. by destruct (menuWrapped n1) eqn:E.
Qed.

Lemma stable_sameData s s' : stable s s' → sameData s.2 s'.2.
Proof.
  intros H. split; try apply H.
  pose proof (st_core _ _ H) as Hc.
  apply (f_equal (fmap (λ c : string * JsValue * option Callback, c.1))) in Hc.
  by rewrite <- !list_fmap_compose in Hc.
Qed.

Lemma recalled_sameData n n' : recalled n n' → sameData n n'.
Proof.
  intros H. split; try apply H.
  - pose proof (rc_look _ _ H) as Hc.
    apply (f_equal (fmap (λ c : string * JsValue * string * option SizeFn *
                                option Z * option bool, (c.1.1.1.1.1, c.1.1.1.1.2)))) in Hc.
    by rewrite <- !list_fmap_compose in Hc.
  - by rewrite (rc_size _ _ H).
Qed.

Lemma sameData_refl n : sameData n n.
Proof. by split. Qed.

Lemma sameData_trans n1 n2 n3 : sameData n1 n2 → sameData n2 n3 → sameData n1 n3.
Proof. intros [] []; split; congruence. Qed.

Lemma setup_sameData cfg s : sameData s.2 (setupDynamicWidgets cfg s).2.
Proof.
  destruct (setup_anatomy cfg s) as (s2 & n1 & n3 & H2 & H1 & -> & H3).
  eapply sameData_trans; [apply (stable_sameData _ _ H2)|].
  eapply sameData_trans; [apply (recalled_sameData _ _ H1)|].
  eapply sameData_trans; [|apply (stable_sameData _ _ H3)].
  simpl. by destruct (menuWrapped n1).
Qed.

(** X8. The menu hook is wrapped once, however often the setup runs:
    after any number of setups on a node whose flag was not set, the
    hook is a single wrapper around the handler that was there before
    the first setup, and the flag is set. *)
Theorem X8_menu_wrapped_once (n : nat) (cfg : option (list DependentGroup)) (s : St) :
  menuWrapped s.2 = false →
  let s' := Nat.iter (S n) (setupDynamicWidgets cfg) s in
  menuWrapped s'.2 = true ∧
  getExtraMenuOptions s'.2 = MenuWrap (getExtraMenuOptions s.2) cfg.
Proof.
  intros Hflag. induction n as [|n IH]; simpl in *.
  - destruct (setup_menu cfg s) as [Hw Hm]. by rewrite Hflag in Hm.
  - destruct IH as [IHw IHm].
    destruct (setup_menu cfg (setupDynamicWidgets cfg
                (Nat.iter n (setupDynamicWidgets cfg) s))) as [Hw Hm].
    split; [done|]. by rewrite Hm, IHw, IHm.
Qed.

Lemma X8_menu_wrapped_once_witness :
  let cfg := Some commonDependentWidgets in
  let s' := Nat.iter 3 (setupDynamicWidgets cfg) (setup loaded, hostedSampler) in
  menuWrapped s'.2 = true ∧
  getExtraMenuOptions s'.2 = MenuWrap (MenuHost 2) cfg.
Proof.
  apply (X8_menu_wrapped_once 2 (Some commonDependentWidgets)
           (setup loaded, hostedSampler)).
  reflexivity.
Defined.

(** ** Counting the runs of the value-rule handler *)

Lemma occurrences_app e t1 t2 :
  occurrences e (t1 ++ t2) = (occurrences e t1 + occurrences e t2)%nat.
Proof. unfold occurrences. by rewrite filter_app, length_app. Qed.

Lemma occurrences_emit e e' g :
  occurrences e (trace (emit e' g)) =
  (occurrences e (trace g) + if decide (e' = e) then 1 else 0)%nat.
Proof.
  simpl. rewrite occurrences_app. f_equal. unfold occurrences.
  rewrite filter_cons. by destruct (decide (e' = e)).
Qed.

(** A pass of toggles logs no run of the handler. *)
Lemma toggleWidget_handlerRuns c node widget shouldShow g :
  occurrences (EvNodeChange c) (trace (toggleWidget node widget shouldShow g).1) =
  occurrences (EvNodeChange c) (trace g).
Proof.
  destruct widget as [i|]; [|done].
  destruct (nWidgets node !! i) as [w|] eqn:Hw.
  - rewrite (toggleWidget_Some _ _ _ _ _ Hw). simpl.
    rewrite occurrences_app. unfold occurrences at 2.
    rewrite filter_cons. destruct (decide _); [done|simpl; lia].
  - unfold toggleWidget. by rewrite Hw.
Qed.

Lemma toggleAll_handlerRuns c show l s :
  occurrences (EvNodeChange c) (trace (forEach (toggleNamed show) l s).1) =
  occurrences (EvNodeChange c) (trace s.1).
Proof.
  apply (forEach_rel (λ s s' : St,
           occurrences (EvNodeChange c) (trace s'.1) =
           occurrences (EvNodeChange c) (trace s.1))).
  - done.
  - intros s1 s2 s3 ??. congruence.
  - intros name s' _. apply toggleWidget_handlerRuns.
Qed.

Lemma createGenericHandler_handlerRuns cfg s :
  occurrences (EvNodeChange (comfyClass s.2))
    (trace (createGenericHandler cfg s).1) =
  S (occurrences (EvNodeChange (comfyClass s.2)) (trace s.1)).
Proof.
  unfold createGenericHandler.
  assert (occurrences (EvNodeChange (comfyClass s.2))
            (trace (emit (EvNodeChange (comfyClass s.2)) s.1)) =
          S (occurrences (EvNodeChange (comfyClass s.2)) (trace s.1))) as H0.
  { rewrite occurrences_emit. rewrite decide_True by done. lia. }
  destruct cfg as [groups|]; [|exact H0]. rewrite <- H0.
  generalize (comfyClass s.2). intros c.
  apply (forEach_rel (λ s s' : St,
           occurrences (EvNodeChange c) (trace s'.1) =
           occurrences (EvNodeChange c) (trace s.1)) applyGroup groups).
  - done.
  - intros s1 s2 s3 ??. congruence.
  - intros group s' _. apply toggleAll_handlerRuns.
Qed.

Lemma handleConnectionChange_handlerRuns c index s :
  occurrences (EvNodeChange c) (trace (handleConnectionChange index s).1) =
  occurrences (EvNodeChange c) (trace s.1).
Proof.
  unfold handleConnectionChange. rewrite configOf_optional.
  destruct (_ ≫= optionalInputWidgets) as [groups|]; [|done].
  destruct (nInputs s.2 !! index) as [input|]; [|done].
  case_bool_decide; [done|].
  assert (occurrences (EvNodeChange c)
            (trace (emit (EvConnection (iName input)) s.1)) =
          occurrences (EvNodeChange c) (trace s.1)) as <-.
  { rewrite occurrences_emit, decide_False by done. lia. }
  apply (forEach_rel (λ s s' : St,
           occurrences (EvNodeChange c) (trace s'.1) =
           occurrences (EvNodeChange c) (trace s.1))
           (λ group s1, if bool_decide (iName input ∈ inputs group)
                        then applyOptionalGroup group s1 else s1) groups).
  - done.
  - intros s1 s2 s3 ??. congruence.
  - intros group s' _. case_bool_decide; [|done].
    rewrite applyOptionalGroup_toggleAll. apply toggleAll_handlerRuns.
Qed.

Lemma run_onConnectionsChange_stable h index s :
  stable s (run_onConnectionsChange h index s).
Proof.
  revert s. induction h as [|tag|orig IH cfg]; intros s; simpl.
  - apply stable_refl.
  - by split.
  - eapply stable_trans; [apply IH|].
    eapply stable_trans; [apply handleConnectionChange_stable|].
    apply createGenericHandler_stable.
Qed.

(** One connection event runs the value-rule handler once for every
    wrapper around the hook. *)
Lemma run_onConnectionsChange_handlerRuns h index : ∀ s,
  occurrences (EvNodeChange (comfyClass s.2))
    (trace (run_onConnectionsChange h index s).1) =
  (occurrences (EvNodeChange (comfyClass s.2)) (trace s.1) + layers h)%nat.
Proof.
  induction h as [|tag|orig IH cfg]; intros s; simpl.
  - lia.
  - rewrite occurrences_app. unfold occurrences at 2. rewrite filter_cons.
    destruct (decide _); [done|simpl; lia].
  - set (s1 := run_onConnectionsChange orig index s).
    set (s2 := handleConnectionChange index s1).
    assert (comfyClass s2.2 = comfyClass s.2) as Hc.
    { etrans; [apply (st_class _ _ (handleConnectionChange_stable index s1))|].
      apply (st_class _ _ (run_onConnectionsChange_stable orig index s)). }
    rewrite <- Hc, createGenericHandler_handlerRuns, Hc.
    subst s2. rewrite handleConnectionChange_handlerRuns.
    subst s1. rewrite IH. lia.
Qed.

Lemma setups_sameData n cfg s :
  sameData s.2 (Nat.iter n (setupDynamicWidgets cfg) s).2.
Proof.
  induction n as [|n IH]; simpl; [apply sameData_refl|].
  eapply sameData_trans; [exact IH|apply setup_sameData].
Qed.

(** X9. The connection hook is wrapped again by every setup: after [n]
    setups it has [n] more wrappers than before, and one connection
    event then runs the value-rule handler once for each wrapper, so
    [n] times on a node whose hook was the host's. *)
Theorem X9_connection_handler_runs_per_setup (n : nat)
    (cfg : option (list DependentGroup)) (s : St) (index : nat) :
  let s' := Nat.iter n (setupDynamicWidgets cfg) s in
  let after := run_onConnectionsChange (onConnectionsChange s'.2) index s' in
  layers (onConnectionsChange s'.2) = (n + layers (onConnectionsChange s.2))%nat ∧
  occurrences (EvNodeChange (comfyClass s.2)) (trace after.1) =
    (occurrences (EvNodeChange (comfyClass s.2)) (trace s'.1) +
     (n + layers (onConnectionsChange s.2)))%nat.
Proof.
  intros s' after.
  assert (layers (onConnectionsChange s'.2) =
          (n + layers (onConnectionsChange s.2))%nat) as Hl.
  { subst s'. induction n as [|n IH]; simpl; [done|].
    rewrite setupDynamicWidgets_wraps. simpl. by rewrite IH. }
  split; [exact Hl|].
  subst after. rewrite <- Hl.
  rewrite <- (sd_class _ _ (setups_sameData n cfg s)). fold s'.
  apply run_onConnectionsChange_handlerRuns.
Qed.

(** ** What no event changes *)

Lemma forNodes_length f nodes g : length (forNodes f nodes g).2 = length nodes.
Proof.
  revert g. induction nodes as [|n nodes IH]; intros g; simpl; [done|].
  by rewrite IH.
Qed.

Lemma sameGraph_refl world : sameGraph world world.
Proof. split; [done|]. intros k node H. exists node. split; [done|apply sameData_refl]. Qed.

Lemma sameGraph_trans w1 w2 w3 : sameGraph w1 w2 → sameGraph w2 w3 → sameGraph w1 w3.
Proof.
  intros [L1 H1] [L2 H2]. split; [congruence|].
  intros k node Hk. destruct (H1 k node Hk) as (n2 & Hk2 & D1).
  destruct (H2 k n2 Hk2) as (n3 & Hk3 & D2).
  exists n3. split; [done|]. by eapply sameData_trans.
Qed.

Lemma onNode_sameGraph k f world :
  (∀ s, sameData s.2 (f s).2) → sameGraph world (onNode k f world).
Proof.
  intros Hf. unfold onNode.
  destruct (world.2 !! k) as [node|] eqn:Hk; [|apply sameGraph_refl].
  split; simpl; [apply length_insert|].
  intros j nodej Hj. destruct (decide (j = k)) as [->|Hne].
  - rewrite Hk in Hj. injection Hj as <-. eexists. split.
    + apply list_lookup_insert_eq. by eapply lookup_lt_Some.
    + apply (Hf (world.1, node)).
  - exists nodej. split; [|apply sameData_refl].
    by rewrite list_lookup_insert_ne.
Qed.

Lemma forNodes_sameGraph f world :
  (∀ s, stable s (f s)) → sameGraph world (forNodes f world.2 world.1).
Proof.
  intros Hf. split; [apply forNodes_length|].
  intros k node Hk.
  destruct (forNodes_lookup f Hf world.2 world.1) as [_ Hnodes].
  destruct (Hnodes k node Hk) as (gk & _ & Hres & _).
  eexists. split; [exact Hres|]. apply (stable_sameData _ _ (Hf (gk, node))).
Qed.

Lemma createGenericHandler_sameData cfg s :
  sameData s.2 (createGenericHandler cfg s).2.
Proof. apply (stable_sameData _ _ (createGenericHandler_stable cfg s)). Qed.

Lemma nodeCreated_sameData s : sameData s.2 (nodeCreated s).2.
Proof.
  unfold nodeCreated. destruct (configOf _); [|apply sameData_refl]. simpl.
  eapply sameData_trans; [apply setup_sameData|].
  eapply sameData_trans; [apply createGenericHandler_sameData|].
  by split.
Qed.

Lemma run_onConfigure_sameData h : ∀ s, sameData s.2 (run_onConfigure h s).2.
Proof.
  induction h as [|tag|orig IH cfg]; intros s; simpl;
    [apply sameData_refl..|].
  eapply sameData_trans; [apply IH|apply setup_sameData].
Qed.

Lemma run_getExtraMenuOptions_node h options s :
  (run_getExtraMenuOptions h options s).1.2 = s.2.
Proof.
  revert options s. induction h as [|tag|orig IH cfg]; intros options s;
    simpl; [done..|].
  specialize (IH options s). by destruct (run_getExtraMenuOptions orig options s).
Qed.

Lemma run_menuCallback_sameData cb s : sameData s.2 (run_menuCallback cb s).2.
Proof.
  destruct cb; simpl.
  - apply createGenericHandler_sameData.
  - apply (stable_sameData (set_toggleStates _ s.1, s.2) _
             (toggleWidget_stable s.2 (Some widget) _ _)).
Qed.

Lemma run_menuChoice_sameData n s : sameData s.2 (run_menuChoice n s).2.
Proof.
  unfold run_menuChoice.
  pose proof (run_getExtraMenuOptions_node (getExtraMenuOptions s.2) [] s) as H.
  destruct (run_getExtraMenuOptions _ _ _) as [s' options]. simpl in H.
  rewrite <- H. destruct (options !! n); [|apply sameData_refl].
  apply run_menuCallback_sameData.
Qed.

Lemma perform_sameGraph a world : sameGraph world (perform a world).
Proof.
  destruct a; simpl.
  - apply onNode_sameGraph, nodeCreated_sameData.
  - apply onNode_sameGraph. intros s. apply run_onConfigure_sameData.
  - apply onNode_sameGraph. intros s.
    destruct (onAfterGraphConfigured s.2); simpl; try apply sameData_refl.
    destruct (nGraph s.2); [|apply sameData_refl].
    apply createGenericHandler_sameData.
  - apply onNode_sameGraph. intros s.
    apply (stable_sameData _ _ (run_onConnectionsChange_stable _ _ _)).
  - apply onNode_sameGraph. intros s. unfold run_callback.
    destruct (_ ≫= wCallback) as [[]|]; try apply sameData_refl.
    apply createGenericHandler_sameData.
  - apply onNode_sameGraph, run_menuChoice_sameData.
  - apply (forNodes_sameGraph _ (set_defaults _ world.1, world.2)),
      applyNewDefault_stable.
  - apply (forNodes_sameGraph _ (set_hiding _ world.1, world.2)), reapplyNode_stable.
Qed.

(** X10. No event edits what belongs to the host or to the user.
    After any sequence of events the graph has the same nodes in the
    same order, and every node has its id, its type, its inputs with
    their links, its width, its size function, and the names and
    values of its widgets as before. *)
Theorem X10_events_keep_node_data (actions : list Action) (world : World)
    (k : nat) (node : Node) :
  world.2 !! k = Some node →
  length (run actions world).2 = length world.2 ∧
  ∃ node',
    (run actions world).2 !! k = Some node' ∧
    nId node' = nId node ∧ comfyClass node' = comfyClass node ∧
    nInputs node' = nInputs node ∧ (nSize node').1 = (nSize node).1 ∧
    nComputeSize node' = nComputeSize node ∧
    (λ w, (wName w, wValue w)) <$> nWidgets node' =
    (λ w, (wName w, wValue w)) <$> nWidgets node.
Proof.
  intros Hk.
  assert (sameGraph world (run actions world)) as [Hlen Hnodes].
  { unfold run. apply (forEach_rel sameGraph);
      [apply sameGraph_refl|apply sameGraph_trans|].
    intros a w _. apply perform_sameGraph. }
  split; [done|]. destruct (Hnodes k node Hk) as (node' & Hk' & []).
  exists node'. by split_and!.
Qed.

Lemma X10_events_keep_node_data_witness :
  let world := (setup loaded, [hostedSampler; plainNode]) in
  let actions := [NodeCreated 0; HidingChanged true; Configure 0;
                  ConnectionsChange 0 0; MenuChoice 0 1;
                  DefaultChanged "extra_options" true] in
  length (run actions world).2 = length world.2 ∧
  ∃ node',
    (run actions world).2 !! 0%nat = Some node' ∧
    nId node' = nId hostedSampler ∧ comfyClass node' = comfyClass hostedSampler ∧
    nInputs node' = nInputs hostedSampler ∧
    (nSize node').1 = (nSize hostedSampler).1 ∧
    nComputeSize node' = nComputeSize hostedSampler ∧
    (λ w, (wName w, wValue w)) <$> nWidgets node' =
    (λ w, (wName w, wValue w)) <$> nWidgets hostedSampler.
Proof.
  intros world actions.
  apply (X10_events_keep_node_data actions world 0 hostedSampler).
  reflexivity.
Defined.

(** ** Hidden widgets can always be restored *)

Lemma restorable_mono g g' n :
  origProps g ⊆ origProps g' → restorable g n → restorable g' n.
Proof.
  intros Hsub H i w Hw Ht. destruct (H i w Hw Ht) as [p Hp].
  exists p. by eapply lookup_weaken.
Qed.

Lemma restorable_look g n n' :
  look <$> nWidgets n' = look <$> nWidgets n → restorable g n → restorable g n'.
Proof.
  intros Hl H i w' Hw' Ht.
  apply (f_equal (.!! i)) in Hl. rewrite !list_lookup_fmap, Hw' in Hl.
  destruct (nWidgets n !! i) as [w|] eqn:Hw; simpl in Hl; [|done].
  assert (wName w' = wName w ∧ wType w' = wType w) as [-> Hty]
    by (unfold look in Hl; split; congruence).
  apply (H i w Hw). congruence.
Qed.

Lemma forEach_inv {A S} (P : S → Prop) (f : A → S → S) l :
  (∀ a s, P s → P (f a s)) → ∀ s, P s → P (forEach f l s).
Proof.
  intros Hf. induction l as [|a l IH]; intros s Hs; [done|].
  rewrite forEach_cons. by apply IH, Hf.
Qed.

Lemma toggleWidget_sound node widget shouldShow g :
  sound (g, node) → sound (toggleWidget node widget shouldShow g).
Proof.
  intros [Hclean Hrest]. destruct widget as [i|]; [|done].
  destruct (nWidgets node !! i) as [w|] eqn:Hw;
    [|unfold toggleWidget; by rewrite Hw].
  rewrite (toggleWidget_Some _ _ _ _ _ Hw). simpl in *.
  assert (storeClean (set_origProps (captureOrig (origProps g) w).1 g)) as Hclean'.
  { intros name p. simpl. unfold captureOrig.
    destruct (origProps g !! wName w) as [p0|] eqn:E; simpl; [apply Hclean|].
    intros [[<- <-]|[_ Hp]]%lookup_insert_Some; [|by eapply Hclean].
    simpl. intros Ht. destruct (Hrest i w Hw Ht) as [? ?]. congruence. }
  split; [intros name p Hp; by apply (Hclean' name p)|].
  intros j wj Hj Ht. simpl in *.
  destruct (decide (j = i)) as [->|Hne].
  - rewrite list_lookup_insert_eq in Hj by by eapply lookup_lt_Some.
    injection Hj as <-. simpl. rewrite captureOrig_lookup. eauto.
  - rewrite list_lookup_insert_ne in Hj by done.
    destruct (Hrest j wj Hj Ht) as [p Hp]. exists p.
    eapply lookup_weaken; [exact Hp|apply captureOrig_mono].
Qed.

Lemma toggleNamed_sound show name s : sound s → sound (toggleNamed show name s).
Proof. destruct s. apply toggleWidget_sound. Qed.

Lemma createGenericHandler_sound cfg s : sound s → sound (createGenericHandler cfg s).
Proof.
  intros H. unfold createGenericHandler.
  destruct cfg as [groups|]; [|exact H].
  apply (forEach_inv sound); [|exact H].
  intros group s' Hs'. unfold applyGroup.
  apply (forEach_inv sound); [|exact Hs'].
  intros name s''. apply toggleNamed_sound.
Qed.

Lemma applyOptionalGroup_sound group s : sound s → sound (applyOptionalGroup group s).
Proof.
  intros H. rewrite applyOptionalGroup_toggleAll.
  apply (forEach_inv sound); [|exact H].
  intros name s''. apply toggleNamed_sound.
Qed.

Lemma handleConnectionChange_sound index s :
  sound s → sound (handleConnectionChange index s).
Proof.
  intros H. unfold handleConnectionChange. rewrite configOf_optional.
  destruct (_ ≫= optionalInputWidgets) as [groups|]; [|done].
  destruct (nInputs s.2 !! index) as [input|]; [|done].
  case_bool_decide; [done|].
  apply (forEach_inv sound); [|exact H].
  intros group s' Hs'. case_bool_decide; [|done].
  by apply applyOptionalGroup_sound.
Qed.

Lemma applyDefault_sound name s : sound s → sound (applyDefault name s).
Proof.
  intros H. unfold applyDefault. destruct (findWidget _ _); [|done].
  destruct (widgetToggleStates _ !! _); [done|].
  destruct s. by apply toggleWidget_sound.
Qed.

Lemma setupDynamicWidgets_sound cfg s : sound s → sound (setupDynamicWidgets cfg s).
Proof.
  intros H. unfold setupDynamicWidgets.
  set (s1 := forEach applyDefault _ _).
  set (s2 := createGenericHandler cfg s1).
  set (n1 := match cfg with Some _ => _ | None => _ end).
  set (n3 := if menuWrapped _ then _ else _).
  assert (sound s2) as [Hc2 Hr2].
  { apply createGenericHandler_sound. subst s1.
    apply (forEach_inv sound); [|exact H].
    intros name s'. apply applyDefault_sound. }
  assert (recalled s2.2 n1) as H1.
  { subst n1. destruct cfg; [apply setCallbacks_recalled|apply recalled_refl]. }
  assert (sound (s2.1, n3)) as H3.
  { split; [exact Hc2|]. simpl.
    apply (restorable_look _ n1).
    - subst n3. simpl. by destruct (menuWrapped n1).
    - apply (restorable_look _ s2.2); [apply H1|exact Hr2]. }
  destruct (_ ≫= optionalInputWidgets) as [groups|]; [|exact H3].
  apply (forEach_inv sound); [|exact H3].
  intros group s'. apply applyOptionalGroup_sound.
Qed.

Lemma nodeCreated_sound s : sound s → sound (nodeCreated s).
Proof.
  intros H. unfold nodeCreated. destruct (configOf _); [|done]. simpl.
  apply (setupDynamicWidgets_sound (dependentWidgets n)) in H.
  apply (createGenericHandler_sound (dependentWidgets n)) in H.
  exact H.
Qed.

Lemma run_onConfigure_sound h : ∀ s, sound s → sound (run_onConfigure h s).
Proof.
  induction h as [|tag|orig IH cfg]; intros s H; simpl; [done..|].
  by apply setupDynamicWidgets_sound, IH.
Qed.

Lemma run_onConnectionsChange_sound h index : ∀ s,
  sound s → sound (run_onConnectionsChange h index s).
Proof.
  induction h as [|tag|orig IH cfg]; intros s H; simpl; [done..|].
  by apply createGenericHandler_sound, handleConnectionChange_sound, IH.
Qed.

Lemma run_menuChoice_sound n s : sound s → sound (run_menuChoice n s).
Proof.
  intros [Hc Hr]. unfold run_menuChoice.
  pose proof (run_getExtraMenuOptions_node (getExtraMenuOptions s.2) [] s) as Hn.
  pose proof (run_getExtraMenuOptions_origProps (getExtraMenuOptions s.2) [] s) as Ho.
  destruct (run_getExtraMenuOptions _ _ _) as [s' options]. simpl in *.
  assert (sound s') as H'.
  { split.
    - intros name p. rewrite Ho. apply Hc.
    - rewrite Hn. intros i w Hw Ht. rewrite Ho. by eapply Hr. }
  destruct (options !! n) as [option|]; [|exact H'].
  destruct (callback option); simpl.
  - by apply createGenericHandler_sound.
  - destruct (toggleWidget_sound s'.2 (Some widget) (negb (negb isHidden))
                (set_toggleStates (<[key := negb isHidden]> (widgetToggleStates s'.1))
                   s'.1)) as [Hc1 Hr1]; [exact H'|].
    split; [exact Hc1|exact Hr1].
Qed.

Lemma applyNewDefault_sound name value s : sound s → sound (applyNewDefault name value s).
Proof.
  intros H. unfold applyNewDefault. destruct (configOf _); [|done].
  destruct (findWidget _ _); [|done].
  destruct (widgetToggleStates _ !! _); [done|].
  destruct s. by apply toggleWidget_sound.
Qed.

Lemma reapplyNode_sound s : sound s → sound (reapplyNode s).
Proof.
  intros H. unfold reapplyNode. destruct (configOf _); [|done].
  apply (forEach_inv sound); [|exact H].
  intros i s' Hs'. unfold reapply.
  destruct (nWidgets s'.2 !! i) as [w|]; [|done].
  destruct (wHidden w); [|done].
  destruct s'. by apply toggleWidget_sound.
Qed.

Lemma onNode_soundWorld k f world :
  Keeps f → (∀ s, sound s → sound (f s)) →
  soundWorld world → soundWorld (onNode k f world).
Proof.
  intros Hk Hf [Hc Hr]. unfold onNode.
  destruct (world.2 !! k) as [node|] eqn:Hnode; [|done].
  destruct (Hf (world.1, node)) as [Hc' Hr']; [split; [done|by eapply Hr]|].
  split; [exact Hc'|]. simpl. intros j nodej Hj.
  destruct (decide (j = k)) as [->|Hne].
  - rewrite list_lookup_insert_eq in Hj by by eapply lookup_lt_Some.
    by injection Hj as <-.
  - rewrite list_lookup_insert_ne in Hj by done.
    eapply restorable_mono; [apply (Hk (world.1, node))|by eapply Hr].
Qed.

Lemma forNodes_soundWorld f :
  (∀ s, stable s (f s)) → (∀ s, sound s → sound (f s)) →
  ∀ nodes g, soundWorld (g, nodes) → soundWorld (forNodes f nodes g).
Proof.
  intros Hst Hf. induction nodes as [|n nodes IH]; intros g [Hc Hr]; [done|].
  simpl in *.
  destruct (Hf (g, n)) as [Hc1 Hr1]; [split; [done|by apply (Hr 0%nat)]|].
  destruct (IH (f (g, n)).1) as [Hc2 Hr2].
  { split; [exact Hc1|]. simpl. intros k node Hk.
    eapply restorable_mono; [apply (st_orig _ _ (Hst (g, n)))|].
    by apply (Hr (S k)). }
  split; [exact Hc2|]. simpl. intros [|k] node Hk; simpl in Hk.
  - injection Hk as <-.
    eapply restorable_mono; [|exact Hr1].
    apply (forNodes_lookup f Hst nodes (f (g, n)).1).
  - by apply (Hr2 k).
Qed.

Lemma perform_soundWorld a world : soundWorld world → soundWorld (perform a world).
Proof.
  intros H. destruct a; simpl.
  - by apply onNode_soundWorld; [apply nodeCreated_Keeps|apply nodeCreated_sound|].
  - apply onNode_soundWorld; [| |done].
    + intros s. apply run_onConfigure_Keeps.
    + intros s. apply run_onConfigure_sound.
  - apply onNode_soundWorld; [| |done].
    + intros s. apply run_onAfterGraphConfigured_Keeps.
    + intros s Hs. destruct (onAfterGraphConfigured s.2); simpl; try done.
      destruct (nGraph s.2); [|done]. by apply createGenericHandler_sound.
  - apply onNode_soundWorld; [| |done].
    + intros s. apply run_onConnectionsChange_Keeps.
    + intros s. apply run_onConnectionsChange_sound.
  - apply onNode_soundWorld; [apply run_callback_Keeps| |done].
    intros s Hs. unfold run_callback.
    destruct (_ ≫= wCallback) as [[]|]; try done.
    by apply createGenericHandler_sound.
  - by apply onNode_soundWorld; [apply run_menuChoice_Keeps|apply run_menuChoice_sound|].
  - unfold onChangeDefault.
    apply forNodes_soundWorld;
      [apply applyNewDefault_stable|apply applyNewDefault_sound|exact H].
  - unfold onChangeHiding.
    apply forNodes_soundWorld;
      [apply reapplyNode_stable|apply reapplyNode_sound|exact H].
Qed.

(** X11. A widget is never lost behind the hidden tag. Start where
    nothing has been toggled yet: the store is empty and no widget
    carries the hidden tag. Then, after any sequence of events, every
    widget that carries the hidden tag has an entry in the store whose
    type is not the hidden tag, and a toggle that is to show any
    widget (or runs with hiding off) leaves it with a type that is not
    the hidden tag. *)
Theorem X11_show_always_shows (actions : list Action) (world : World)
    (k : nat) (node : Node) (i : nat) (w : Widget) (shouldShow : bool) :
  origProps world.1 = ∅ →
  (∀ j n v, world.2 !! j = Some n → v ∈ nWidgets n → wType v ≠ HIDDEN_TAG) →
  (run actions world).2 !! k = Some node →
  nWidgets node !! i = Some w →
  shouldShow || negb (ENABLE_WIDGET_HIDING (run actions world).1) = true →
  (wType w = HIDDEN_TAG →
   ∃ p, origProps (run actions world).1 !! wName w = Some p ∧
        origType p ≠ HIDDEN_TAG) ∧
  ∃ w',
    nWidgets (toggleWidget node (Some i) shouldShow (run actions world).1).2 !! i
      = Some w' ∧
    wType w' ≠ HIDDEN_TAG.
Proof.
  intros Hempty Hfresh Hk Hw Hvisible.
  assert (soundWorld (run actions world)) as [Hc Hr].
  { unfold run. apply (forEach_inv soundWorld).
    - intros a w0. apply perform_soundWorld.
    - split.
      + intros name p. by rewrite Hempty, lookup_empty.
      + intros j n Hj l v Hv Ht. exfalso.
        apply (Hfresh j n v Hj); [|done]. by eapply list_elem_of_lookup_2. }
  split.
  - intros Ht. destruct (Hr k node Hk i w Hw Ht) as [p Hp].
    exists p. split; [done|by eapply Hc].
  - destruct (toggleWidget_sound node (Some i) shouldShow (run actions world).1)
      as [Hc' _]; [split; [done|by eapply Hr]|].
    rewrite (toggleWidget_Some _ _ _ _ _ Hw) in *. simpl in *.
    eexists. split; [apply list_lookup_insert_eq; by eapply lookup_lt_Some|].
    simpl. rewrite Hvisible. apply (Hc' (wName w)). simpl.
    apply captureOrig_lookup.
Qed.

Lemma X11_show_always_shows_witness :
  let world := (setup loaded, [hostedSampler; plainNode]) in
  let actions := [NodeCreated 0; HidingChanged true; Configure 0] in
  let node := default plainNode ((run actions world).2 !! 0%nat) in
  let w := default (sampleWidget "" VUndefined "") (nWidgets node !! 1%nat) in
  (wType w = HIDDEN_TAG →
   ∃ p, origProps (run actions world).1 !! wName w = Some p ∧
        origType p ≠ HIDDEN_TAG) ∧
  ∃ w',
    nWidgets (toggleWidget node (Some 1%nat) true (run actions world).1).2 !! 1%nat
      = Some w' ∧
    wType w' ≠ HIDDEN_TAG.
Proof.
  intros world actions node w.
  apply (X11_show_always_shows actions world 0 node 1 w true).
  - reflexivity.
  - intros [|[|j]] n v Hn Hv; simpl in Hn; [| |by rewrite lookup_nil in Hn];
      injection Hn as <-;
      repeat (apply elem_of_cons in Hv as [->|Hv]; [by vm_compute|]);
      by apply elem_of_nil in Hv.
  - vm_compute; reflexivity.
  - vm_compute; reflexivity.
  - reflexivity.
Defined.

(** ** With hiding off *)

Lemma noShrink_refl s : noShrink s s.
Proof. intros H. split; [done|lia]. Qed.

Lemma noShrink_trans s1 s2 s3 : noShrink s1 s2 → noShrink s2 s3 → noShrink s1 s3.
Proof.
  intros H1 H2 H. destruct (H1 H) as [H' ?]. destruct (H2 H') as [? ?].
  split; [done|lia].
Qed.

Lemma toggleWidget_noShrink node widget shouldShow g :
  noShrink (g, node) (toggleWidget node widget shouldShow g).
Proof.
  destruct widget as [i|]; [|apply noShrink_refl].
  destruct (nWidgets node !! i) as [w|] eqn:Hw.
  - rewrite (toggleWidget_Some _ _ _ _ _ Hw). intros Hoff. simpl in *.
    split; [done|]. rewrite Hoff, orb_true_r. lia.
  - unfold toggleWidget. rewrite Hw. apply noShrink_refl.
Qed.

Lemma toggleAll_noShrink show l s : noShrink s (forEach (toggleNamed show) l s).
Proof.
  apply (forEach_rel noShrink); [apply noShrink_refl|apply noShrink_trans|].
  intros name [g node] _. apply toggleWidget_noShrink.
Qed.

Lemma createGenericHandler_noShrink cfg s : noShrink s (createGenericHandler cfg s).
Proof.
  unfold createGenericHandler.
  eapply (noShrink_trans _ (emit _ s.1, s.2)).
  { intros H. split; [done|simpl; lia]. }
  destruct cfg as [groups|]; [|apply noShrink_refl].
  apply (forEach_rel noShrink); [apply noShrink_refl|apply noShrink_trans|].
  intros group s' _. apply toggleAll_noShrink.
Qed.

Lemma applyOptionalGroups_noShrink groups s :
  noShrink s (forEach applyOptionalGroup groups s).
Proof.
  apply (forEach_rel noShrink); [apply noShrink_refl|apply noShrink_trans|].
  intros group s' _. rewrite applyOptionalGroup_toggleAll. apply toggleAll_noShrink.
Qed.

Lemma handleConnectionChange_noShrink index s :
  noShrink s (handleConnectionChange index s).
Proof.
  unfold handleConnectionChange. rewrite configOf_optional.
  destruct (_ ≫= optionalInputWidgets) as [groups|]; [|apply noShrink_refl].
  destruct (nInputs s.2 !! index) as [input|]; [|apply noShrink_refl].
  case_bool_decide; [apply noShrink_refl|].
  eapply (noShrink_trans _ (emit _ s.1, s.2)).
  { intros H0. split; [done|simpl; lia]. }
  apply (forEach_rel noShrink); [apply noShrink_refl|apply noShrink_trans|].
  intros group s' _. case_bool_decide; [|apply noShrink_refl].
  rewrite applyOptionalGroup_toggleAll. apply toggleAll_noShrink.
Qed.

Lemma setupDynamicWidgets_noShrink cfg s : noShrink s (setupDynamicWidgets cfg s).
Proof.
  unfold setupDynamicWidgets.
  set (s1 := forEach applyDefault _ _).
  set (s2 := createGenericHandler cfg s1).
  set (n1 := match cfg with Some _ => _ | None => _ end).
  set (n3 := if menuWrapped _ then _ else _).
  assert (noShrink s s2) as H2.
  { eapply noShrink_trans; [|apply createGenericHandler_noShrink]. subst s1.
    eapply (noShrink_trans _ (emit _ s.1, s.2)).
    { intros H0. split; [done|simpl; lia]. }
    apply (forEach_rel noShrink); [apply noShrink_refl|apply noShrink_trans|].
    intros name s' _. unfold applyDefault.
    destruct (findWidget _ _); [|apply noShrink_refl].
    destruct (widgetToggleStates _ !! _); [apply noShrink_refl|].
    destruct s'. apply toggleWidget_noShrink. }
  assert (nSize n3 = nSize s2.2) as H3.
  { assert (nSize n1 = nSize s2.2) as <-.
    { subst n1. destruct cfg; [|done]. apply setCallbacks_recalled. }
    subst n3. simpl. by destruct (menuWrapped n1). }
  assert (noShrink s (s2.1, n3)) as H4.
  { intros H0. destruct (H2 H0) as [? ?]. simpl. by rewrite H3. }
  destruct (_ ≫= optionalInputWidgets) as [groups|]; [|exact H4].
  eapply noShrink_trans; [exact H4|apply applyOptionalGroups_noShrink].
Qed.

(** X12. With the hiding switch off nothing makes a node shorter: the
    value-rule handler, the connection handler, a setup and
    [nodeCreated] all leave the node at least as high as it was. *)
Theorem X12_hiding_off_never_shrinks (cfg : option (list DependentGroup))
    (index : nat) (s : St) :
  ENABLE_WIDGET_HIDING s.1 = false →
  (nSize s.2).2 ≤ (nSize (createGenericHandler cfg s).2).2 ∧
  (nSize s.2).2 ≤ (nSize (handleConnectionChange index s).2).2 ∧
  (nSize s.2).2 ≤ (nSize (setupDynamicWidgets cfg s).2).2 ∧
  (nSize s.2).2 ≤ (nSize (nodeCreated s).2).2.
Proof.
  intros Hoff. split_and!.
  - by apply createGenericHandler_noShrink.
  - by apply handleConnectionChange_noShrink.
  - by apply setupDynamicWidgets_noShrink.
  - unfold nodeCreated. destruct (configOf _) as [config|]; [|lia]. simpl.
    apply (noShrink_trans s (setupDynamicWidgets (dependentWidgets config) s));
      [apply setupDynamicWidgets_noShrink|apply createGenericHandler_noShrink|done].
Qed.

Lemma X12_hiding_off_never_shrinks_witness :
  let cfg := Some commonDependentWidgets in
  let s := (setup loaded, clownSampler "gaussian" None None) in
  (nSize s.2).2 ≤ (nSize (createGenericHandler cfg s).2).2 ∧
  (nSize s.2).2 ≤ (nSize (handleConnectionChange 0 s).2).2 ∧
  (nSize s.2).2 ≤ (nSize (setupDynamicWidgets cfg s).2).2 ∧
  (nSize s.2).2 ≤ (nSize (nodeCreated s).2).2.
Proof.
  apply (X12_hiding_off_never_shrinks (Some commonDependentWidgets) 0
           (setup loaded, clownSampler "gaussian" None None)).
  reflexivity.
Defined.

(** ** The toggle entries of the menu *)

Lemma toggleOption_entry node g name i options :
  findWidget (nWidgets node) name = Some i →
  toggleOption node g name options =
    options ++ [toggleEntry node name i (effectiveHidden g node name)].
Proof. intros H. unfold toggleOption, toggleEntry, effectiveHidden. by rewrite H. Qed.

(** What choosing a toggle entry does. *)
Lemma menuToggle_result g node name i hidden :
  findWidget (nWidgets node) name = Some i →
  let s1 := run_menuCallback (CbToggle (stateKey node name) i hidden) (g, node) in
  stateKey s1.2 name = stateKey node name ∧
  findWidget (nWidgets s1.2) name = Some i ∧
  widgetToggleStates s1.1 !! stateKey node name = Some (negb hidden) ∧
  ENABLE_WIDGET_HIDING s1.1 = ENABLE_WIDGET_HIDING g ∧
  comfyClass s1.2 = comfyClass node ∧
  ∃ w1 p,
    nWidgets s1.2 !! i = Some w1 ∧ origProps s1.1 !! name = Some p ∧
    wHidden w1 = Some (negb hidden) ∧
    (if hidden || negb (ENABLE_WIDGET_HIDING g)
     then shownAs p w1 else hiddenAs w1).
Proof.
  intros Hf s1. subst s1. unfold run_menuCallback. rewrite negb_involutive.
  cbn [fst snd].
  set (g1 := set_toggleStates _ g).
  pose proof (toggleWidget_stable node (Some i) hidden g1) as Hst.
  pose proof (toggleNamed_target hidden name (g1, node) i Hf) as Ht.
  unfold toggleNamed in Ht. cbn [fst snd] in Ht. rewrite Hf in Ht.
  set (T := toggleWidget node (Some i) hidden g1) in *. clearbody T.
  destruct (toggled_at_result _ _ _ _ _ _ Ht (grown_refl _))
    as (w1 & p & ? & ? & ? & ?).
  pose proof (st_id _ _ Hst) as Hid. pose proof (stable_find _ _ name Hst) as Hfind.
  pose proof (st_states _ _ Hst) as Hstates.
  pose proof (st_hiding _ _ Hst) as Hhiding.
  pose proof (st_class _ _ Hst) as Hclass.
  simpl in *. split_and!.
  - unfold stateKey. by rewrite Hid.
  - by rewrite Hfind.
  - rewrite Hstates. apply lookup_insert_eq.
  - done.
  - done.
  - by exists w1, p.
Qed.

(** X13. Choosing the toggle entry of a widget sets the override of
    the node to the opposite of what the menu took the widget for,
    and toggles the widget accordingly: the entry "Show" shows it,
    the entry "Hide" hides it. From then on the node is passed over
    when the default of that widget changes and when a setup applies
    the defaults. *)
Theorem X13_menu_choice_sets_override (g : Globals) (node : Node) (name : string)
    (i : nat) (value : bool) :
  findWidget (nWidgets node) name = Some i →
  let hidden := effectiveHidden g node name in
  let s1 := run_menuCallback (callback (toggleEntry node name i hidden)) (g, node) in
  toggleOption node g name [] = [toggleEntry node name i hidden] ∧
  effectiveHidden s1.1 s1.2 name = negb hidden ∧
  (∃ w1 p,
     nWidgets s1.2 !! i = Some w1 ∧ origProps s1.1 !! name = Some p ∧
     wHidden w1 = Some (negb hidden) ∧
     (if hidden || negb (ENABLE_WIDGET_HIDING g)
      then shownAs p w1 else hiddenAs w1)) ∧
  applyNewDefault name value s1 = s1 ∧
  applyDefault name s1 = s1.
Proof.
  intros Hf hidden s1.
  destruct (menuToggle_result g node name i hidden Hf)
    as (Hkey & Hf1 & Hov & _ & _ & Hw).
  change (run_menuCallback (CbToggle (stateKey node name) i hidden) (g, node))
    with s1 in *.
  clearbody s1. split_and!.
  - by rewrite (toggleOption_entry _ _ _ i).
  - unfold effectiveHidden. by rewrite Hkey, Hov.
  - exact Hw.
  - unfold applyNewDefault. destruct (configOf _); [|done].
    by rewrite Hf1, Hkey, Hov.
  - unfold applyDefault. by rewrite Hf1, Hkey, Hov.
Qed.

Lemma X13_menu_choice_sets_override_witness :
  let node := clownSampler "gaussian" None None in
  let hidden := effectiveHidden hidingOn node "extra_options" in
  let s1 := run_menuCallback
              (callback (toggleEntry node "extra_options" 5 hidden)) (hidingOn, node) in
  toggleOption node hidingOn "extra_options" [] =
    [toggleEntry node "extra_options" 5 hidden] ∧
  effectiveHidden s1.1 s1.2 "extra_options" = negb hidden ∧
  (∃ w1 p,
     nWidgets s1.2 !! 5%nat = Some w1 ∧ origProps s1.1 !! "extra_options" = Some p ∧
     wHidden w1 = Some (negb hidden) ∧
     (if hidden || negb (ENABLE_WIDGET_HIDING hidingOn)
      then shownAs p w1 else hiddenAs w1)) ∧
  applyNewDefault "extra_options" false s1 = s1 ∧
  applyDefault "extra_options" s1 = s1.
Proof.
  apply (X13_menu_choice_sets_override hidingOn
           (clownSampler "gaussian" None None) "extra_options" 5 false).
  vm_compute; reflexivity.
Defined.

(** X14. Choosing the toggle entry twice, with the menu built anew in
    between, brings the override back to what the first menu took the
    widget for: the second menu offers the opposite entry, and after
    it the widget carries the first decision again. *)
Theorem X14_menu_choice_twice (g : Globals) (node : Node) (name : string) (i : nat) :
  findWidget (nWidgets node) name = Some i →
  let hidden := effectiveHidden g node name in
  let s1 := run_menuCallback (callback (toggleEntry node name i hidden)) (g, node) in
  let entry2 := toggleEntry s1.2 name i (negb hidden) in
  let s2 := run_menuCallback (callback entry2) s1 in
  toggleOption s1.2 s1.1 name [] = [entry2] ∧
  effectiveHidden s2.1 s2.2 name = hidden ∧
  ∃ w2 p,
    nWidgets s2.2 !! i = Some w2 ∧ origProps s2.1 !! name = Some p ∧
    wHidden w2 = Some hidden ∧
    (if negb hidden || negb (ENABLE_WIDGET_HIDING g)
     then shownAs p w2 else hiddenAs w2).
Proof.
  intros Hf hidden s1 entry2 s2.
  destruct (menuToggle_result g node name i hidden Hf)
    as (Hkey & Hf1 & Hov & Hhid & _ & _).
  change (run_menuCallback (CbToggle (stateKey node name) i hidden) (g, node))
    with s1 in *.
  assert (effectiveHidden s1.1 s1.2 name = negb hidden) as He
    by (unfold effectiveHidden; by rewrite Hkey, Hov).
  subst entry2. clearbody s1. destruct s1 as [g1 node1]. cbn [fst snd] in *.
  destruct (menuToggle_result g1 node1 name i (negb hidden) Hf1)
    as (Hkey2 & _ & Hov2 & _ & _ & Hw2).
  change (run_menuCallback (CbToggle (stateKey node1 name) i (negb hidden))
            (g1, node1)) with s2 in *.
  clearbody s2. split_and!.
  - rewrite (toggleOption_entry _ _ _ i) by done. by rewrite He.
  - unfold effectiveHidden. rewrite Hkey2, Hov2. apply negb_involutive.
  - destruct Hw2 as (w2 & p & ? & ? & Hflag & Hcase).
    exists w2, p. rewrite negb_involutive in Hflag. rewrite Hhid in Hcase.
    by split_and!.
Qed.

Lemma X14_menu_choice_twice_witness :
  let node := clownSampler "gaussian" None None in
  let hidden := effectiveHidden hidingOn node "extra_options" in
  let s1 := run_menuCallback
              (callback (toggleEntry node "extra_options" 5 hidden)) (hidingOn, node) in
  let entry2 := toggleEntry s1.2 "extra_options" 5 (negb hidden) in
  let s2 := run_menuCallback (callback entry2) s1 in
  toggleOption s1.2 s1.1 "extra_options" [] = [entry2] ∧
  effectiveHidden s2.1 s2.2 "extra_options" = hidden ∧
  ∃ w2 p,
    nWidgets s2.2 !! 5%nat = Some w2 ∧ origProps s2.1 !! "extra_options" = Some p ∧
    wHidden w2 = Some hidden ∧
    (if negb hidden || negb (ENABLE_WIDGET_HIDING hidingOn)
     then shownAs p w2 else hiddenAs w2).
Proof.
  apply (X14_menu_choice_twice hidingOn (clownSampler "gaussian" None None)
           "extra_options" 5).
  vm_compute; reflexivity.
Defined.

(** ** Running the value rules again *)

Lemma toggleNamed_miss show name s j :
  findWidget (nWidgets s.2) name ≠ Some j →
  nWidgets (toggleNamed show name s).2 !! j = nWidgets s.2 !! j.
Proof.
  intros Hne. unfold toggleNamed.
  destruct (findWidget (nWidgets s.2) name) as [i|] eqn:Hf; [|done].
  apply findWidget_Some in Hf as (wi & Hi & _).
  rewrite (toggleWidget_Some _ _ _ _ _ Hi). simpl.
  apply list_lookup_insert_ne. congruence.
Qed.

Lemma toggleAll_miss show l : ∀ s j,
  (∀ name, name ∈ l → findWidget (nWidgets s.2) name ≠ Some j) →
  nWidgets (forEach (toggleNamed show) l s).2 !! j = nWidgets s.2 !! j.
Proof.
  induction l as [|a l IH]; intros s j Hmiss; [done|].
  rewrite forEach_cons, IH.
  - apply toggleNamed_miss, Hmiss. by left.
  - intros name Hin.
    rewrite (stable_find _ _ name (toggleNamed_stable show a s)).
    apply Hmiss. by right.
Qed.

Lemma applyGroups_miss groups : ∀ s j,
  (∀ group name, group ∈ groups → name ∈ widgetsToShow group →
                 findWidget (nWidgets s.2) name ≠ Some j) →
  nWidgets (forEach applyGroup groups s).2 !! j = nWidgets s.2 !! j.
Proof.
  induction groups as [|group groups IH]; intros s j Hmiss; [done|].
  rewrite forEach_cons, IH.
  - apply toggleAll_miss. intros name. apply Hmiss. by left.
  - intros gr name Hgr Hname.
    rewrite (stable_find _ _ name (applyGroup_stable group s)).
    apply (Hmiss gr); [by right|done].
Qed.

(** Among the rules that list a name there is a last one. *)
Lemma last_rule (t : string) (groups : list DependentGroup) :
  (∃ group, group ∈ groups ∧ t ∈ widgetsToShow group) →
  ∃ pre group post,
    groups = pre ++ group :: post ∧ t ∈ widgetsToShow group ∧
    ∀ later, later ∈ post → t ∉ widgetsToShow later.
Proof.
  induction groups as [|g0 groups IH]; intros (group & Hin & Ht);
    [by apply elem_of_nil in Hin|].
  destruct (decide (Exists (λ gr, t ∈ widgetsToShow gr) groups)) as [Hex|Hno].
  - apply Exists_exists in Hex.
    destruct (IH Hex) as (pre & gr & post & -> & Hgr & Hpost).
    by exists (g0 :: pre), gr, post.
  - exists [], g0, groups. split; [done|].
    rewrite Exists_exists in Hno. split.
    + apply elem_of_cons in Hin as [->|Hin]; [done|]. destruct Hno. eauto.
    + intros later Hl Htl. apply Hno. eauto.
Qed.

(** X15. Running the value-rule handler a second time changes no
    widget: after the handler has run, another run of it on the same
    values leaves every widget of the node exactly as the first run
    left it (as the menu entry "Refresh RES4LYF widgets" does when
    nothing has been edited). *)
Theorem X15_handler_rerun_keeps_widgets (cfg : option (list DependentGroup)) (s : St) :
  let s1 := createGenericHandler cfg s in
  let s2 := createGenericHandler cfg s1 in
  nWidgets s2.2 = nWidgets s1.2.
Proof.
  intros s1 s2.
  pose proof (createGenericHandler_stable cfg s) as Hst1.
  pose proof (createGenericHandler_stable cfg s1) as Hst2.
  fold s1 in Hst1. fold s2 in Hst2.
  apply list_eq. intros i.
  destruct (nWidgets s1.2 !! i) as [w1|] eqn:Hw1.
  2:{ pose proof (st_core _ _ Hst2) as Hc.
      apply (f_equal (.!! i)) in Hc. rewrite !list_lookup_fmap, Hw1 in Hc.
      by destruct (nWidgets s2.2 !! i). }
  destruct cfg as [groups|]; [|done].
  destruct (decide (findWidget (nWidgets s1.2) (wName w1) = Some i ∧
                    Exists (λ gr, wName w1 ∈ widgetsToShow gr) groups))
    as [[Hf Hex]|Hno].
  - apply Exists_exists, last_rule in Hex.
    destruct Hex as (pre & group & post & -> & Ht & Hpost).
    assert (findWidget (nWidgets s.2) (wName w1) = Some i) as Hf0
      by by rewrite <- (stable_find _ _ _ Hst1).
    destruct (createGenericHandler_last pre group post s _ i Ht Hpost Hf0)
      as (w0 & p1 & Hw0 & Hp1 & Hres1).
    destruct (createGenericHandler_last pre group post s1 _ i Ht Hpost Hf)
      as (w1' & p2 & Hw1' & Hp2 & Hres2).
    fold s1 in Hp1, Hres1. fold s2 in Hp2, Hres2.
    rewrite Hw1 in Hw1'. injection Hw1' as <-.
    assert (p2 = p1) as ->.
    { pose proof (lookup_weaken _ _ _ _ Hp1 (st_orig _ _ Hst2)) as H. congruence. }
    rewrite Hres2. rewrite Hw1 in Hres1. injection Hres1 as Hw1eq.
    rewrite (st_hiding _ _ Hst1).
    rewrite (showWidgets_core _ _ group (st_core _ _ Hst1)).
    f_equal. rewrite Hw1eq. by apply toggled_core.
  - rewrite <- Hw1. unfold s2, createGenericHandler.
    apply (applyGroups_miss groups (emit _ s1.1, s1.2)).
    intros group name Hgroup Hname Hfind. apply Hno.
    destruct (findWidget_Some _ _ _ Hfind) as (w & Hw & Hn). simpl in Hw.
    rewrite Hw1 in Hw. injection Hw as <-. subst name.
    split; [exact Hfind|]. apply Exists_exists. eauto.
Qed.

(** ** What a setup leaves alone *)

Lemma applyDefault_spares a s j w :
  nWidgets s.2 !! j = Some w →
  wName w ≠ a ∨ is_Some (widgetToggleStates s.1 !! stateKey s.2 a) →
  nWidgets (applyDefault a s).2 !! j = Some w.
Proof.
  intros Hj Hor. unfold applyDefault.
  destruct (findWidget (nWidgets s.2) a) as [i|] eqn:Hf; [|done].
  destruct (widgetToggleStates s.1 !! stateKey s.2 a) eqn:Hov; [done|].
  destruct Hor as [Hne|[? ?]]; [|done].
  pose proof (toggleNamed_other (negb (default false (DEFAULT_WIDGET_STATES s.1 !! a)))
                a s j w Hj Hne) as H.
  unfold toggleNamed in H. by rewrite Hf in H.
Qed.

Lemma applyDefaults_spares names s j w :
  nWidgets s.2 !! j = Some w →
  (∀ a, a ∈ names →
        wName w ≠ a ∨ is_Some (widgetToggleStates s.1 !! stateKey s.2 a)) →
  nWidgets (forEach applyDefault names s).2 !! j = Some w.
Proof.
  intros Hj Hor.
  assert (nWidgets (forEach applyDefault names s).2 !! j = Some w ∧
          widgetToggleStates (forEach applyDefault names s).1 = widgetToggleStates s.1 ∧
          nId (forEach applyDefault names s).2 = nId s.2) as [H _]; [|done].
  revert s Hj Hor. induction names as [|a names IH]; intros s Hj Hor; [done|].
  rewrite forEach_cons.
  pose proof (applyDefault_stable a s) as Hst.
  destruct (IH (applyDefault a s)) as (H1 & H2 & H3).
  - apply applyDefault_spares; [done|]. apply Hor. by left.
  - intros b Hb. unfold stateKey.
    rewrite (st_states _ _ Hst), (st_id _ _ Hst). apply Hor. by right.
  - split_and!; [done|..]; [by rewrite H2, (st_states _ _ Hst)|
                            by rewrite H3, (st_id _ _ Hst)].
Qed.

Lemma setCallback_spares cfg c n j w :
  nWidgets n !! j = Some w → wName w ≠ c →
  nWidgets (setCallback cfg c n) !! j = Some w.
Proof.
  intros Hj Hne. unfold setCallback.
  destruct (list_find _ _) as [[i wi]|] eqn:E; [|done].
  apply list_find_Some in E as (Hi & Hn & _). simpl.
  rewrite list_lookup_insert_ne; [done|]. intros ->. congruence.
Qed.

Lemma setCallbacks_spares cfg (groups : list DependentGroup) n j w :
  nWidgets n !! j = Some w →
  (∀ group, group ∈ groups → wName w ∉ inputWidgetNames group) →
  nWidgets (forEach (λ group, forEach (setCallback cfg) (inputWidgetNames group))
              groups n) !! j = Some w.
Proof.
  revert n. induction groups as [|group groups IH]; intros n Hj Hnot; [done|].
  rewrite forEach_cons. apply IH; [|intros gr Hgr; apply Hnot; by right].
  assert (wName w ∉ inputWidgetNames group) as Hg by (apply Hnot; by left).
  clear -Hj Hg. revert n Hj.
  induction (inputWidgetNames group) as [|c l IHl]; intros n Hj; [done|].
  apply not_elem_of_cons in Hg as [Hc Hl]. rewrite forEach_cons.
  apply IHl; [done|]. by apply setCallback_spares.
Qed.

(** A setup leaves alone a widget that no rule names, neither as a
    controlling widget nor as one to show, and that is no toggleable
    widget without an override. *)
Lemma setup_spares cfg s j w :
  nWidgets s.2 !! j = Some w →
  (∀ a, a ∈ TOGGLEABLE_WIDGETS.*1 →
        wName w ≠ a ∨ is_Some (widgetToggleStates s.1 !! stateKey s.2 a)) →
  (∀ group, group ∈ default [] cfg →
            (wName w ∉ widgetsToShow group) ∧ (wName w ∉ inputWidgetNames group)) →
  (∀ group,
     group ∈ default [] ((nodeConfigs !! comfyClass s.2) ≫= optionalInputWidgets) →
     wName w ∉ widgets group) →
  nWidgets (setupDynamicWidgets cfg s).2 !! j = Some w.
Proof.
  intros Hj Hdef Hrules Hopt. unfold setupDynamicWidgets.
  set (s1 := forEach applyDefault _ _).
  set (s2 := createGenericHandler cfg s1).
  set (n1 := match cfg with Some _ => _ | None => _ end).
  set (n3 := if menuWrapped _ then _ else _).
  assert (nWidgets s2.2 !! j = Some w) as H2.
  { apply createGenericHandler_spares; [|intros g Hg; by apply Hrules].
    subst s1. by apply (applyDefaults_spares _ (emit _ s.1, s.2)). }
  assert (nWidgets n1 !! j = Some w) as H1.
  { subst n1. destruct cfg as [groups|]; [|done].
    apply setCallbacks_spares; [done|]. intros g Hg. by apply Hrules. }
  assert (nWidgets n3 = nWidgets n1) as H3
    by (subst n3; simpl; by destruct (menuWrapped n1)).
  assert (comfyClass n3 = comfyClass s.2) as Hc.
  { assert (comfyClass n3 = comfyClass n1) as ->
      by (subst n3; simpl; by destruct (menuWrapped n1)).
    assert (comfyClass n1 = comfyClass s2.2) as ->.
    { subst n1. destruct cfg; [|done]. apply setCallbacks_recalled. }
    etrans; [apply (st_class _ _ (createGenericHandler_stable cfg s1))|].
    apply (st_class _ _ (rules_stable applyDefault applyDefault_stable _
                           (emit (EvSetup (comfyClass s.2)) s.1, s.2))). }
  rewrite Hc, configOf_optional. rewrite <- H3 in H1.
  destruct (_ ≫= optionalInputWidgets) as [groups|]; [|exact H1].
  by apply (rules_other applyOptionalGroup widgets applyOptionalGroup_other
              groups (s2.1, n3)).
Qed.

Lemma toggleable_cases name :
  name ∈ TOGGLEABLE_WIDGETS.*1 →
  name = "extra_options" ∨ name = "truncate_conditioning".
Proof.
  simpl. intros [->|H]%elem_of_cons; [auto|].
  apply list_elem_of_singleton in H. auto.
Qed.

(** X16. A setup does not touch a toggleable widget that has an
    override. On a node of a configured type, a widget named
    [extra_options] or [truncate_conditioning] whose key is in
    [widgetToggleStates] is, after [setupDynamicWidgets], exactly the
    widget it was: neither the defaults nor any rule reach it, and
    the override itself is not applied again. *)
Theorem X16_setup_spares_overridden (s : St) (config : NodeConfig) (name : string)
    (j : nat) (w : Widget) :
  nodeConfigs !! comfyClass s.2 = Some config →
  name ∈ TOGGLEABLE_WIDGETS.*1 →
  nWidgets s.2 !! j = Some w →
  wName w = name →
  is_Some (widgetToggleStates s.1 !! stateKey s.2 name) →
  nWidgets (setupDynamicWidgets (dependentWidgets config) s).2 !! j = Some w.
Proof.
  intros Hcfg Hname Hj Hw Hov.
  destruct (nodeConfigs_entries _ _ Hcfg) as [Hdep Hopt].
  apply setup_spares; [done|..].
  - intros a _. destruct (decide (wName w = a)) as [Ha|]; [right|by left].
    by rewrite <- Ha, Hw.
  - rewrite Hdep. simpl. rewrite Hw. clear -Hname.
    intros group Hgroup. apply toggleable_cases in Hname.
    unfold commonDependentWidgets in Hgroup.
    repeat (apply elem_of_cons in Hgroup as [->|Hgroup];
            [destruct Hname as [-> | ->]; split; apply (bool_decide_unpack _);
             by vm_compute|]).
    by apply elem_of_nil in Hgroup.
  - rewrite Hcfg. simpl. rewrite Hw. clear -Hname Hopt.
    intros group Hgroup. apply toggleable_cases in Hname.
    destruct Hopt as [Ho|[Ho|Ho]]; rewrite Ho in Hgroup; simpl in Hgroup;
      repeat (apply elem_of_cons in Hgroup as [->|Hgroup];
              [destruct Hname as [-> | ->]; apply (bool_decide_unpack _);
               by vm_compute|]);
      by apply elem_of_nil in Hgroup.
Qed.

Lemma X16_setup_spares_overridden_witness :
  let node := clownSampler "gaussian" None None in
  nWidgets (setupDynamicWidgets (Some commonDependentWidgets) (withOverride, node)).2
    !! 5%nat = Some (sampleWidget "extra_options" (VStr "") "customtext").
Proof.
  apply (X16_setup_spares_overridden
           (withOverride, clownSampler "gaussian" None None)
           (createNodeConfig "ClownSampler" (withOptional [guideGroup; maskGroup]))
           "extra_options" 5).
  - vm_compute; reflexivity.
  - by left.
  - reflexivity.
  - reflexivity.
  - vm_compute. eexists. reflexivity.
Defined.

(** ** The keys of the override store *)

Lemma pretty_N_char_plain x : pretty_N_char x ≠ "_"%char.
Proof. unfold pretty_N_char. by repeat case_match. Qed.

Lemma pretty_N_go_plain x : ∀ s, plain s → plain (pretty_N_go x s).
Proof.
  induction (N.lt_wf_0 x) as [x _ IH]; intros s Hs.
  assert (x = 0 ∨ 0 < x)%N as [->|?] by lia.
  - by rewrite pretty_N_go_0.
  - rewrite pretty_N_go_step by done. apply IH.
    + by apply N.div_lt.
    + split; [apply pretty_N_char_plain|done].
Qed.

Lemma pretty_N_plain (x : N) : plain (pretty x).
Proof.
  unfold pretty, pretty_N. case_decide; [by split|].
  by apply pretty_N_go_plain.
Qed.

Lemma pretty_Z_plain (z : Z) : plain (pretty z).
Proof.
  unfold pretty, pretty_Z. destruct z as [|x|x].
  - by split.
  - apply pretty_N_plain.
  - split; [done|]. apply pretty_N_plain.
Qed.

Lemma plain_prefix_inj a : ∀ b x y,
  plain a → plain b →
  a +:+ String "_"%char x = b +:+ String "_"%char y → a = b ∧ x = y.
Proof.
  induction a as [|c a IH]; intros [|d b] x y Ha Hb Heq; simpl in *.
  - by injection Heq.
  - injection Heq as <- _. by destruct Hb.
  - injection Heq as -> _. by destruct Ha.
  - injection Heq as -> Heq. destruct Ha as [_ Ha], Hb as [_ Hb].
    destruct (IH b x y Ha Hb Heq) as [-> ->]. done.
Qed.

Lemma stateKey_inj n1 n2 a b :
  stateKey n1 a = stateKey n2 b → nId n1 = nId n2 ∧ a = b.
Proof.
  unfold stateKey. intros H.
  apply (plain_prefix_inj (pretty (nId n1)) (pretty (nId n2)) a b) in H
    as [H ->]; [|apply pretty_Z_plain..].
  split; [|done]. by apply (inj pretty).
Qed.

(** X17. The key of the override store tells the node and the widget
    apart: two keys are equal only for the same node id and the same
    widget name, so the override of one node is never read or written
    for another. *)
Theorem X17_override_key_injective (n1 n2 : Node) (a b : string) :
  stateKey n1 a = stateKey n2 b ↔ (nId n1 = nId n2 ∧ a = b).
Proof.
  split; [apply stateKey_inj|].
  intros [Hid ->]. unfold stateKey. by rewrite Hid.
Qed.

(** X18. Choosing the toggle entry of one widget of one node writes
    one override: the entry of every other widget, and of every node
    with another id, is as it was, as are the defaults and the hiding
    switch. *)
Theorem X18_menu_choice_writes_one_override (g : Globals) (node other : Node)
    (name name' : string) (i : nat) (hidden : bool) :
  nId other ≠ nId node ∨ name' ≠ name →
  let s1 := run_menuCallback (callback (toggleEntry node name i hidden)) (g, node) in
  widgetToggleStates s1.1 !! stateKey other name' =
    widgetToggleStates g !! stateKey other name' ∧
  DEFAULT_WIDGET_STATES s1.1 = DEFAULT_WIDGET_STATES g ∧
  ENABLE_WIDGET_HIDING s1.1 = ENABLE_WIDGET_HIDING g.
Proof.
  intros Hother s1. subst s1. unfold run_menuCallback, toggleEntry, callback.
  cbn [fst snd]. set (g1 := set_toggleStates _ g).
  pose proof (toggleWidget_stable node (Some i) (negb (negb hidden)) g1) as Hst.
  set (T := toggleWidget node (Some i) (negb (negb hidden)) g1) in *. clearbody T.
  pose proof (st_states _ _ Hst) as Hs. pose proof (st_defaults _ _ Hst) as Hd.
  pose proof (st_hiding _ _ Hst) as Hh. simpl in *.
  split_and!; [|done..].
  rewrite Hs. apply lookup_insert_ne. intros Heq.
  apply stateKey_inj in Heq as [Hid Hn]. destruct Hother; congruence.
Qed.

Lemma X18_menu_choice_writes_one_override_witness :
  let node := clownSampler "gaussian" None None in
  let s1 := run_menuCallback (callback (toggleEntry node "extra_options" 5 false))
              (withOverride, node) in
  widgetToggleStates s1.1 !! stateKey plainNode "extra_options" =
    widgetToggleStates withOverride !! stateKey plainNode "extra_options" ∧
  DEFAULT_WIDGET_STATES s1.1 = DEFAULT_WIDGET_STATES withOverride ∧
  ENABLE_WIDGET_HIDING s1.1 = ENABLE_WIDGET_HIDING withOverride.
Proof.
  apply (X18_menu_choice_writes_one_override withOverride
           (clownSampler "gaussian" None None) plainNode
           "extra_options" "extra_options" 5 false).
  left. vm_compute. discriminate.
Defined.

(** ** The callbacks a setup installs *)

Lemma findWidget_names ws ws' name :
  wName <$> ws = wName <$> ws' → findWidget ws name = findWidget ws' name.
Proof.
  unfold findWidget. revert ws'.
  induction ws as [|w ws IH]; intros [|w' ws'] Heq; try done.
  rewrite !fmap_cons in Heq.
  assert (wName w = wName w') as Hn by congruence.
  assert (wName <$> ws = wName <$> ws') as Hrest by congruence.
  specialize (IH ws' Hrest). simpl.
  destruct (decide (wName w = name)), (decide (wName w' = name));
    simpl; try congruence.
  destruct (list_find _ ws) as [[] |], (list_find _ ws') as [[] |];
    simpl in *; congruence.
Qed.

Lemma recalled_find n n' name :
  recalled n n' → findWidget (nWidgets n') name = findWidget (nWidgets n) name.
Proof.
  intros H. apply findWidget_names.
  pose proof (rc_look _ _ H) as Hl.
  apply (f_equal (fmap (λ c : string * JsValue * string * option SizeFn *
                              option Z * option bool, c.1.1.1.1.1))) in Hl.
  by rewrite <- !list_fmap_compose in Hl.
Qed.

Lemma setCallback_installs cfg c n i :
  findWidget (nWidgets n) c = Some i →
  ∃ w, nWidgets (setCallback cfg c n) !! i = Some w ∧
       wCallback w = Some (OnNodeChange cfg).
Proof.
  unfold findWidget, setCallback.
  destruct (list_find _ _) as [[k wk]|] eqn:E; [|done].
  intros [= ->]. apply list_find_Some in E as (Hk & _).
  eexists. simpl.
  split; [apply list_lookup_insert_eq; by eapply lookup_lt_Some|reflexivity].
Qed.

Lemma setCallback_keeps cfg name n i :
  (∃ w, nWidgets n !! i = Some w ∧ wCallback w = Some (OnNodeChange cfg)) →
  ∃ w, nWidgets (setCallback cfg name n) !! i = Some w ∧
       wCallback w = Some (OnNodeChange cfg).
Proof.
  intros (w & Hw & Hc). unfold setCallback.
  destruct (list_find _ _) as [[k wk]|] eqn:E; [|eauto].
  apply list_find_Some in E as (Hk & _). simpl.
  destruct (decide (k = i)) as [->|Hne].
  - eexists.
    split; [apply list_lookup_insert_eq; by eapply lookup_lt_Some|reflexivity].
  - exists w. by rewrite list_lookup_insert_ne.
Qed.

Lemma setCallbacks_install cfg (groups : list DependentGroup) group c i : ∀ n,
  group ∈ groups → c ∈ inputWidgetNames group →
  findWidget (nWidgets n) c = Some i →
  ∃ w, nWidgets (forEach (λ group, forEach (setCallback cfg) (inputWidgetNames group))
                   groups n) !! i = Some w ∧
       wCallback w = Some (OnNodeChange cfg).
Proof.
  assert (∀ l n,
            (∃ w, nWidgets n !! i = Some w ∧ wCallback w = Some (OnNodeChange cfg)) →
            ∃ w, nWidgets (forEach (setCallback cfg) l n) !! i = Some w ∧
                 wCallback w = Some (OnNodeChange cfg)) as Hkeep.
  { intros l n.
    apply (forEach_inv
             (λ n, ∃ w, nWidgets n !! i = Some w ∧
                        wCallback w = Some (OnNodeChange cfg))
             (setCallback cfg)).
    intros a n'. apply setCallback_keeps. }
  assert (∀ l n, c ∈ l → findWidget (nWidgets n) c = Some i →
            ∃ w, nWidgets (forEach (setCallback cfg) l n) !! i = Some w ∧
                 wCallback w = Some (OnNodeChange cfg)) as Hinner.
  { induction l as [|a l IH]; intros n Hin Hf; [by apply elem_of_nil in Hin|].
    rewrite forEach_cons. destruct (decide (a = c)) as [->|Hne].
    - by apply Hkeep, setCallback_installs.
    - apply elem_of_cons in Hin as [?|Hin]; [done|]. apply IH; [done|].
      by rewrite (recalled_find _ _ c (setCallback_recalled cfg a n)). }
  induction groups as [|g0 groups IH]; intros n Hgroup Hc Hf;
    [by apply elem_of_nil in Hgroup|].
  rewrite forEach_cons.
  destruct (decide (c ∈ inputWidgetNames g0)) as [Hin|Hnot].
  - apply (forEach_inv
             (λ n, ∃ w, nWidgets n !! i = Some w ∧
                        wCallback w = Some (OnNodeChange cfg))
             (λ group, forEach (setCallback cfg) (inputWidgetNames group))).
    + intros gr n'. apply Hkeep.
    + by apply Hinner.
  - apply elem_of_cons in Hgroup as [->|Hgroup]; [done|].
    apply IH; [done..|].
    assert (recalled n (forEach (setCallback cfg) (inputWidgetNames g0) n)) as Hr.
    { apply (forEach_rel recalled); [apply recalled_refl|apply recalled_trans|].
      intros a n' _. apply setCallback_recalled. }
    by rewrite (recalled_find _ _ c Hr).
Qed.

(** X19. A setup makes the value-rule handler the callback of every
    controlling widget the node has, in place of whatever callback the
    widget had; a value edit on such a widget therefore runs the
    handler. Widgets that no rule names as controlling keep the
    callback they had. *)
Theorem X19_setup_installs_callbacks (groups : list DependentGroup)
    (group : DependentGroup) (c : string) (i : nat) (s : St) :
  group ∈ groups → c ∈ inputWidgetNames group →
  findWidget (nWidgets s.2) c = Some i →
  let s' := setupDynamicWidgets (Some groups) s in
  (∃ w', nWidgets s'.2 !! i = Some w' ∧
         wCallback w' = Some (OnNodeChange (Some groups))) ∧
  run_callback i s' = createGenericHandler (Some groups) s' ∧
  (∀ j w, nWidgets s.2 !! j = Some w →
          (∀ gr, gr ∈ groups → wName w ∉ inputWidgetNames gr) →
          ∃ w', nWidgets s'.2 !! j = Some w' ∧ wCallback w' = wCallback w).
Proof.
  intros Hgroup Hc Hf s'. subst s'. unfold setupDynamicWidgets.
  set (s1 := forEach applyDefault _ _).
  set (s2 := createGenericHandler (Some groups) s1).
  set (n1 := forEach _ groups s2.2).
  set (n3 := if menuWrapped _ then _ else _).
  assert (stable s s2) as H2.
  { eapply stable_trans; [|apply createGenericHandler_stable].
    eapply (stable_trans _ (emit _ s.1, s.2)); [by split|].
    apply (rules_stable applyDefault applyDefault_stable). }
  assert (nWidgets n3 = nWidgets n1) as H3
    by (subst n3; simpl; by destruct (menuWrapped n1)).
  set (r := match _ ≫= optionalInputWidgets with
            | Some gs => forEach applyOptionalGroup gs (s2.1, n3)
            | None => (s2.1, n3) end).
  assert (stable (s2.1, n3) r) as Hr.
  { subst r. destruct (_ ≫= optionalInputWidgets) as [gs|]; [|apply stable_refl].
    apply (rules_stable applyOptionalGroup applyOptionalGroup_stable). }
  clearbody r.
  assert (∃ w', nWidgets r.2 !! i = Some w' ∧
                wCallback w' = Some (OnNodeChange (Some groups))) as Hinst.
  { destruct (setCallbacks_install (Some groups) groups group c i s2.2 Hgroup Hc)
      as (w1 & Hw1 & Hcb); [by rewrite (stable_find _ _ c H2)|].
    fold n1 in Hw1. rewrite <- H3 in Hw1.
    destruct (stable_lookup _ _ i w1 Hr Hw1) as (w' & Hw' & Hcore).
    exists w'. split; [done|]. unfold core in Hcore. congruence. }
  split_and!.
  - exact Hinst.
  - destruct Hinst as (w' & Hw' & Hcb). unfold run_callback.
    by rewrite Hw'; simpl; rewrite Hcb.
  - intros j w Hj Hnot.
    destruct (stable_lookup _ _ j w H2 Hj) as (w2 & Hw2 & Hcore2).
    assert (nWidgets n3 !! j = Some w2) as Hn3.
    { rewrite H3. subst n1. apply setCallbacks_spares; [done|].
      intros gr Hgr. replace (wName w2) with (wName w)
        by (unfold core in Hcore2; congruence).
      by apply Hnot. }
    destruct (stable_lookup _ _ j w2 Hr Hn3) as (w' & Hw' & Hcore).
    exists w'. split; [done|]. unfold core in *. congruence.
Qed.

Lemma X19_setup_installs_callbacks_witness :
  let s := (hidingOn, clownSampler "gaussian" None None) in
  let s' := setupDynamicWidgets (Some commonDependentWidgets) s in
  (∃ w', nWidgets s'.2 !! 0%nat = Some w' ∧
         wCallback w' = Some (OnNodeChange (Some commonDependentWidgets))) ∧
  run_callback 0 s' = createGenericHandler (Some commonDependentWidgets) s' ∧
  (∀ j w, nWidgets s.2 !! j = Some w →
          (∀ gr, gr ∈ commonDependentWidgets → wName w ∉ inputWidgetNames gr) →
          ∃ w', nWidgets s'.2 !! j = Some w' ∧ wCallback w' = wCallback w).
Proof.
  apply (X19_setup_installs_callbacks commonDependentWidgets
           {| inputWidgetNames := ["noise_type"; "noise_sampler_type"];
              independentValues := [VStr "fractal"];
              widgetsToShow := ["alpha"; "k"] |}
           "noise_type" 0 (hidingOn, clownSampler "gaussian" None None)).
  - by left.
  - by left.
  - vm_compute; reflexivity.
Defined.

(** ** The hooks after node creation *)

Lemma setup_other_hooks cfg s :
  onConfigure (setupDynamicWidgets cfg s).2 = onConfigure s.2 ∧
  onAfterGraphConfigured (setupDynamicWidgets cfg s).2 = onAfterGraphConfigured s.2.
Proof.
  destruct (setup_anatomy cfg s) as (s2 & n1 & n3 & H2 & H1 & -> & H3).
  rewrite (st_configure _ _ H3), (st_after _ _ H3). simpl.
  assert (onConfigure n1 = onConfigure s.2) as Hc
    by by rewrite (rc_configure _ _ H1), (st_configure _ _ H2).
  assert (onAfterGraphConfigured n1 = onAfterGraphConfigured s.2) as Ha
    by by rewrite (rc_after _ _ H1), (st_after _ _ H2).
  rewrite <- Hc, <- Ha. by destruct (menuWrapped n1).
Qed.

(** X20. What [nodeCreated] leaves in the hook slots of a node of a
    configured type: [onConfigure] and [onConnectionsChange] hold a
    wrapper around the handler that was there, so that handler still
    runs first; the menu hook holds one unless the flag was set
    already; [onAfterGraphConfigured] holds the new function alone,
    whatever was there before. *)
Theorem X20_hooks_after_nodeCreated (s : St) (config : NodeConfig) :
  nodeConfigs !! comfyClass s.2 = Some config →
  let cfg := dependentWidgets config in
  let s' := nodeCreated s in
  onConfigure s'.2 = ConfigureWrap (onConfigure s.2) cfg ∧
  onConnectionsChange s'.2 = ConnWrap (onConnectionsChange s.2) cfg ∧
  getExtraMenuOptions s'.2 =
    (if menuWrapped s.2 then getExtraMenuOptions s.2
     else MenuWrap (getExtraMenuOptions s.2) cfg) ∧
  menuWrapped s'.2 = true ∧
  onAfterGraphConfigured s'.2 = GraphConfiguredSet cfg ∧
  (∀ s0, run_onConfigure (onConfigure s'.2) s0 =
         setupDynamicWidgets cfg (run_onConfigure (onConfigure s.2) s0)).
Proof.
  intros Hcfg cfg s'. subst s'. unfold nodeCreated.
  rewrite (configOf_own _ _ Hcfg). fold cfg.
  cbn [fst snd].
  pose proof (createGenericHandler_stable cfg (setupDynamicWidgets cfg s)) as Hst.
  set (s2 := createGenericHandler cfg (setupDynamicWidgets cfg s)) in *.
  clearbody s2.
  destruct (setup_other_hooks cfg s) as [Hc _].
  destruct (setup_menu cfg s) as [Hw Hm].
  pose proof (setupDynamicWidgets_wraps cfg s) as Hconn.
  pose proof (st_configure _ _ Hst) as E1. pose proof (st_conn _ _ Hst) as E2.
  pose proof (st_menu _ _ Hst) as E3. pose proof (st_wrapped _ _ Hst) as E4.
  simpl. rewrite E1, E2, E3, E4, Hc, Hconn, Hm, Hw. done.
Qed.

Lemma X20_hooks_after_nodeCreated_witness :
  let cfg := Some commonDependentWidgets in
  let s := (setup loaded, hostedSampler) in
  let s' := nodeCreated s in
  onConfigure s'.2 = ConfigureWrap (onConfigure s.2) cfg ∧
  onConnectionsChange s'.2 = ConnWrap (onConnectionsChange s.2) cfg ∧
  getExtraMenuOptions s'.2 =
    (if menuWrapped s.2 then getExtraMenuOptions s.2
     else MenuWrap (getExtraMenuOptions s.2) cfg) ∧
  menuWrapped s'.2 = true ∧
  onAfterGraphConfigured s'.2 = GraphConfiguredSet cfg ∧
  (∀ s0, run_onConfigure (onConfigure s'.2) s0 =
         setupDynamicWidgets cfg (run_onConfigure (onConfigure s.2) s0)).
Proof.
  apply (X20_hooks_after_nodeCreated (setup loaded, hostedSampler)
           (createNodeConfig "ClownSampler" (withOptional [guideGroup; maskGroup]))).
  vm_compute; reflexivity.
Defined.

(** ** Widgets the hiding switch passes over *)

Lemma reapply_unflagged l : ∀ s j w,
  nWidgets s.2 !! j = Some w → wHidden w = None →
  nWidgets (forEach reapply l s).2 !! j = Some w.
Proof.
  induction l as [|a l IH]; intros s j w Hj Hflag; [done|].
  rewrite forEach_cons. apply IH; [|done].
  destruct (decide (j = a)) as [<-|Hne].
  - unfold reapply. by rewrite Hj, Hflag.
  - by rewrite reapply_other.
Qed.

Lemma reapply_none l : ∀ s,
  (∀ j w, nWidgets s.2 !! j = Some w → wHidden w = None) →
  forEach reapply l s = s.
Proof.
  induction l as [|a l IH]; intros s Hnone; [done|].
  rewrite forEach_cons.
  assert (reapply a s = s) as ->; [|by apply IH].
  unfold reapply. destruct (nWidgets s.2 !! a) as [w|] eqn:Hw; [|done].
  by rewrite (Hnone a w Hw).
Qed.

(** X21. The hiding switch reaches only widgets that have been
    toggled before. A widget without the flag is the same after the
    switch has changed, and a node none of whose widgets has the flag
    is handed back unchanged, its size included. *)
Theorem X21_switch_spares_untoggled (value : bool) (g : Globals)
    (nodes : list Node) (k : nat) (node : Node) :
  nodes !! k = Some node →
  ∃ node',
    (onChangeHiding value g nodes).2 !! k = Some node' ∧
    (∀ j w, nWidgets node !! j = Some w → wHidden w = None →
            nWidgets node' !! j = Some w) ∧
    ((∀ j w, nWidgets node !! j = Some w → wHidden w = None) → node' = node).
Proof.
  intros Hk. unfold onChangeHiding.
  destruct (forNodes_lookup reapplyNode reapplyNode_stable nodes (set_hiding value g))
    as [_ Hnodes].
  destruct (Hnodes k node Hk) as (gk & _ & Hres & _).
  exists (reapplyNode (gk, node)).2. split; [done|].
  unfold reapplyNode. simpl. destruct (configOf _); [|done]. split.
  - intros j w Hj Hflag. by apply (reapply_unflagged _ (gk, node)).
  - intros Hnone. by rewrite (reapply_none _ (gk, node)).
Qed.

Lemma X21_switch_spares_untoggled_witness :
  let node := clownSampler "gaussian" None None in
  ∃ node',
    (onChangeHiding true (setup loaded) [node]).2 !! 0%nat = Some node' ∧
    (∀ j w, nWidgets node !! j = Some w → wHidden w = None →
            nWidgets node' !! j = Some w) ∧
    ((∀ j w, nWidgets node !! j = Some w → wHidden w = None) → node' = node).
Proof.
  intros node.
  apply (X21_switch_spares_untoggled true (setup loaded) [node] 0 node).
  reflexivity.
Defined.

(** ** Visibility when a node is created *)

Lemma values_names (ws ws' : list Widget) :
  (λ w, (wName w, wValue w)) <$> ws = (λ w, (wName w, wValue w)) <$> ws' →
  wName <$> ws = wName <$> ws'.
Proof.
  intros H. apply (f_equal (fmap (λ c : string * JsValue, c.1))) in H.
  by rewrite <- !list_fmap_compose in H.
Qed.

Lemma showWidgets_values ws ws' group :
  (λ w, (wName w, wValue w)) <$> ws = (λ w, (wName w, wValue w)) <$> ws' →
  showWidgets ws group = showWidgets ws' group.
Proof.
  intros H. unfold showWidgets.
  induction (inputWidgetNames group) as [|name l IH]; [done|].
  simpl. rewrite IH. f_equal. clear IH. revert ws' H.
  induction ws as [|w ws IHws]; intros [|w' ws'] H; try done.
  rewrite !fmap_cons in H. injection H as Hn Hv Hrest.
  specialize (IHws ws' Hrest). simpl.
  destruct (decide (wName w = name)) as [E|E],
           (decide (wName w' = name)) as [E'|E']; simpl.
  - by rewrite Hv.
  - destruct E'. by rewrite <- Hn.
  - destruct E. by rewrite Hn.
  - destruct (list_find _ ws) as [[? v]|], (list_find _ ws') as [[? v']|];
      simpl in *; exact IHws.
Qed.

Lemma setup_grown cfg s : grown s.1 (setupDynamicWidgets cfg s).1.
Proof.
  destruct (setup_anatomy cfg s) as (s2 & n1 & n3 & H2 & _ & _ & H3).
  eapply grown_trans; [apply (stable_grown _ _ H2)|apply (stable_grown _ _ H3)].
Qed.

Lemma common_rule_last group t i s :
  group ∈ commonDependentWidgets → t ∈ widgetsToShow group →
  findWidget (nWidgets s.2) t = Some i →
  toggledAt s (createGenericHandler (Some commonDependentWidgets) s) i t
    (showWidgets (nWidgets s.2) group).
Proof.
  intros Hgroup Ht Hf. unfold commonDependentWidgets in *.
  apply elem_of_cons in Hgroup as [->|Hgroup].
  - apply (createGenericHandler_last [] _ [_] s); [done| |done].
    intros gr' ->%list_elem_of_singleton Hm%list_elem_of_singleton.
    simpl in Hm. subst t. by apply (bool_decide_pack _) in Ht.
  - apply list_elem_of_singleton in Hgroup as ->.
    apply (createGenericHandler_last [_] _ [] s); [done| |done].
    intros gr' []%elem_of_nil.
Qed.

Lemma optional_group_last groups group t i s :
  (groups = [guideGroup] ∧ group = guideGroup) ∨
  (groups = [guideGroup; maskGroup] ∧ group = guideGroup) ∨
  (groups = [guideGroup; maskGroup] ∧ group = maskGroup) →
  t ∈ widgets group → findWidget (nWidgets s.2) t = Some i →
  toggledAt s (forEach applyOptionalGroup groups s) i t
    (isAnyConnected (nInputs s.2) group).
Proof.
  intros Hcases Ht Hf.
  assert (∀ pre post, groups = pre ++ group :: post →
            (∀ later, later ∈ post → t ∉ widgets later) →
            toggledAt s (forEach applyOptionalGroup groups s) i t
              (isAnyConnected (nInputs s.2) group)) as Hlast.
  { intros pre post -> Hpost.
    refine (rules_last applyOptionalGroup widgets
              (λ gr s, isAnyConnected (nInputs s.2) gr)
              applyOptionalGroup_stable applyOptionalGroup_other
              applyOptionalGroup_target _ pre group post s t i Ht Hpost Hf).
    intros gr s1 s2 Hst. by rewrite (st_inputs _ _ Hst). }
  destruct Hcases as [[-> ->]|[[-> ->]|[-> ->]]].
  - apply (Hlast [] []); [done|]. intros later []%elem_of_nil.
  - apply (Hlast [] [maskGroup]); [done|].
    intros later ->%list_elem_of_singleton Hm%list_elem_of_singleton.
    simpl in Hm. subst t. by apply guideGroup_widget in Ht as [|].
  - apply (Hlast [guideGroup] []); [done|]. intros later []%elem_of_nil.
Qed.

Lemma optional_targets_unlisted group t :
  group = guideGroup ∨ group = maskGroup → t ∈ widgets group →
  ∀ rule, rule ∈ commonDependentWidgets → t ∉ widgetsToShow rule.
Proof.
  intros Hgroup Ht rule Hrule.
  assert (t = "latent_guide_weight" ∨ t = "guide_mode" ∨ t = "rescale_floor")
    as Hcases.
  { destruct Hgroup as [-> | ->].
    - apply guideGroup_widget in Ht. tauto.
    - apply list_elem_of_singleton in Ht. tauto. }
  unfold commonDependentWidgets in Hrule.
  repeat (apply elem_of_cons in Hrule as [->|Hrule];
          [destruct Hcases as [-> | [-> | ->]]; apply (bool_decide_unpack _);
           by vm_compute|]).
  by apply elem_of_nil in Hrule.
Qed.

Lemma setup_final cfg s :
  ∃ s2 n3,
    stable s s2 ∧ comfyClass n3 = comfyClass s.2 ∧ nInputs n3 = nInputs s.2 ∧
    (∀ t, findWidget (nWidgets n3) t = findWidget (nWidgets s.2) t) ∧
    setupDynamicWidgets cfg s =
      match nodeConfigs !! comfyClass n3 ≫= optionalInputWidgets with
      | Some groups => forEach applyOptionalGroup groups (s2.1, n3)
      | None => (s2.1, n3)
      end.
Proof.
  unfold setupDynamicWidgets.
  set (s1 := forEach applyDefault _ _).
  set (s2 := createGenericHandler cfg s1).
  set (n1 := match cfg with Some _ => _ | None => _ end).
  set (n3 := if menuWrapped _ then _ else _).
  rewrite (configOf_optional (comfyClass n3)).
  assert (stable s s2) as H2.
  { eapply stable_trans; [|apply createGenericHandler_stable].
    eapply (stable_trans _ (emit _ s.1, s.2)); [by split|].
    apply (rules_stable applyDefault applyDefault_stable). }
  assert (recalled s2.2 n1) as H1.
  { subst n1. destruct cfg; [apply setCallbacks_recalled|apply recalled_refl]. }
  assert (comfyClass n3 = comfyClass n1 ∧ nInputs n3 = nInputs n1 ∧
          nWidgets n3 = nWidgets n1) as (Hc & Hi & Hw).
  { subst n3. clearbody n1. simpl. by destruct (menuWrapped n1). }
  exists s2, n3. split_and!; [exact H2| | | |reflexivity].
  - by rewrite Hc, (rc_class _ _ H1), (st_class _ _ H2).
  - by rewrite Hi, (rc_inputs _ _ H1), (st_inputs _ _ H2).
  - intros t. by rewrite Hw, (recalled_find _ _ t H1), (stable_find _ _ t H2).
Qed.

Lemma setup_connection_rules s config groups group t i :
  nodeConfigs !! comfyClass s.2 = Some config →
  optionalInputWidgets config = Some groups → group ∈ groups →
  t ∈ widgets group → findWidget (nWidgets s.2) t = Some i →
  ∀ cfg, ∃ w3 p,
    nWidgets (setupDynamicWidgets cfg s).2 !! i = Some w3 ∧
    origProps (setupDynamicWidgets cfg s).1 !! t = Some p ∧
    wHidden w3 = Some (negb (isAnyConnected (nInputs s.2) group)) ∧
    (if isAnyConnected (nInputs s.2) group || negb (ENABLE_WIDGET_HIDING s.1)
     then shownAs p w3 else hiddenAs w3).
Proof.
  intros Hcfg Hopt Hgroup Ht Hf cfg.
  pose proof (optional_groups_cases _ _ _ _ Hcfg Hopt Hgroup) as Hcases.
  destruct (setup_final cfg s) as (s2 & n3 & H2 & Hc & Hi & Hf3 & ->).
  rewrite Hc, Hcfg. clear Hcfg Hc. cbn [mbind option_bind]. rewrite Hopt.
  rewrite <- Hf3 in Hf.
  pose proof (optional_group_last groups group t i (s2.1, n3) Hcases Ht Hf) as H.
  destruct (toggled_at_result _ _ _ _ _ _ H (grown_refl _))
    as (w3 & p & Hw3 & Hp & Hflag & Hcase).
  cbn [fst snd] in Hflag, Hcase.
  rewrite Hi in Hflag, Hcase.
  rewrite (st_hiding _ _ H2) in Hcase.
  exists w3, p. split_and!; [exact Hw3|exact Hp|exact Hflag|exact Hcase].
Qed.

Lemma nodeCreated_view s config :
  nodeConfigs !! comfyClass s.2 = Some config →
  ∃ sH,
    sH = createGenericHandler (Some commonDependentWidgets)
           (setupDynamicWidgets (Some commonDependentWidgets) s) ∧
    nWidgets (nodeCreated s).2 = nWidgets sH.2 ∧
    origProps (nodeCreated s).1 = origProps sH.1.
Proof.
  intros Hcfg. unfold nodeCreated. rewrite (configOf_own _ _ Hcfg).
  destruct (nodeConfigs_entries _ _ Hcfg) as [-> _]. clear Hcfg.
  cbv zeta.
  generalize (createGenericHandler (Some commonDependentWidgets)
                (setupDynamicWidgets (Some commonDependentWidgets) s)).
  intros sH. exists sH. split; [|split]; reflexivity.
Qed.

(** X22. When a node of a configured type has been created, its
    widgets stand as the rules say for the values and links it has:
    every existing widget that a value rule lists carries the decision
    of that rule, and every existing widget that a connection group
    lists carries the decision "some input of the group has a link";
    each is shown or hidden accordingly. *)
Theorem X22_visibility_after_creation (s : St) (config : NodeConfig) :
  nodeConfigs !! comfyClass s.2 = Some config →
  let s' := nodeCreated s in
  (∀ group t i,
     group ∈ default [] (dependentWidgets config) → t ∈ widgetsToShow group →
     findWidget (nWidgets s.2) t = Some i →
     ∃ w' p,
       nWidgets s'.2 !! i = Some w' ∧ origProps s'.1 !! t = Some p ∧
       wHidden w' = Some (negb (showWidgets (nWidgets s.2) group)) ∧
       (if showWidgets (nWidgets s.2) group || negb (ENABLE_WIDGET_HIDING s.1)
        then shownAs p w' else hiddenAs w')) ∧
  (∀ group t i,
     group ∈ default [] (optionalInputWidgets config) → t ∈ widgets group →
     findWidget (nWidgets s.2) t = Some i →
     ∃ w' p,
       nWidgets s'.2 !! i = Some w' ∧ origProps s'.1 !! t = Some p ∧
       wHidden w' = Some (negb (isAnyConnected (nInputs s.2) group)) ∧
       (if isAnyConnected (nInputs s.2) group || negb (ENABLE_WIDGET_HIDING s.1)
        then shownAs p w' else hiddenAs w')).
Proof.
  intros Hcfg s'. subst s'.
  destruct (nodeCreated_view s config Hcfg) as (sH & HsH & -> & ->).
  destruct (nodeConfigs_entries _ _ Hcfg) as [Hdep Hoptc].
  rewrite Hdep. cbn [default].
  pose proof (setup_sameData (Some commonDependentWidgets) s) as Hdata.
  pose proof (setup_grown (Some commonDependentWidgets) s) as Hgrown.
  pose proof (createGenericHandler_stable (Some commonDependentWidgets)
                (setupDynamicWidgets (Some commonDependentWidgets) s)) as Hst.
  pose proof (λ group t i,
                common_rule_last group t i
                  (setupDynamicWidgets (Some commonDependentWidgets) s)) as Hrule.
  pose proof (createGenericHandler_spares (Some commonDependentWidgets)
                (setupDynamicWidgets (Some commonDependentWidgets) s)) as Hspare.
  pose proof (λ groups group t i Hopt Hgroup Ht Hf,
                setup_connection_rules s config groups group t i Hcfg Hopt Hgroup
                  Ht Hf (Some commonDependentWidgets)) as Hconn.
  clear Hcfg Hdep. rewrite <- HsH in Hst, Hrule, Hspare. clear HsH.
  revert Hdata Hgrown Hst Hrule Hspare Hconn.
  generalize (setupDynamicWidgets (Some commonDependentWidgets) s).
  intros s1 Hdata Hgrown Hst Hrule Hspare Hconn.
  assert (∀ t, findWidget (nWidgets s1.2) t = findWidget (nWidgets s.2) t) as Hfind.
  { intros t. apply findWidget_names, values_names, (sd_values _ _ Hdata). }
  split.
  - intros group t i Hgroup Ht Hf.
    specialize (Hrule group t i Hgroup Ht). rewrite Hfind in Hrule.
    specialize (Hrule Hf).
    destruct (toggled_at_result _ _ _ _ _ _ Hrule (grown_refl _))
      as (w' & p & Hw' & Hp & Hflag & Hcase).
    rewrite (showWidgets_values _ _ group (sd_values _ _ Hdata)) in Hflag, Hcase.
    rewrite (gr_hiding _ _ Hgrown) in Hcase.
    exists w', p. split_and!; [exact Hw'|exact Hp|exact Hflag|exact Hcase].
  - intros group t i Hgroup Ht Hf.
    destruct (optionalInputWidgets config) as [groups|] eqn:Hopt;
      [|by apply elem_of_nil in Hgroup].
    cbn [default] in Hgroup.
    assert (group = guideGroup ∨ group = maskGroup) as Hwhich.
    { destruct Hoptc as [Ho|[Ho|Ho]]; [discriminate Ho|..]; injection Ho as ->;
        repeat (apply elem_of_cons in Hgroup as [->|Hgroup]; [by auto|]);
        by apply elem_of_nil in Hgroup. }
    destruct (Hconn groups group t i eq_refl Hgroup Ht Hf)
      as (w3 & p & Hw3 & Hp & Hflag & Hcase).
    exists w3, p. split_and!; [|exact (lookup_weaken _ _ _ _ Hp (st_orig _ _ Hst))
                               |exact Hflag|exact Hcase].
    apply Hspare; [exact Hw3|]. cbn [default].
    destruct (findWidget_Some _ _ _ Hf) as (w0 & Hw0 & Hn0).
    assert (wName w3 = t) as ->.
    { pose proof (sd_values _ _ Hdata) as Hv. apply values_names in Hv.
      apply (f_equal (.!! i)) in Hv. rewrite !list_lookup_fmap, Hw3, Hw0 in Hv.
      simpl in Hv. congruence. }
    exact (optional_targets_unlisted group t Hwhich Ht).
Qed.

Lemma X22_visibility_after_creation_witness :
  let s := (hidingOn, clownSampler "fractal" None (Some 3)) in
  let config := createNodeConfig "ClownSampler" (withOptional [guideGroup; maskGroup]) in
  let s' := nodeCreated s in
  (∀ group t i,
     group ∈ default [] (dependentWidgets config) → t ∈ widgetsToShow group →
     findWidget (nWidgets s.2) t = Some i →
     ∃ w' p,
       nWidgets s'.2 !! i = Some w' ∧ origProps s'.1 !! t = Some p ∧
       wHidden w' = Some (negb (showWidgets (nWidgets s.2) group)) ∧
       (if showWidgets (nWidgets s.2) group || negb (ENABLE_WIDGET_HIDING s.1)
        then shownAs p w' else hiddenAs w')) ∧
  (∀ group t i,
     group ∈ default [] (optionalInputWidgets config) → t ∈ widgets group →
     findWidget (nWidgets s.2) t = Some i →
     ∃ w' p,
       nWidgets s'.2 !! i = Some w' ∧ origProps s'.1 !! t = Some p ∧
       wHidden w' = Some (negb (isAnyConnected (nInputs s.2) group)) ∧
       (if isAnyConnected (nInputs s.2) group || negb (ENABLE_WIDGET_HIDING s.1)
        then shownAs p w' else hiddenAs w')).
Proof.
  apply (X22_visibility_after_creation
           (hidingOn, clownSampler "fractal" None (Some 3))
           (createNodeConfig "ClownSampler" (withOptional [guideGroup; maskGroup]))).
  vm_compute; reflexivity.
Defined.
